(** * Orchestration core: agent lifecycle, tool registry, model router,
      memory manager and orchestrator

    A shallow embedding of the TypeScript classes [BaseAgent], [ToolRegistry],
    [ModelRouter], [MemoryManager] and [Orchestrator], followed by the
    properties established about them.

    Conventions.
    - A JS [Map<string, V>] is an association list in insertion order
      ([JSMap]): iteration order is observable in the code (first-fit scans,
      stable sorts), so the order is part of the model.
    - A method that may throw returns a [Result]; a method that mutates [this]
      returns the new object next to its result.
    - [Date.now()] readings are arguments (milliseconds, [Z]).
    - An [async] method runs synchronously up to its first suspension point,
      so a method without a real suspension is one atomic step.
    - Costs and budgets, which the code adds, multiplies and compares, are
      binary64 numbers ([PrimFloat]); counts and clock readings are
      integers.  A string whose [length] is taken is a list of UTF-16 code
      units.
    - An argument object is its own properties together with the names it
      inherits, since the code looks names up with [in].
    - What the environment decides is a parameter: the hooks of an agent,
      the rule primitives of the tool registry (which may throw), the
      backend of the router, the listeners of the orchestrator's events
      (which may throw). *)

From Stdlib Require Import List String Ascii ZArith QArith Lia Bool Arith.
From Stdlib Require Import Permutation Sorted Qminmax Qpower Lqa.
From Stdlib Require PrimFloat SpecFloat FloatOps.
Import ListNotations.

Set Implicit Arguments.
Set Warnings "-register-all".

Local Close Scope Q_scope.
Local Open Scope string_scope.
Local Open Scope list_scope.

(* ================================================================== *)
(** ** Exceptions *)

(** [Ok v]: the call returns (or the promise resolves with) [v];
    [Throw msg]: it throws (or rejects with) [new Error(msg)]. *)
Inductive Result (A : Type) : Type :=
| Ok (v : A)
| Throw (msg : string).
Arguments Ok {A} v.
Arguments Throw {A} msg.

(* ================================================================== *)
(** ** Insertion-ordered maps with string keys *)

Module JSMap.
Section Defs.
Variable V : Type.

Definition t := list (string * V).

Definition empty : t := [].

Fixpoint get (k : string) (m : t) : option V :=
  match m with
  | [] => None
  | (k', v) :: m' => if String.eqb k k' then Some v else get k m'
  end.

Definition has (k : string) (m : t) : bool :=
  match get k m with Some _ => true | None => false end.

(** [Map.prototype.set]: an existing key keeps its position, a new key
    goes last. *)
Fixpoint set (k : string) (v : V) (m : t) : t :=
  match m with
  | [] => [(k, v)]
  | (k', v') :: m' =>
      if String.eqb k k' then (k', v) :: m' else (k', v') :: set k v m'
  end.

Fixpoint delete (k : string) (m : t) : t :=
  match m with
  | [] => []
  | (k', v') :: m' =>
      if String.eqb k k' then m' else (k', v') :: delete k m'
  end.

Definition keys (m : t) : list string := map fst m.

Definition size (m : t) : nat := List.length m.
End Defs.
End JSMap.

(* ================================================================== *)
(** ** Tasks (shared types) *)

Inductive TaskStatus := pending | in_progress | completed | failed | cancelled.

Definition TaskStatus_eqb (a b : TaskStatus) : bool :=
  match a, b with
  | pending, pending | in_progress, in_progress | completed, completed
  | failed, failed | cancelled, cancelled => true
  | _, _ => false
  end.

(** The fields of [Task] the core reads or writes.  [type_] is the task kind
    as the string it is at run time ([""] when absent); [dependencies] is
    optional in the interface; [has_result] records whether [result] is
    set. *)
Record Task := mkTask {
  id : string;
  description : string;
  type_ : string;
  status : TaskStatus;
  dependencies : option (list string);
  has_result : bool
}.

Definition with_status (t : Task) (s : TaskStatus) : Task :=
  mkTask (id t) (description t) (type_ t) s (dependencies t) (has_result t).

Definition with_status_result (t : Task) (s : TaskStatus) : Task :=
  mkTask (id t) (description t) (type_ t) s (dependencies t) true.

(* ================================================================== *)
(** ** BaseAgent (agents/Agent.ts) *)

Module Agent.

Inductive HookCall := CallOnInitialize | CallOnExecute | CallOnShutdown.

Inductive LogEntry := LogInfo (m : string) | LogError (m : string).

Section WithPayload.
(** [TaskResult] and [TaskContext] are opaque to the base class. *)
Variables TaskResult TaskContext : Type.

(** The three abstract hooks of a concrete agent.  A hook may keep state
    of its own, so its outcome is a function of the hook calls made so far.
    [None]: the hook resolves; [Some e]: it rejects with [e]. *)
Record Hooks := mkHooks {
  onInitialize : list HookCall -> option string;
  onExecute : list HookCall -> Task -> TaskContext -> Result TaskResult;
  onShutdown : list HookCall -> option string
}.

Record BaseAgent := mkAgent {
  name : string;                 (* config.name *)
  isInitialized : bool;
  calls : list HookCall;         (* hooks invoked so far, oldest first *)
  logs : list LogEntry           (* what went to the logger *)
}.

(** The constructor: [isInitialized = false]. *)
Definition new (n : string) : BaseAgent := mkAgent n false [] [].

Definition log (e : LogEntry) (a : BaseAgent) : BaseAgent :=
  mkAgent (name a) (isInitialized a) (calls a) (logs a ++ [e]).

Definition called (c : HookCall) (a : BaseAgent) : BaseAgent :=
  mkAgent (name a) (isInitialized a) (calls a ++ [c]) (logs a).

Definition set_initialized (b : bool) (a : BaseAgent) : BaseAgent :=
  mkAgent (name a) b (calls a) (logs a).

Variable h : Hooks.

Definition initialize (a : BaseAgent) : Result unit * BaseAgent :=
  if isInitialized a then (Ok tt, a)
  else
    let a1 := log (LogInfo ("Initializing agent: " ++ name a)) a in
    match onInitialize h (calls a1) with
    | Some e => (Throw e, called CallOnInitialize a1)
    | None =>
        let a2 := set_initialized true (called CallOnInitialize a1) in
        (Ok tt, log (LogInfo ("Agent initialized: " ++ name a)) a2)
    end.

Definition not_initialized_message (n : string) : string :=
  "Agent " ++ n ++ " is not initialized".

Definition execute (a : BaseAgent) (task : Task) (context : TaskContext)
  : Result TaskResult * BaseAgent :=
  if negb (isInitialized a) then
    (Throw (not_initialized_message (name a)), a)
  else
    let a1 := log (LogInfo ("Executing task: " ++ description task)) a in
    match onExecute h (calls a1) task context with
    | Ok r =>
        (Ok r,
         log (LogInfo ("Task completed successfully: " ++ description task))
             (called CallOnExecute a1))
    | Throw e =>
        (Throw e,
         log (LogError ("Task failed: " ++ description task))
             (called CallOnExecute a1))
    end.

Definition shutdown (a : BaseAgent) : Result unit * BaseAgent :=
  if negb (isInitialized a) then (Ok tt, a)
  else
    let a1 := log (LogInfo ("Shutting down agent: " ++ name a)) a in
    match onShutdown h (calls a1) with
    | Some e => (Throw e, called CallOnShutdown a1)
    | None =>
        let a2 := set_initialized false (called CallOnShutdown a1) in
        (Ok tt, log (LogInfo ("Agent shutdown complete: " ++ name a)) a2)
    end.

(** The outcome of [execute] on a new agent, and on an agent that went
    through [initialize] and [shutdown]. *)
Definition execute_before_initialize (n : string) (task : Task)
           (context : TaskContext) : Result TaskResult :=
  fst (execute (new n) task context).

Definition execute_after_shutdown (n : string) (task : Task)
           (context : TaskContext) : Result TaskResult :=
  fst (execute (snd (shutdown (snd (initialize (new n))))) task context).

(** Both calls fail, with different errors. *)
Definition distinguishable_failures (n : string) (task : Task)
           (context : TaskContext) : Prop :=
  exists e1 e2, e1 <> e2
                /\ execute_before_initialize n task context = Throw e1
                /\ execute_after_shutdown n task context = Throw e2.

(** How often a hook has been invoked. *)
Definition HookCall_eqb (x y : HookCall) : bool :=
  match x, y with
  | CallOnInitialize, CallOnInitialize
  | CallOnExecute, CallOnExecute
  | CallOnShutdown, CallOnShutdown => true
  | _, _ => false
  end.

Definition invocations (c : HookCall) (a : BaseAgent) : nat :=
  List.length (filter (HookCall_eqb c) (calls a)).
End WithPayload.

(** A concrete agent whose hooks always succeed, for closed examples. *)
Definition quiet_hooks : Hooks unit unit :=
  mkHooks (fun _ => None) (fun _ _ _ => Ok tt) (fun _ => None).

Definition sample_task : Task :=
  mkTask "t1" "add input validation" "code-generation" pending None false.

End Agent.

(* ================================================================== *)
(** ** ToolRegistry (tooling/ToolRegistry.ts) *)

Module Tools.

(** Argument values, as far as [validateType] and [validateRule] look at
    them.  Numbers are integers here; the contents of a plain object are not
    inspected by the registry. *)
Inductive JSValue :=
| JUndefined
| JNull
| JBool (b : bool)
| JNum (n : Z)
| JStr (s : string)
| JArr (l : list JSValue)
| JObj.

(** An argument object ([Record<string, any>]): [entries] is what
    [Object.entries(args)] enumerates, in its order (the own enumerable
    properties); [inherited] holds the further names the [in] operator
    finds in the object, those of its prototype chain. *)
Record Args := mkArgs {
  entries : list (string * JSValue);
  inherited : list string
}.

(** The names every object inherits from [Object.prototype]. *)
Definition object_prototype : list string :=
  ["constructor"; "__defineGetter__"; "__defineSetter__"; "hasOwnProperty";
   "__lookupGetter__"; "__lookupSetter__"; "isPrototypeOf";
   "propertyIsEnumerable"; "toString"; "valueOf"; "__proto__";
   "toLocaleString"].

(** An object literal, or the result of [JSON.parse]. *)
Definition plain (own : list (string * JSValue)) : Args :=
  mkArgs own object_prototype.

Definition own_property (k : string) (args : Args) : bool :=
  existsb (fun kv => String.eqb k (fst kv)) (entries args).

(** [name in args]: own and inherited properties alike. *)
Definition has_property (k : string) (args : Args) : bool :=
  own_property k args || existsb (String.eqb k) (inherited args).

Inductive RuleType := rule_min | rule_max | rule_regex | rule_enum | rule_custom.

Record ValidationRule := mkRule {
  rule_type : RuleType;
  rule_value : JSValue;
  rule_message : string
}.

Record ToolParameter := mkParam {
  param_name : string;
  param_type : string;  (* 'string' | 'number' | 'boolean' | 'array' | 'object' *)
  required : bool;
  validation : option (list ValidationRule)
}.

Inductive ToolType := builtin | external | ai.

Record ToolConfig := mkToolConfig {
  tool_name : string;
  tool_type : ToolType;
  timeout : Z;
  parameters : list ToolParameter
}.

Record ToolResult := mkToolResult {
  success : bool;
  error : option string;
  duration : Z
}.

Record ToolMetrics := mkMetrics {
  calls : Z;
  successes : Z;
  failures : Z;
  averageLatency : Q;
  totalDuration : Z;
  lastUsed : Z
}.

(** What the registry needs from the JS runtime and from the tool
    implementations.  A rule value is [any], so each rule primitive may
    throw: [new RegExp] on a pattern that does not compile, [.includes] on a
    value that has no such method, [<] on a value whose conversion throws. *)
Record Runtime := mkRuntime {
  less_than : JSValue -> JSValue -> Result bool;   (* a < b *)
  regex_test : JSValue -> string -> Result bool;   (* new RegExp(p).test(s) *)
  includes : JSValue -> JSValue -> Result bool;    (* a.includes(v), as a condition *)
  (** [tool.execute(args)] of the tool built from a config. *)
  tool_execute : ToolConfig -> Args -> Result ToolResult
}.

(** The three clock readings of one [executeTool] call. *)
Record Clock := mkClock {
  startTime : Z;      (* Date.now() on entry *)
  endTime : Z;        (* Date.now() when the duration is taken *)
  usedAt : Z          (* new Date() stored in lastUsed *)
}.

Record ToolRegistry := mkRegistry {
  tools : JSMap.t ToolConfig;
  metrics : JSMap.t ToolMetrics;
  (** [execute] calls made on tool implementations, oldest first. *)
  executed : list (string * Args)
}.

Definition empty : ToolRegistry := mkRegistry [] [] [].

Definition zero_metrics (now : Z) : ToolMetrics :=
  mkMetrics 0 0 0 0%Q 0 now.

(** [createTool] succeeds on each of the three tool types, so [registerTool]
    always stores the tool and a zeroed metrics record. *)
Definition registerTool (r : ToolRegistry) (config : ToolConfig) (now : Z)
  : ToolRegistry :=
  mkRegistry (JSMap.set (tool_name config) config (tools r))
             (JSMap.set (tool_name config) (zero_metrics now) (metrics r))
             (executed r).

(** [shutdown] shuts every tool down and clears both maps. *)
Definition shutdown (r : ToolRegistry) : ToolRegistry :=
  mkRegistry [] [] (executed r).

Definition typeof (v : JSValue) : string :=
  match v with
  | JUndefined => "undefined"
  | JNull => "object"
  | JBool _ => "boolean"
  | JNum _ => "number"
  | JStr _ => "string"
  | JArr _ => "object"
  | JObj => "object"
  end.

Definition validateType (name : string) (value : JSValue) (expectedType : string)
  : option string :=
  let actualType := match value with JArr _ => "array" | _ => typeof value end in
  if negb (String.eqb actualType expectedType) then
    Some ("Parameter '" ++ name ++ "' should be of type " ++ expectedType
          ++ ", got " ++ actualType)%string
  else None.

Section WithRuntime.
Variable rt : Runtime.

(** The value a rule primitive gives to the [if] of [validateRule]. *)
Definition when_true (c : Result bool) (message : string) : Result (option string) :=
  match c with
  | Ok true => Ok (Some message)
  | Ok false => Ok None
  | Throw e => Throw e
  end.

(** [validateRule]: [Some] the rule's message, [None] for [null]; an
    exception of a rule primitive goes through. *)
Definition validateRule (name : string) (value : JSValue) (rule : ValidationRule)
  : Result (option string) :=
  match rule_type rule with
  | rule_min =>
      match value with
      | JNum _ => when_true (less_than rt value (rule_value rule)) (rule_message rule)
      | _ => Ok None
      end
  | rule_max =>
      match value with
      | JNum _ => when_true (less_than rt (rule_value rule) value) (rule_message rule)
      | _ => Ok None
      end
  | rule_regex =>
      match value with
      | JStr s =>
          match regex_test rt (rule_value rule) s with
          | Ok b => when_true (Ok (negb b)) (rule_message rule)
          | Throw e => Throw e
          end
      | _ => Ok None
      end
  | rule_enum =>
      match includes rt (rule_value rule) value with
      | Ok b => when_true (Ok (negb b)) (rule_message rule)
      | Throw e => Throw e
      end
  | rule_custom => Ok None
  end.

(** [if (error) errors.push(error)]: [null] and the empty string are
    falsy. *)
Definition pushed (error : option string) : list string :=
  match error with
  | Some m => if String.eqb m "" then [] else [m]
  | None => []
  end.

(** First loop of [validateArguments]. *)
Definition missing_errors (params : list ToolParameter) (args : Args)
  : list string :=
  flat_map (fun param =>
              if required param && negb (has_property (param_name param) args)
              then [("Missing required parameter: " ++ param_name param)%string]
              else [])
           params.

(** The loop over [param.validation]: the errors pushed, or the first
    exception. *)
Fixpoint rule_errors (name : string) (value : JSValue) (rules : list ValidationRule)
  : Result (list string) :=
  match rules with
  | [] => Ok []
  | rule :: rest =>
      match validateRule name value rule with
      | Throw e => Throw e
      | Ok ruleError =>
          match rule_errors name value rest with
          | Throw e => Throw e
          | Ok errs => Ok (pushed ruleError ++ errs)
          end
      end
  end.

(** Body of the second loop, for one entry of [Object.entries(args)]. *)
Definition entry_errors (params : list ToolParameter) (entry : string * JSValue)
  : Result (list string) :=
  let (name, value) := entry in
  match find (fun p => String.eqb (param_name p) name) params with
  | None => Ok [("Unknown parameter: " ++ name)%string]
  | Some param =>
      let typeErrors :=
        match value with
        | JNull | JUndefined => []
        | _ => pushed (validateType name value (param_type param))
        end in
      match validation param with
      | Some rules =>
          match rule_errors name value rules with
          | Throw e => Throw e
          | Ok errs => Ok (typeErrors ++ errs)
          end
      | None => Ok typeErrors
      end
  end.

(** The second loop. *)
Fixpoint entries_errors (params : list ToolParameter)
         (l : list (string * JSValue)) : Result (list string) :=
  match l with
  | [] => Ok []
  | entry :: rest =>
      match entry_errors params entry with
      | Throw e => Throw e
      | Ok errs =>
          match entries_errors params rest with
          | Throw e => Throw e
          | Ok more => Ok (errs ++ more)
          end
      end
  end.

Record Validation := mkValidation { valid : bool; errors : list string }.

(** [validateArguments]: the errors of both loops, or the exception that
    ended the second. *)
Definition validateArguments (config : ToolConfig) (args : Args) : Result Validation :=
  match entries_errors (parameters config) (entries args) with
  | Throw e => Throw e
  | Ok found =>
      let errs := missing_errors (parameters config) args ++ found in
      Ok (mkValidation (Nat.eqb (List.length errs) 0) errs)
  end.

(** The success branch and the [catch] branch update the metrics object
    in place. *)
Definition average (total count : Z) : Q := (inject_Z total / inject_Z count)%Q.

Definition record_success (m : ToolMetrics) (d : Z) (now : Z) : ToolMetrics :=
  mkMetrics (calls m + 1) (successes m + 1) (failures m)
            (average (totalDuration m + d) (calls m + 1))
            (totalDuration m + d) now.

Definition record_failure (m : ToolMetrics) (d : Z) (now : Z) : ToolMetrics :=
  mkMetrics (calls m + 1) (successes m) (failures m + 1)
            (average (totalDuration m + d) (calls m + 1))
            (totalDuration m + d) now.

Definition invalid_arguments_message (errs : list string) : string :=
  ("Invalid arguments: " ++ String.concat ", " errs)%string.

(** Reading a field of the missing metrics object throws a [TypeError]. *)
Definition no_metrics_message : string :=
  "Cannot read properties of undefined (reading 'calls')".

(** Whether the [try] block of [executeTool] gets past the validation. *)
Definition accepted (config : ToolConfig) (args : Args) : bool :=
  match validateArguments config args with
  | Ok validation => valid validation
  | Throw _ => false
  end.

(** What the [try] block of [executeTool] comes to before it touches the
    metrics: the tool's result, or the exception that takes it to the
    [catch] block (of the validation itself, of the validation errors, of
    the tool). *)
Definition attempt (config : ToolConfig) (args : Args) : Result ToolResult :=
  match validateArguments config args with
  | Throw e => Throw e
  | Ok validation =>
      if negb (valid validation) then
        Throw (invalid_arguments_message (errors validation))
      else tool_execute rt config args
  end.

(** [executeTool].  A call that fails validation has no suspension point;
    a call that reaches [tool.execute] is taken as one step. *)
Definition executeTool (r : ToolRegistry) (toolName : string) (args : Args)
           (clk : Clock) : Result ToolResult * ToolRegistry :=
  match JSMap.get toolName (tools r) with
  | None => (Throw ("Tool not found: " ++ toolName)%string, r)
  | Some config =>
      let d := (endTime clk - startTime clk)%Z in
      let ran := if accepted config args
                 then executed r ++ [(toolName, args)] else executed r in
      match JSMap.get toolName (metrics r) with
      | None => (Throw no_metrics_message, mkRegistry (tools r) (metrics r) ran)
      | Some m =>
          match attempt config args with
          | Ok result =>
              (Ok result,
               mkRegistry (tools r)
                          (JSMap.set toolName (record_success m d (usedAt clk))
                                     (metrics r))
                          ran)
          | Throw e =>
              (* the catch block *)
              (Ok (mkToolResult false (Some e) d),
               mkRegistry (tools r)
                          (JSMap.set toolName (record_failure m d (usedAt clk))
                                     (metrics r))
                          ran)
          end
      end
  end.

(** Registries the public interface can produce. *)
Inductive Call :=
| CallRegister (config : ToolConfig) (now : Z)
| CallExecute (toolName : string) (args : Args) (clk : Clock)
| CallShutdown.

Definition apply_call (r : ToolRegistry) (c : Call) : ToolRegistry :=
  match c with
  | CallRegister config now => registerTool r config now
  | CallExecute toolName args clk => snd (executeTool r toolName args clk)
  | CallShutdown => shutdown r
  end.

Definition after (cs : list Call) : ToolRegistry := fold_left apply_call cs empty.
End WithRuntime.

(** Every registered tool has a metrics record. *)
Definition metrics_cover (r : ToolRegistry) : Prop :=
  forall n config, JSMap.get n (tools r) = Some config ->
                   exists m, JSMap.get n (metrics r) = Some m.

(** [a] occurs in [s]. *)
Definition mentions (s a : string) : Prop :=
  exists pre post, s = (pre ++ a ++ post)%string.

(** A small runtime for closed examples: numeric [<], literal patterns,
    [includes] on arrays of primitives; tools echo success. *)
Definition value_eqb (a b : JSValue) : bool :=
  match a, b with
  | JUndefined, JUndefined | JNull, JNull => true
  | JBool x, JBool y => Bool.eqb x y
  | JNum x, JNum y => Z.eqb x y
  | JStr x, JStr y => String.eqb x y
  | _, _ => false
  end.

Definition sample_runtime : Runtime :=
  mkRuntime
    (fun a b => Ok (match a, b with JNum x, JNum y => Z.ltb x y | _, _ => false end))
    (fun p s => match p with
                | JStr "(" => Throw "Invalid regular expression: /(/: Unterminated group"
                | JStr q => Ok (String.eqb q s)
                | _ => Ok false
                end)
    (fun a v => match a with
                | JArr l => Ok (existsb (value_eqb v) l)
                | _ => Throw "rule.value.includes is not a function"
                end)
    (fun _ _ => Ok (mkToolResult true None 0)).

(** The registered [file-write] tool: [path] and [content] required,
    [encoding] optional. *)
Definition file_write : ToolConfig :=
  mkToolConfig "file-write" builtin 10000
    [ mkParam "path" "string" true None;
      mkParam "content" "string" true None;
      mkParam "encoding" "string" false None ].

(** A tool whose one required parameter bears the name of a property that
    every object inherits. *)
Definition class_writer : ToolConfig :=
  mkToolConfig "class-writer" builtin 10000
    [ mkParam "constructor" "string" true None ].

(** A tool with a rule whose pattern does not compile. *)
Definition grep_tool : ToolConfig :=
  mkToolConfig "grep" builtin 10000
    [ mkParam "path" "string" true None;
      mkParam "pattern" "string" true
              (Some [mkRule rule_regex (JStr "(") "pattern must be a word"]) ].

End Tools.

(* ================================================================== *)
(** ** ModelRouter (models/ModelRouter.ts) *)

Module Router.

(** *** JS numbers and strings

    Prices, budgets and token totals are JS numbers: IEEE 754 doubles, here
    the primitive [float].  A field that may be absent is held as NaN where
    the code only adds it, multiplies it or tests it with [|| 0]:
    [undefined] and NaN behave alike in all three. *)

(** JS numbers. *)
Definition float : Set := PrimFloat.float.

(** The double nearest to an integer (the integer itself below 2^53). *)
Definition of_Z (z : Z) : float :=
  FloatOps.SF2Prim (SpecFloat.binary_normalize FloatOps.prec FloatOps.emax z 0 false).

(** A number as a condition: 0, -0 and NaN are falsy. *)
Definition truthy (x : float) : bool :=
  negb (PrimFloat.eqb x PrimFloat.zero || PrimFloat.is_nan x).

(** [a > b] and [a <= b] on doubles (both false when one side is NaN). *)
Definition gt (a b : float) : bool := PrimFloat.ltb b a.
Definition le (a b : float) : bool := PrimFloat.leb a b.

(** A JS string is a sequence of UTF-16 code units, and [length] counts
    them. *)
Definition JSString := list N.

(** The code units of a text written in ASCII. *)
Definition units (s : string) : JSString :=
  map N_of_ascii (list_ascii_of_string s).

(** [Array.prototype.join]. *)
Fixpoint join (sep : JSString) (l : list JSString) : JSString :=
  match l with
  | [] => []
  | [x] => x
  | x :: rest => x ++ sep ++ join sep rest
  end.

Record ModelConfig := mkModel {
  model_name : string;
  oss : bool;                       (* type === 'oss' *)
  maxTokens : Z;
  supportsStreaming : bool;
  costPerToken : option float
}.

(** The configuration after the constructor has filled in the defaults. *)
Record ModelRouterConfig := mkConfig {
  defaultModel : string;
  fallbackModels : list string;
  timeout : Z;
  maxRetries : nat;
  costBudget : option float;
  rateLimit_requests : Z;
  rateLimit_window : Z              (* milliseconds *)
}.

Record ModelMetrics := mkModelMetrics {
  requests : Z;
  tokensUsed : float;
  cost : float;
  latency : list Z;
  errors : Z
}.

Record Message := mkMessage { role : string; content : JSString }.

Record ModelRequest := mkRequest {
  messages : list Message;
  request_maxTokens : option Z;
  stream : bool
}.

(** The [usage] object of the backend's answer: [transformResponse] reads
    [total_tokens], [updateMetrics] reads [totalTokens]. *)
Record Usage := mkUsage {
  total_tokens : float;
  totalTokens : float
}.

(** The fields of the backend's answer that the router reads:
    [choices[0].message.content] ([""] when absent), [usage] and [model],
    either of which may be absent. *)
Record BackendResponse := mkBackendResponse {
  choice_content : string;
  usage : option Usage;
  response_model : option string
}.

Record ModelResponse := mkResponse {
  response_content : string;
  response_totalTokens : float;
  model : string
}.

Record ModelRouter := mkRouter {
  config : ModelRouterConfig;
  models : JSMap.t ModelConfig;
  zai : bool;                               (* this.zai !== null *)
  metrics : ModelMetrics;
  requestTimes : JSMap.t (list Z);
  (** Backend calls made so far: model name and attempt number. *)
  backendCalls : list (string * nat)
}.

Definition registerModel (r : ModelRouter) (modelConfig : ModelConfig) : ModelRouter :=
  mkRouter (config r) (JSMap.set (model_name modelConfig) modelConfig (models r))
           (zai r) (metrics r) (requestTimes r) (backendCalls r).

(** [Math.ceil(text.length / 4)] on the contents joined by one space. *)
Definition estimateTokenCount (request : ModelRequest) : Z :=
  let text := join [32%N] (map content (messages request)) in
  Z.of_nat ((List.length text + 3) / 4).

(** [costPerToken || 0]. *)
Definition cost_or_zero (c : option float) : float :=
  match c with
  | Some x => if truthy x then x else PrimFloat.zero
  | None => PrimFloat.zero
  end.

Definition first_key (V : Type) (m : JSMap.t V) : option string :=
  match m with [] => None | (k, _) :: _ => Some k end.

(** [this.metrics.cost + estimatedTokens * (costPerToken || 0)]: the
    running cost plus the estimated cost of the request on a model, each
    operation rounded as doubles are. *)
Definition projected_cost (r : ModelRouter) (estimatedTokens : Z) (c : option float)
  : float :=
  PrimFloat.add (cost (metrics r))
                (PrimFloat.mul (of_Z estimatedTokens) (cost_or_zero c)).

(** [selectModel]; [None] stands for [undefined] (no default model, no
    fallback and no registered model). *)
Definition selectModel (r : ModelRouter) (request : ModelRequest) : option string :=
  let defaultModelConfig := JSMap.get (defaultModel (config r)) (models r) in
  let selected0 :=
    match defaultModelConfig with
    | Some _ => Some (defaultModel (config r))
    | None =>
        match fallbackModels (config r) with
        | f :: _ => if String.eqb f "" then first_key (models r) else Some f
        | [] => first_key (models r)
        end
    end in
  let estimatedTokens := estimateTokenCount request in
  let selected1 :=
    match defaultModelConfig with
    | Some d =>
        if (estimatedTokens >? maxTokens d)%Z then
          match find (fun kv => (maxTokens (snd kv) >=? estimatedTokens)%Z) (models r) with
          | Some (modelName, _) => Some modelName
          | None => selected0
          end
        else selected0
    | None => selected0
    end in
  match costBudget (config r) with
  | Some budget =>
      if negb (truthy budget) then selected1
      else
        let modelCost :=
          match selected1 with
          | Some n => match JSMap.get n (models r) with
                      | Some m => costPerToken m
                      | None => None
                      end
          | None => None
          end in
        if gt (projected_cost r estimatedTokens modelCost) budget then
          match find (fun kv => le (projected_cost r estimatedTokens
                                                   (costPerToken (snd kv)))
                                   budget)
                     (models r) with
          | Some (modelName, _) => Some modelName
          | None => selected1
          end
        else selected1
  | None => selected1
  end.

Definition set_requestTimes (r : ModelRouter) (rt : JSMap.t (list Z)) : ModelRouter :=
  mkRouter (config r) (models r) (zai r) (metrics r) rt (backendCalls r).

Definition rate_limit_message (m : string) : string :=
  "Rate limit exceeded for model " ++ m.

(** The request times that are still inside the window at [now]. *)
Definition in_window (r : ModelRouter) (now : Z) (times : list Z) : list Z :=
  filter (fun time => (now - rateLimit_window (config r) <? time)%Z) times.

(** [checkRateLimit]: drop old request times, refuse if any model is at the
    limit, otherwise record [now] under the default model. *)
Definition checkRateLimit (r : ModelRouter) (now : Z) : Result unit * ModelRouter :=
  let cleaned := map (fun kv => (fst kv, in_window r now (snd kv))) (requestTimes r) in
  match find (fun kv => (Z.of_nat (List.length (snd kv))
                         >=? rateLimit_requests (config r))%Z) cleaned with
  | Some (m, _) => (Throw (rate_limit_message m), set_requestTimes r cleaned)
  | None =>
      let modelTimes :=
        match JSMap.get (defaultModel (config r)) cleaned with
        | Some l => l
        | None => []
        end in
      (Ok tt,
       set_requestTimes r (JSMap.set (defaultModel (config r)) (modelTimes ++ [now])
                                     cleaned))
  end.

Definition last_n (A : Type) (n : nat) (l : list A) : list A :=
  skipn (List.length l - n) l.

Definition set_metrics (r : ModelRouter) (m : ModelMetrics) : ModelRouter :=
  mkRouter (config r) (models r) (zai r) m (requestTimes r) (backendCalls r).

(** Reading [totalTokens] of the missing [usage] throws a [TypeError]. *)
Definition no_usage_message : string :=
  "Cannot read properties of undefined (reading 'totalTokens')".

(** [updateMetrics], called with the backend's answer as it came:
    [requests] is incremented first; reading [response.usage.totalTokens]
    then throws when the answer has no [usage], and nothing else is
    updated. *)
Definition updateMetrics (r : ModelRouter) (response : BackendResponse) (lat : Z)
  : Result unit * ModelRouter :=
  let m := metrics r in
  match usage response with
  | None =>
      (Throw no_usage_message,
       set_metrics r (mkModelMetrics (requests m + 1) (tokensUsed m) (cost m)
                                     (latency m) (errors m)))
  | Some u =>
      let latency' := latency m ++ [lat] in
      let modelConfig :=
        match response_model response with
        | Some n => JSMap.get n (models r)
        | None => None
        end in
      let cost' :=
        match modelConfig with
        | Some mc =>
            match costPerToken mc with
            | Some c => if truthy c
                        then PrimFloat.add (cost m) (PrimFloat.mul (totalTokens u) c)
                        else cost m
            | None => cost m
            end
        | None => cost m
        end in
      (Ok tt,
       set_metrics r
         (mkModelMetrics (requests m + 1)
                         (PrimFloat.add (tokensUsed m) (totalTokens u))
                         cost'
                         (if Nat.ltb 100 (List.length latency')
                          then last_n 100 latency' else latency')
                         (errors m)))
  end.

Definition count_error (r : ModelRouter) : ModelRouter :=
  let m := metrics r in
  set_metrics r (mkModelMetrics (requests m) (tokensUsed m) (cost m) (latency m)
                                (errors m + 1)).

(** [transformResponse]: [usage?.total_tokens || 0]. *)
Definition transformResponse (z : BackendResponse) (modelName : string) : ModelResponse :=
  mkResponse (choice_content z)
             (match usage z with
              | Some u => if truthy (total_tokens u) then total_tokens u
                          else PrimFloat.zero
              | None => PrimFloat.zero
              end)
             modelName.

Section WithBackend.
(** The outcome of the race between the backend call and the timeout, for
    a model name and an attempt number. *)
Variable backend : string -> nat -> Result BackendResponse.

(** [executeWithRetry]: attempts [attempt], [attempt + 1], ... while
    [remaining] attempts are left; returns the calls made. *)
Fixpoint attempts (modelName : string) (remaining attempt : nat)
         (lastError : string) : Result BackendResponse * list (string * nat) :=
  match remaining with
  | O => (Throw lastError, [])
  | S remaining' =>
      match backend modelName attempt with
      | Ok z => (Ok z, [(modelName, attempt)])
      | Throw e =>
          let (res, made) := attempts modelName remaining' (S attempt) e in
          (res, (modelName, attempt) :: made)
      end
  end.

Definition executeWithRetry (r : ModelRouter) (modelName : string)
  : Result BackendResponse * ModelRouter :=
  let (res, made) := attempts modelName (maxRetries (config r)) 1 "undefined" in
  (res, mkRouter (config r) (models r) (zai r) (metrics r) (requestTimes r)
                 (backendCalls r ++ made)).

(** [generateResponse]; [startTime] and [endTime] are the two clock
    readings of the call. *)
Definition generateResponse (r : ModelRouter) (request : ModelRequest)
           (startTime endTime : Z) : Result ModelResponse * ModelRouter :=
  if negb (zai r) then (Throw "ModelRouter not initialized", r)
  else
    match checkRateLimit r startTime with
    | (Throw e, r1) => (Throw e, count_error r1)
    | (Ok _, r1) =>
        match selectModel r1 request with
        | None => (Throw "Model not found: undefined", count_error r1)
        | Some modelName =>
            match JSMap.get modelName (models r1) with
            | None => (Throw ("Model not found: " ++ modelName), count_error r1)
            | Some _ =>
                match executeWithRetry r1 modelName with
                | (Throw e, r2) => (Throw e, count_error r2)
                | (Ok z, r2) =>
                    match updateMetrics r2 z (endTime - startTime) with
                    | (Throw e, r3) => (Throw e, count_error r3)
                    | (Ok _, r3) => (Ok (transformResponse z modelName), r3)
                    end
                end
            end
        end
    end.

(** An admitted request is found, with its time, among the request times
    of the model that served it. *)
Definition counted_against_selected (r : ModelRouter) (request : ModelRequest)
           (startTime endTime : Z) : Prop :=
  forall resp r',
    generateResponse r request startTime endTime = (Ok resp, r') ->
    exists times, JSMap.get (model resp) (requestTimes r') = Some times
                  /\ In startTime times.
End WithBackend.

(** The request times after the cleaning loop of [checkRateLimit], and the
    test of its second loop. *)
Definition cleaned (r : ModelRouter) (now : Z) : JSMap.t (list Z) :=
  map (fun kv => (fst kv, in_window r now (snd kv))) (requestTimes r).

Definition at_limit (r : ModelRouter) (now : Z) (times : list Z) : Prop :=
  (Z.of_nat (List.length (in_window r now times))
   >= rateLimit_requests (config r))%Z.

(** Every model is under the limit at [now]: the call is admitted. *)
Definition admitted (r : ModelRouter) (now : Z) : Prop :=
  forall m times, In (m, times) (requestTimes r) -> ~ at_limit r now times.

(** The price registered for model [n]. *)
Definition price_of (r : ModelRouter) (n : string) : option float :=
  match JSMap.get n (models r) with
  | Some m => costPerToken m
  | None => None
  end.

(** A cost budget is configured (and is not 0 or NaN), and the running cost
    plus the estimated cost of the request on model [n] exceeds it. *)
Definition over_budget (r : ModelRouter) (request : ModelRequest) (n : string)
  : bool :=
  match costBudget (config r) with
  | Some budget =>
      truthy budget
      && gt (projected_cost r (estimateTokenCount request) (price_of r n)) budget
  | None => false
  end.

(** The running cost plus the estimated cost of the request on the model
    stays within the configured budget. *)
Definition affordable (r : ModelRouter) (request : ModelRequest)
           (kv : string * ModelConfig) : bool :=
  match costBudget (config r) with
  | Some budget =>
      le (projected_cost r (estimateTokenCount request) (costPerToken (snd kv))) budget
  | None => false
  end.

(** A two-model router for closed examples: the default model is small and
    free, the other is large and costs one unit per token. *)
Definition small : ModelConfig := mkModel "small" true 1 true None.
Definition big : ModelConfig := mkModel "big" true 100 true (Some PrimFloat.one).

Definition sample_router (budget : option float) : ModelRouter :=
  mkRouter (mkConfig "small" [] 30000 3 budget 60 60000)
           [("small", small); ("big", big)]
           true
           (mkModelMetrics 0 PrimFloat.zero PrimFloat.zero [] 0)
           []
           [].

Definition long_request : ModelRequest :=
  mkRequest [mkMessage "user" (units "twelve chars")] None false.

Definition echo_backend (m : string) (attempt : nat) : Result BackendResponse :=
  Ok (mkBackendResponse "ok" (Some (mkUsage PrimFloat.zero PrimFloat.zero)) (Some m)).

(** A backend whose every call fails, and one that answers without a
    [usage] object. *)
Definition failing_backend (m : string) (attempt : nat) : Result BackendResponse :=
  Throw "503 Service Unavailable".

Definition bare_backend (m : string) (attempt : nat) : Result BackendResponse :=
  Ok (mkBackendResponse "ok" None (Some m)).

End Router.

(* ================================================================== *)
(** ** MemoryManager (memory/MemoryManager.ts): the eviction sweep *)

Module Memory.

(** The stored records, reduced to the fields the sweep reads. *)
Record TaskMemory := mkTaskMemory {
  taskId : string;
  createdAt : Z;
  updatedAt : Z                      (* updatedAt.getTime() *)
}.

Record RepoMemory := mkRepoMemory {
  repoId : string;
  lastUpdated : Z
}.

Record MemoryEntry := mkEntry {
  entry_timestamp : Z;
  ttl : option Z
}.

Record VectorStoreEntry := mkVectorEntry {
  vector_timestamp : Z
}.

Record MemoryConfig := mkMemoryConfig {
  maxTaskMemory : nat;
  maxRepoMemory : nat;
  cacheTTL : Z;
  enableVectorStore : bool
}.

Record MemoryManager := mkMemory {
  config : MemoryConfig;
  memory : JSMap.t MemoryEntry;
  taskMemories : JSMap.t TaskMemory;
  repoMemories : JSMap.t RepoMemory;
  vectorStore : JSMap.t VectorStoreEntry
}.

Section Sweep.
Variable V : Type.
Variable time : V -> Z.

(** [Array.prototype.sort] with the comparator [a.time - b.time]: a stable
    sort, ascending by time. *)
Fixpoint insert_by_time (x : string * V) (l : list (string * V))
  : list (string * V) :=
  match l with
  | [] => [x]
  | y :: l' =>
      if (time (snd x) <=? time (snd y))%Z then x :: y :: l'
      else y :: insert_by_time x l'
  end.

Fixpoint sort_by_time (l : list (string * V)) : list (string * V) :=
  match l with
  | [] => []
  | x :: l' => insert_by_time x (sort_by_time l')
  end.

Definition delete_all (toRemove : list (string * V)) (m : JSMap.t V) : JSMap.t V :=
  fold_left (fun acc kv => JSMap.delete (fst kv) acc) toRemove m.

(** One capacity branch of the sweep: when the map holds more than [max]
    entries, delete the [size - max] first entries of the sorted array. *)
Definition evict_oldest (max : nat) (m : JSMap.t V) : JSMap.t V :=
  if Nat.ltb max (JSMap.size m) then
    let entries := sort_by_time m in
    let toRemove := firstn (List.length entries - max) entries in
    delete_all toRemove m
  else m.
End Sweep.

(** [entry.ttl && now - entry.timestamp > entry.ttl]. *)
Definition expired (now : Z) (e : MemoryEntry) : bool :=
  match ttl e with
  | Some t => negb (Z.eqb t 0) && (now - entry_timestamp e >? t)%Z
  | None => false
  end.

Definition cleanupExpiredEntries (m : MemoryManager) (now : Z) : MemoryManager :=
  mkMemory (config m)
    (filter (fun kv => negb (expired now (snd kv))) (memory m))
    (evict_oldest updatedAt (maxTaskMemory (config m)) (taskMemories m))
    (evict_oldest lastUpdated (maxRepoMemory (config m)) (repoMemories m))
    (if enableVectorStore (config m) then
       filter (fun kv => negb (now - vector_timestamp (snd kv) >? cacheTTL (config m))%Z)
              (vectorStore m)
     else vectorStore m).

(** The task-memory keys are pairwise distinct (it is a [Map]) and no two
    memories were last updated at the same time. *)
Definition distinct_keys (V : Type) (m : JSMap.t V) : Prop := NoDup (JSMap.keys m).

Definition distinct_update_times (m : JSMap.t TaskMemory) : Prop :=
  NoDup (map (fun kv => updatedAt (snd kv)) m).

(** Three task memories under a ceiling of two. *)
Definition sample_memory : MemoryManager :=
  mkMemory (mkMemoryConfig 2 1000 3600000 false)
    []
    [ ("a", mkTaskMemory "a" 10 50);
      ("b", mkTaskMemory "b" 20 30);
      ("c", mkTaskMemory "c" 30 40) ]
    []
    [].

End Memory.

(* ================================================================== *)
(** ** Orchestrator (orchestrator/Orchestrator.ts) *)

Module Orch.

(** The events the orchestrator emits about a task; the listeners are
    handed the task record that was just stored. *)
Inductive EventName :=
| task_submitted | task_started | task_completed | task_failed | task_cancelled.

Record Emitted := mkEmitted {
  event : EventName;
  payload : Task
}.

Definition EventName_eqb (a b : EventName) : bool :=
  match a, b with
  | task_submitted, task_submitted | task_started, task_started
  | task_completed, task_completed | task_failed, task_failed
  | task_cancelled, task_cancelled => true
  | _, _ => false
  end.

(** [suspended] holds the [executeTask] calls that wait for
    [executeWithRetry] to settle: the task id and the [task] object the call
    read on entry, which its continuation spreads into the final record.
    What the agent does in between is left to the environment, which decides
    whether the call settles with a result or with an error.  [emitted] is
    the history of [emit] calls, oldest first. *)
Record Orchestrator := mkOrch {
  tasks : JSMap.t Task;
  runningTasks : list string;                (* a Set, in insertion order *)
  suspended : list (string * Task);
  maxConcurrentTasks : nat;
  emitted : list Emitted
}.

(** A new orchestrator with [maxConcurrentTasks = k]. *)
Definition new (k : nat) : Orchestrator := mkOrch [] [] [] k [].

Definition mem (x : string) (l : list string) : bool := existsb (String.eqb x) l.

(** [Set.prototype.add] and [Set.prototype.delete]. *)
Definition set_add (x : string) (l : list string) : list string :=
  if mem x l then l else l ++ [x].

Definition set_delete (x : string) (l : list string) : list string :=
  filter (fun y => negb (String.eqb x y)) l.

Definition status_is (s : TaskStatus) (t : Task) : bool := TaskStatus_eqb (status t) s.

(** The dependency test of [processNextTask]. *)
Definition dependenciesMet (o : Orchestrator) (task : Task) : bool :=
  match dependencies task with
  | None => true
  | Some deps =>
      forallb (fun depId =>
                 match JSMap.get depId (tasks o) with
                 | Some depTask => status_is completed depTask
                 | None => false
                 end)
              deps
  end.

(** The test [processNextTask] makes on an entry of the task table:
    pending, not running, all dependencies completed. *)
Definition eligible (o : Orchestrator) (kv : string * Task) : bool :=
  status_is pending (snd kv)
  && negb (mem (fst kv) (runningTasks o))
  && dependenciesMet o (snd kv).

Definition pending_count (o : Orchestrator) : nat :=
  List.length (filter (fun kv => status_is pending (snd kv)) (tasks o)).

(** [this.tasks.set(taskId, t)] and [this.runningTasks.delete(taskId)]. *)
Definition store (o : Orchestrator) (taskId : string) (t : Task) : Orchestrator :=
  mkOrch (JSMap.set taskId t (tasks o)) (runningTasks o) (suspended o)
         (maxConcurrentTasks o) (emitted o).

Definition release (o : Orchestrator) (taskId : string) : Orchestrator :=
  mkOrch (tasks o) (set_delete taskId (runningTasks o)) (suspended o)
         (maxConcurrentTasks o) (emitted o).

Section WithListeners.
(** The orchestrator is an [EventEmitter]: [emit] calls the listeners of the
    event one after the other, on the spot, and an exception of a listener
    leaves [emit].  [listener history e] tells whether the listeners of [e]
    return ([None]) or one of them throws ([Some message]), given the
    events emitted before.  Listeners watch: they do not call back into the
    orchestrator. *)
Variable listener : list Emitted -> Emitted -> option string.

Definition emit (o : Orchestrator) (name : EventName) (t : Task)
  : option string * Orchestrator :=
  (listener (emitted o) (mkEmitted name t),
   mkOrch (tasks o) (runningTasks o) (suspended o) (maxConcurrentTasks o)
          (emitted o ++ [mkEmitted name t])).

(** The [catch] block of [executeTask]: the failed record is built from the
    [task] read on entry.  An exception of a task:failed listener leaves the
    call after [finally] and is logged by the caller. *)
Definition executeTask_catch (o : Orchestrator) (taskId : string) (task : Task)
  : Orchestrator :=
  let failedTask := with_status_result task failed in
  snd (emit (store o taskId failedTask) task_failed failedTask).

(** [executeTask] up to [await this.executeWithRetry(taskId)]: the guard
    against a second run, the slot, the in_progress record, task:started.
    A missing task makes the call reject, which its callers only log.  When
    a task:started listener throws, the [catch] and [finally] blocks run
    before the call returns; [next] is the [processNextTask] call of
    [finally]. *)
Definition executeTask (next : Orchestrator -> Orchestrator)
           (o : Orchestrator) (taskId : string) : Orchestrator :=
  match JSMap.get taskId (tasks o) with
  | None => o
  | Some task =>
      if mem taskId (runningTasks o) then o
      else
        let updatedTask := with_status task in_progress in
        let o1 := mkOrch (JSMap.set taskId updatedTask (tasks o))
                         (set_add taskId (runningTasks o))
                         (suspended o) (maxConcurrentTasks o) (emitted o) in
        match emit o1 task_started updatedTask with
        | (None, o2) =>
            mkOrch (tasks o2) (runningTasks o2) (suspended o2 ++ [(taskId, task)])
                   (maxConcurrentTasks o2) (emitted o2)
        | (Some _, o2) => next (release (executeTask_catch o2 taskId task) taskId)
        end
  end.

(** [processNextTask] calls [executeTask], whose [finally] block calls
    [processNextTask] again when the start fails; every such round turns a
    pending task into a failed one, so the number of pending tasks bounds
    the depth of the calls. *)
Fixpoint processNextTask_from (depth : nat) (o : Orchestrator) : Orchestrator :=
  match depth with
  | O => o
  | S depth' =>
      if Nat.leb (maxConcurrentTasks o) (List.length (runningTasks o)) then o
      else
        match find (eligible o) (tasks o) with
        | Some (taskId, _) => executeTask (processNextTask_from depth') o taskId
        | None => o
        end
  end.

Definition processNextTask (o : Orchestrator) : Orchestrator :=
  processNextTask_from (S (pending_count o)) o.

(** The rest of the [try] and the [catch] block of [executeTask], once
    [executeWithRetry] has resolved ([succeeded = true]) or thrown.  A
    throwing task:completed listener is caught like an error of the work:
    the failed record replaces the completed one. *)
Definition executeTask_end (o : Orchestrator) (taskId : string) (task : Task)
           (succeeded : bool) : Orchestrator :=
  if succeeded then
    let completedTask := with_status_result (with_status task in_progress) completed in
    match emit (store o taskId completedTask) task_completed completedTask with
    | (None, o1) => o1
    | (Some _, o1) => executeTask_catch o1 taskId task
    end
  else executeTask_catch o taskId task.

(** The suspended call resumes and runs up to the [processNextTask] call of
    [finally]. *)
Definition executeTask_resume (o : Orchestrator) (taskId : string) (task : Task)
           (succeeded : bool) : Orchestrator :=
  let resumed := mkOrch (tasks o) (runningTasks o)
                        (JSMap.delete taskId (suspended o))
                        (maxConcurrentTasks o) (emitted o) in
  release (executeTask_end resumed taskId task succeeded) taskId.

(** The work of [taskId] ends.  There is nothing to resume when no call is
    suspended on [taskId]. *)
Definition executeTask_settle (o : Orchestrator) (taskId : string) (succeeded : bool)
  : Orchestrator :=
  match JSMap.get taskId (suspended o) with
  | None => o
  | Some task => processNextTask (executeTask_resume o taskId task succeeded)
  end.

Definition submitTask (o : Orchestrator) (task : Task) : Result string * Orchestrator :=
  if String.eqb (description task) "" || String.eqb (type_ task) "" then
    (Throw "Task must have description and type", o)
  else
    match emit (store o (id task) task) task_submitted task with
    | (Some e, o1) => (Throw e, o1)
    | (None, o1) =>
        if Nat.ltb (List.length (runningTasks o1)) (maxConcurrentTasks o1)
        then (Ok (id task), executeTask processNextTask o1 (id task))
        else (Ok (id task), o1)
    end.

Definition cancelTask (o : Orchestrator) (taskId : string) : Result bool * Orchestrator :=
  match JSMap.get taskId (tasks o) with
  | None => (Ok false, o)
  | Some task =>
      if status_is in_progress task then (Ok false, o)
      else
        let cancelledTask := with_status task cancelled in
        match emit (store o taskId cancelledTask) task_cancelled cancelledTask with
        | (Some e, o1) => (Throw e, o1)
        | (None, o1) => (Ok true, o1)
        end
  end.

(** What can happen to an orchestrator: a caller submits or cancels, or the
    work of a running task ends. *)
Inductive Event :=
| Submit (task : Task)
| Settle (taskId : string) (succeeded : bool)
| Cancel (taskId : string).

Definition step (o : Orchestrator) (e : Event) : Orchestrator :=
  match e with
  | Submit task => snd (submitTask o task)
  | Settle taskId succeeded => executeTask_settle o taskId succeeded
  | Cancel taskId => snd (cancelTask o taskId)
  end.

Definition run (k : nat) (events : list Event) : Orchestrator :=
  fold_left step events (new k).



(** The listeners of event [name] never throw. *)
Definition returns (name : EventName) : Prop :=
  forall history t, listener history (mkEmitted name t) = None.

End WithListeners.

(** Listeners that return, as the logging listeners of [setupEventHandlers]
    do, and listeners of which one throws on event [name]. *)
Definition quiet : list Emitted -> Emitted -> option string := fun _ _ => None.

Definition rejects (name : EventName) : list Emitted -> Emitted -> option string :=
  fun _ e => if EventName_eqb (event e) name then Some "listener failed" else None.

Definition status_of (o : Orchestrator) (taskId : string) : option TaskStatus :=
  option_map status (JSMap.get taskId (tasks o)).

Definition in_progress_count (o : Orchestrator) : nat :=
  List.length (filter (fun kv => status_is in_progress (snd kv)) (tasks o)).

(** Every submitted task carries status pending, as [createTask] builds
    it. *)
Definition submits_pending (e : Event) : bool :=
  match e with
  | Submit task => status_is pending task
  | _ => true
  end.


(** The task table has distinct keys, the running set has distinct
    members and fits under the ceiling, and every task recorded as
    in_progress holds a slot. *)
Record slots_ok (o : Orchestrator) : Prop := {
  keys_distinct : NoDup (JSMap.keys (tasks o));
  running_distinct : NoDup (runningTasks o);
  running_bounded : List.length (runningTasks o) <= maxConcurrentTasks o;
  in_progress_running :
    forall taskId (t : Task), JSMap.get taskId (tasks o) = Some t ->
                     status t = in_progress -> In taskId (runningTasks o)
}.


Definition task (i : string) (s : TaskStatus) (deps : option (list string)) : Task :=
  mkTask i "add input validation" "code-generation" s deps false.

End Orch.

(* ================================================================== *)
(** ** ModelRouter: retries, batches, streaming, health, recommendations *)

Module RouterOps.

Section Chunks.
Variable A : Type.

(** [chunkArray]: the loop [for (i = 0; i < array.length; i += size)]
    pushes [array.slice(i, i + size)].  [rest] holds the elements from index
    [i] on; [fuel] bounds the number of iterations. *)
Fixpoint chunk_loop (fuel size : nat) (rest : list A) : list (list A) :=
  match fuel with
  | O => []
  | S fuel' =>
      match rest with
      | [] => []
      | _ :: _ => firstn size rest :: chunk_loop fuel' size (skipn size rest)
      end
  end.

Definition chunkArray (array : list A) (size : nat) : list (list A) :=
  chunk_loop (List.length array) size array.
End Chunks.

(** [Math.min(1000 * Math.pow(2, attempt - 1), 10000)]. *)
Definition backoff_delay (attempt : nat) : Z :=
  Z.min (1000 * 2 ^ (Z.of_nat attempt - 1)) 10000.

Section WithBackend.
Variable backend : string -> nat -> Result Router.BackendResponse.

(** The delays [executeWithRetry] sleeps, in order: after a failed attempt
    that is not the last one allowed.  The recursion is that of
    [Router.attempts]. *)
Fixpoint waits (modelName : string) (maxRetries remaining attempt : nat) : list Z :=
  match remaining with
  | O => []
  | S remaining' =>
      match backend modelName attempt with
      | Ok _ => []
      | Throw _ =>
          (if Nat.ltb attempt maxRetries then [backoff_delay attempt] else [])
          ++ waits modelName maxRetries remaining' (S attempt)
      end
  end.

Definition executeWithRetry_waits (r : Router.ModelRouter) (modelName : string) : list Z :=
  waits modelName (Router.maxRetries (Router.config r))
        (Router.maxRetries (Router.config r)) 1.

(** The probe of [checkModelHealth]; its [model] field is read by no
    method of the router. *)
Definition testRequest : Router.ModelRequest :=
  Router.mkRequest [Router.mkMessage "user" (Router.units "Hello")] (Some 10%Z) false.

Record Health := mkHealth {
  healthy : bool;
  health_latency : Z;
  health_error : option string
}.

(** [checkModelHealth]; [startTime] and [endTime] are its own clock
    readings, [t0] and [t1] those of the [generateResponse] call inside. *)
Definition checkModelHealth (r : Router.ModelRouter) (modelName : string)
           (startTime t0 t1 endTime : Z) : Health * Router.ModelRouter :=
  if negb (JSMap.has modelName (Router.models r)) then
    (mkHealth false 0 (Some "Model not registered"), r)
  else
    match Router.generateResponse backend r testRequest t0 t1 with
    | (Ok _, r') => (mkHealth true (endTime - startTime) None, r')
    | (Throw e, r') => (mkHealth false (endTime - startTime) (Some e), r')
    end.
End WithBackend.

Definition streaming_not_supported (selected : option string) : string :=
  "Streaming not supported for model: "
  ++ match selected with Some n => n | None => "undefined" end.

(** [transformStream]: the [choices[0].delta.content] of each chunk
    ([None] when absent), yielded when truthy. *)
Definition transformStream (chunks : list (option string)) : list string :=
  flat_map (fun c => match c with
                     | Some s => if String.eqb s "" then [] else [s]
                     | None => []
                     end)
           chunks.

Section WithStream.
(** The backend's answer to a streaming call on a model: the chunks of the
    stream, or an error. *)
Variable stream_backend : string -> Result (list (option string)).

Definition generateStreamingResponse (r : Router.ModelRouter)
           (request : Router.ModelRequest) : Result (list string) * Router.ModelRouter :=
  if negb (Router.zai r) then (Throw "ModelRouter not initialized", r)
  else
    let selected := Router.selectModel r request in
    let model :=
      match selected with
      | Some n => JSMap.get n (Router.models r)
      | None => None
      end in
    match selected, model with
    | Some modelName, Some m =>
        if negb (Router.supportsStreaming m) then
          (Throw (streaming_not_supported selected), r)
        else
          let r' := Router.mkRouter (Router.config r) (Router.models r) (Router.zai r)
                                    (Router.metrics r) (Router.requestTimes r)
                                    (Router.backendCalls r ++ [(modelName, 1)]) in
          match stream_backend modelName with
          | Ok chunks => (Ok (transformStream chunks), r')
          | Throw e => (Throw e, r')
          end
    | _, _ => (Throw (streaming_not_supported selected), r)
    end.
End WithStream.

(** The rational a finite double stands for (0 for NaN and the
    infinities). *)
Definition exact (x : Router.float) : Q :=
  match FloatOps.Prim2SF x with
  | SpecFloat.S754_finite s m e =>
      let q := (inject_Z (Zpos m) * Qpower 2 e)%Q in
      if s then (- q)%Q else q
  | _ => 0%Q
  end.

(** [model.costPerToken || 0], as the rational it stands for. *)
Definition price (m : Router.ModelConfig) : Q :=
  exact (Router.cost_or_zero (Router.costPerToken m)).

(** [model.costPerToken || 0] is a finite number, of which [price] is then
    the value. *)
Definition finite_price (m : Router.ModelConfig) : bool :=
  match FloatOps.Prim2SF (Router.cost_or_zero (Router.costPerToken m)) with
  | SpecFloat.S754_zero _ | SpecFloat.S754_finite _ _ _ => true
  | _ => false
  end.

(** [calculateModelScore], on the exact values of the numbers. *)
Definition calculateModelScore (m : Router.ModelConfig) (request : Router.ModelRequest)
           (estimatedTokens : Z) : Q :=
  let s1 := if (estimatedTokens >? Router.maxTokens m)%Z then (100 - 50)%Q else 100%Q in
  let cost := (inject_Z estimatedTokens * price m)%Q in
  let s2 := (s1 - Qmin (cost * 1000) 20)%Q in
  let s3 := if Router.stream request && Router.supportsStreaming m
            then (s2 + 10)%Q else s2 in
  let s4 := if Router.oss m then (s3 + 5)%Q else s3 in
  Qmax 0 s4.

(** [estimateLatency]. *)
Definition estimateLatency (m : Router.ModelConfig) (estimatedTokens : Z) : Z :=
  ((if Router.oss m then 1000 else 500) + estimatedTokens * 10)%Z.

(** [getScoreReasons]. *)
Definition getScoreReasons (m : Router.ModelConfig) (request : Router.ModelRequest)
           (estimatedTokens : Z) : list string :=
  (if (estimatedTokens >? Router.maxTokens m)%Z then ["Insufficient token limit"] else [])
  ++ (if Router.stream request && Router.supportsStreaming m
      then ["Supports streaming"] else [])
  ++ (if Router.oss m then ["Open source model"] else [])
  ++ (match Router.costPerToken m with
      | Some c => if Router.truthy c
                     && PrimFloat.ltb c (PrimFloat.div (Router.of_Z 2)
                                                       (Router.of_Z 10000))
                  then ["Low cost"] else []
      | None => []
      end).

Record ModelRecommendation := mkRecommendation {
  rec_model : string;
  score : Q;
  reasons : list string;
  estimatedCost : Q;
  estimatedLatency : Z
}.

(** [Array.prototype.sort] with the comparator [b.score - a.score]: a
    stable sort, descending by score. *)
Fixpoint insert_by_score (x : ModelRecommendation) (l : list ModelRecommendation)
  : list ModelRecommendation :=
  match l with
  | [] => [x]
  | y :: l' =>
      if Qle_bool (score y) (score x) then x :: y :: l'
      else y :: insert_by_score x l'
  end.

Fixpoint sort_by_score (l : list ModelRecommendation) : list ModelRecommendation :=
  match l with
  | [] => []
  | x :: l' => insert_by_score x (sort_by_score l')
  end.

(** [getModelRecommendations]. *)
Definition getModelRecommendations (r : Router.ModelRouter)
           (request : Router.ModelRequest) : list ModelRecommendation :=
  let estimatedTokens := Router.estimateTokenCount request in
  sort_by_score
    (map (fun kv =>
            mkRecommendation
              (fst kv)
              (calculateModelScore (snd kv) request estimatedTokens)
              (getScoreReasons (snd kv) request estimatedTokens)
              (inject_Z estimatedTokens * price (snd kv))%Q
              (estimateLatency (snd kv) estimatedTokens))
         (Router.models r)).

(** Recommendation [a] scores at least as high as [b]. *)
Definition score_ge (a b : ModelRecommendation) : Prop := (score b <= score a)%Q.

End RouterOps.

(* ================================================================== *)
(** ** Orchestrator: agent selection, retries, shutdown *)

Module OrchOps.

(** [agentTypeMap[task.type]], where it yields an agent id. *)
Definition agentTypeMap (taskType : string) : option string :=
  if String.eqb taskType "code-generation" then Some "coder"
  else if String.eqb taskType "testing" then Some "tester"
  else if String.eqb taskType "packaging" then Some "packager"
  else if String.eqb taskType "security" then Some "security"
  else if String.eqb taskType "rtl" then Some "coder"
  else if String.eqb taskType "documentation" then Some "dx-writer"
  else None.

(** [selectAgent]: [None] stands for [null]. *)
Definition selectAgent (A : Type) (agents : JSMap.t A) (task : Task) : option A :=
  match agentTypeMap (type_ task) with
  | Some agentId => JSMap.get agentId agents
  | None => None
  end.

(** The ids under which [registerDefaultAgents] stores the eight agents. *)
Definition defaultAgentIds : list string :=
  ["planner"; "researcher"; "coder"; "tester"; "packager"; "reviewer";
   "security"; "dx-writer"].

Record RetryConfig := mkRetryConfig {
  enableRetry : bool;
  maxRetries : nat;
  retryDelay : Z                    (* milliseconds *)
}.

(** [this.config.enableRetry ? this.config.maxRetries : 1]. *)
Definition attempt_limit (c : RetryConfig) : nat :=
  if enableRetry c then maxRetries c else 1.

(** What one [executeWithRetry] call did: its outcome, the number of
    attempts it made and the delays it slept, in order. *)
Record RetryRun (R : Type) := mkRetryRun {
  outcome : Result R;
  attempts_made : nat;
  waited : list Z
}.

Section WithLogic.
Variable R : Type.
(** The outcome of the race between [executeTaskLogic] and the timeout, by
    attempt number. *)
Variable logic : nat -> Result R.
Variable c : RetryConfig.

Fixpoint retry_from (remaining attempt : nat) (lastError : string) : RetryRun R :=
  match remaining with
  | O => mkRetryRun (Throw lastError) 0 []
  | S remaining' =>
      match logic attempt with
      | Ok result => mkRetryRun (Ok result) 1 []
      | Throw e =>
          let rest := retry_from remaining' (S attempt) e in
          mkRetryRun (outcome rest) (S (attempts_made rest))
                     ((if Nat.ltb attempt (attempt_limit c)
                       then [(retryDelay c * Z.of_nat attempt)%Z] else [])
                      ++ waited rest)
      end
  end.

(** [executeWithRetry]: attempts 1, 2, ... up to the limit. *)
Definition executeWithRetry : RetryRun R :=
  retry_from (attempt_limit c) 1 "undefined".
End WithLogic.



(** The task table has distinct keys, and the slots taken are those of the
    [executeTask] calls in flight, each once, within the ceiling. *)
Record slots_exact (o : Orch.Orchestrator) : Prop := {
  slots_table : NoDup (JSMap.keys (Orch.tasks o));
  slots_are_frames : Orch.runningTasks o = JSMap.keys (Orch.suspended o);
  slots_distinct : NoDup (Orch.runningTasks o);
  slots_bounded : List.length (Orch.runningTasks o) <= Orch.maxConcurrentTasks o
}.

(** The orchestrator once [executeTask] has started [taskId], read as [task]
    on entry, and waits for its work. *)
Definition started (o : Orch.Orchestrator) (taskId : string) (task : Task)
  : Orch.Orchestrator :=
  Orch.mkOrch (JSMap.set taskId (with_status task in_progress) (Orch.tasks o))
              (Orch.runningTasks o ++ [taskId])
              (Orch.suspended o ++ [(taskId, task)])
              (Orch.maxConcurrentTasks o)
              (Orch.emitted o
               ++ [Orch.mkEmitted Orch.task_started (with_status task in_progress)]).

(** The orchestrator when [finally] calls [processNextTask] after a start
    that a task:started listener made fail: the task is recorded failed and
    holds no slot. *)
Definition abandoned (o : Orch.Orchestrator) (taskId : string) (task : Task)
  : Orch.Orchestrator :=
  Orch.mkOrch (JSMap.set taskId (with_status_result task failed) (Orch.tasks o))
              (Orch.runningTasks o)
              (Orch.suspended o)
              (Orch.maxConcurrentTasks o)
              (Orch.emitted o
               ++ [Orch.mkEmitted Orch.task_started (with_status task in_progress);
                   Orch.mkEmitted Orch.task_failed (with_status_result task failed)]).

(** The status [executeTask] leaves to the task read as [task] on entry once
    its work has ended: completed when the work succeeded and the
    task:completed listeners return, failed otherwise. *)
Definition final_status (listener : list Orch.Emitted -> Orch.Emitted -> option string)
           (o : Orch.Orchestrator) (task : Task) (succeeded : bool) : TaskStatus :=
  if succeeded then
    match listener (Orch.emitted o)
                   (Orch.mkEmitted Orch.task_completed
                      (with_status_result (with_status task in_progress) completed)) with
    | None => completed
    | Some _ => failed
    end
  else failed.


End OrchOps.

(* ================================================================== *)
(** ** MemoryManager: task memories and the generic store *)

Module MemoryOps.

Definition set_taskMemories (m : Memory.MemoryManager)
           (tm : JSMap.t Memory.TaskMemory) : Memory.MemoryManager :=
  Memory.mkMemory (Memory.config m) (Memory.memory m) tm
                  (Memory.repoMemories m) (Memory.vectorStore m).

(** [createTaskMemory]: a new record under [taskId], created and updated
    [now]. *)
Definition createTaskMemory (m : Memory.MemoryManager) (taskId : string) (now : Z)
  : Memory.MemoryManager :=
  set_taskMemories m
    (JSMap.set taskId (Memory.mkTaskMemory taskId now now) (Memory.taskMemories m)).

Definition not_found_message (taskId : string) : string :=
  "Task memory not found: " ++ taskId.

(** [getTaskMemory], [updateTaskContext], [addTaskStep], [storeTaskResult]
    and [addAuditEntry], as far as the reduced record shows them: each
    throws when no memory is stored under [taskId], and otherwise sets
    [updatedAt] on the stored record. *)
Definition touchTaskMemory (m : Memory.MemoryManager) (taskId : string) (now : Z)
  : Result unit * Memory.MemoryManager :=
  match JSMap.get taskId (Memory.taskMemories m) with
  | None => (Throw (not_found_message taskId), m)
  | Some tm =>
      (Ok tt,
       set_taskMemories m
         (JSMap.set taskId
            (Memory.mkTaskMemory (Memory.taskId tm) (Memory.createdAt tm) now)
            (Memory.taskMemories m)))
  end.

(** The order of the sorted arrays of the sweep: ascending by time. *)
Definition older_first (V : Type) (time : V -> Z) (a b : string * V) : Prop :=
  (time (snd a) <= time (snd b))%Z.

End MemoryOps.

Module Cache.

Inductive EntryType := type_task | type_repo | type_tool | type_result.

Definition type_name (ty : EntryType) : string :=
  match ty with
  | type_task => "task"
  | type_repo => "repo"
  | type_tool => "tool"
  | type_result => "result"
  end.

(** The map key of an entry, [`${type}-${key}`]. *)
Definition entry_id (ty : EntryType) (key : string) : string :=
  type_name ty ++ "-" ++ key.

Section WithValue.
Variable V : Type.

(** A [MemoryEntry] with its payload. *)
Record Entry := mkEntry {
  entry_type : EntryType;
  entry_key : string;
  value : V;
  timestamp : Z;
  ttl : option Z;
  accessCount : nat;
  lastAccessed : Z
}.

(** The fields of an entry that decide its expiry. *)
Definition reduce (e : Entry) : Memory.MemoryEntry :=
  Memory.mkEntry (timestamp e) (ttl e).

Definition Store := JSMap.t Entry.

(** [store]. *)
Definition store (s : Store) (key : string) (v : V) (ty : EntryType)
           (ttl' : option Z) (now : Z) : Store :=
  JSMap.set (entry_id ty key) (mkEntry ty key v now ttl' 0 now) s.

(** [retrieve]: [None] stands for [null]. *)
Definition retrieve (s : Store) (key : string) (ty : EntryType) (now : Z)
  : option V * Store :=
  let entryId := entry_id ty key in
  match JSMap.get entryId s with
  | None => (None, s)
  | Some e =>
      if Memory.expired now (reduce e) then (None, JSMap.delete entryId s)
      else
        (Some (value e),
         JSMap.set entryId
           (mkEntry (entry_type e) (entry_key e) (value e) (timestamp e) (ttl e)
                    (S (accessCount e)) now)
           s)
  end.

(** The generic-entry loop of [cleanupExpiredEntries], on entries with
    their payload. *)
Definition sweep (s : Store) (now : Z) : Store :=
  filter (fun kv => negb (Memory.expired now (reduce (snd kv)))) s.
End WithValue.

End Cache.

(** An agent for closed examples whose [onInitialize] rejects the first
    time it runs and whose [onShutdown] always rejects. *)
Module AgentOps.

Definition flaky_hooks : Agent.Hooks unit unit :=
  Agent.mkHooks
    (fun calls => match calls with
                  | [] => Some "model router unavailable"
                  | _ => None
                  end)
    (fun _ _ _ => Ok tt)
    (fun _ => Some "temporary files in use").

End AgentOps.

(* ================================================================== *)
(** ** AgentFactory (agents/AgentFactory.ts) *)

Module Factory.

Record AgentConfig := mkAgentConfig {
  config_id : string;
  config_name : string;
  config_type : string
}.

(** The agent types [createAgent] has a class for. *)
Definition known_types : list string :=
  ["planner"; "researcher"; "coder"; "tester"; "packager"; "reviewer";
   "security"; "dx-writer"].

Section WithClasses.
Variables TaskResult TaskContext : Type.
(** The hooks of the class [createAgent] instantiates for an agent type. *)
Variable class_of : string -> Agent.Hooks TaskResult TaskContext.

(** [createAgent]; [initialized] tells whether [initialize] has handed the
    factory its model router and tool registry. *)
Definition createAgent (initialized : bool) (config : AgentConfig)
  : Result Agent.BaseAgent :=
  if negb initialized then Throw "AgentFactory not initialized"
  else if negb (existsb (String.eqb (config_type config)) known_types) then
    Throw ("Unknown agent type: " ++ config_type config)
  else
    match Agent.initialize (class_of (config_type config))
                           (Agent.new (config_name config)) with
    | (Ok _, agent) => Ok agent
    | (Throw e, _) => Throw e
    end.
End WithClasses.

End Factory.

(* ================================================================== *)
(** * Properties *)

(** ** Strings and maps *)

Lemma append_assoc (a b c : string) : ((a ++ b) ++ c)%string = (a ++ b ++ c)%string.
Proof. induction a as [|ch a IH]; simpl; [reflexivity | now rewrite IH]. Qed.

Lemma append_empty_r (a : string) : (a ++ "")%string = a.
Proof. induction a as [|ch a IH]; simpl; [reflexivity | now rewrite IH]. Qed.

Lemma mentions_concat (sep e : string) (l : list string) :
  In e l -> Tools.mentions (String.concat sep l) e.
Proof.
  induction l as [|x l IH]; intros Hin; [contradiction|].
  destruct Hin as [-> | Hin].
  - destruct l as [|y l].
    + exists "", "". simpl. now rewrite append_empty_r.
    + exists "", (sep ++ String.concat sep (y :: l))%string. reflexivity.
  - destruct l as [|y l]; [contradiction|].
    destruct (IH Hin) as (pre & post & Heq).
    exists (x ++ sep ++ pre)%string, post.
    change (String.concat sep (x :: y :: l))
      with (x ++ sep ++ String.concat sep (y :: l))%string.
    rewrite Heq. now rewrite !append_assoc.
Qed.

Section MapFacts.
Variable V : Type.
Implicit Types (m : JSMap.t V) (k : string) (v : V).

Lemma get_set_same k v m : JSMap.get k (JSMap.set k v m) = Some v.
Proof.
  induction m as [|[k' v'] m IH]; simpl.
  - now rewrite String.eqb_refl.
  - destruct (String.eqb k k') eqn:E; simpl; rewrite E; [reflexivity | exact IH].
Qed.

Lemma get_set_other k k' v m :
  k <> k' -> JSMap.get k' (JSMap.set k v m) = JSMap.get k' m.
Proof.
  intros Hne. induction m as [|[k0 v0] m IH]; simpl.
  - destruct (String.eqb_spec k' k); [congruence | reflexivity].
  - destruct (String.eqb_spec k k0) as [->|Hk]; simpl.
    + destruct (String.eqb_spec k' k0); [congruence | reflexivity].
    + destruct (String.eqb_spec k' k0); [reflexivity | exact IH].
Qed.

Lemma get_In k v m : JSMap.get k m = Some v -> In (k, v) m.
Proof.
  induction m as [|[k' v'] m IH]; simpl; [discriminate|].
  destruct (String.eqb_spec k k') as [->|Hk]; intros H.
  - injection H as ->. now left.
  - right. now apply IH.
Qed.

Lemma get_In_key k v m : JSMap.get k m = Some v -> In k (JSMap.keys m).
Proof. intros H. apply get_In in H. now apply (in_map fst) in H. Qed.

Lemma get_None_not_In k m : JSMap.get k m = None -> ~ In k (JSMap.keys m).
Proof.
  induction m as [|[k' v'] m IH]; simpl; [tauto|].
  destruct (String.eqb_spec k k') as [->|Hk]; [discriminate|].
  intros H [E|Hin]; [congruence | now apply IH].
Qed.

Lemma In_get_nodup k v m :
  NoDup (JSMap.keys m) -> In (k, v) m -> JSMap.get k m = Some v.
Proof.
  induction m as [|[k' v'] m IH]; simpl; [tauto|].
  intros Hnd [E|Hin].
  - injection E as -> ->. now rewrite String.eqb_refl.
  - inversion Hnd as [|? ? Hnotin Hnd']; subst.
    destruct (String.eqb_spec k k') as [->|Hk].
    + exfalso. apply Hnotin. now apply (in_map fst) in Hin.
    + now apply IH.
Qed.

Lemma keys_set_present k v m :
  In k (JSMap.keys m) -> JSMap.keys (JSMap.set k v m) = JSMap.keys m.
Proof.
  induction m as [|[k' v'] m IH]; simpl; [tauto|].
  destruct (String.eqb_spec k k') as [->|Hk]; [reflexivity|].
  intros [E|Hin]; [congruence|]. simpl. f_equal. now apply IH.
Qed.

Lemma keys_set_absent k v m :
  ~ In k (JSMap.keys m) -> JSMap.keys (JSMap.set k v m) = JSMap.keys m ++ [k].
Proof.
  induction m as [|[k' v'] m IH]; simpl; [reflexivity|].
  intros Hnotin.
  destruct (String.eqb_spec k k') as [->|Hk]; [tauto|].
  simpl. f_equal. apply IH. tauto.
Qed.

Lemma nodup_keys_set k v m :
  NoDup (JSMap.keys m) -> NoDup (JSMap.keys (JSMap.set k v m)).
Proof.
  intros Hnd.
  destruct (in_dec string_dec k (JSMap.keys m)) as [Hin|Hnotin].
  - now rewrite keys_set_present.
  - rewrite keys_set_absent by assumption.
    apply NoDup_app; [assumption | repeat constructor; simpl; tauto |].
    intros x Hx [<-|[]]. tauto.
Qed.

Lemma get_delete_same k m :
  NoDup (JSMap.keys m) -> JSMap.get k (JSMap.delete k m) = None.
Proof.
  induction m as [|[k' v'] m IH]; simpl; [reflexivity|].
  intros Hnd. inversion Hnd as [|? ? Hnotin Hnd']; subst.
  destruct (String.eqb_spec k k') as [->|Hk].
  - destruct (JSMap.get k' m) eqn:E; [|reflexivity].
    exfalso. apply Hnotin. eapply get_In_key; eassumption.
  - simpl. destruct (String.eqb_spec k k'); [congruence | now apply IH].
Qed.

Lemma get_delete_other k k' m :
  k <> k' -> JSMap.get k' (JSMap.delete k m) = JSMap.get k' m.
Proof.
  intros Hne. induction m as [|[k0 v0] m IH]; simpl; [reflexivity|].
  destruct (String.eqb_spec k k0) as [->|Hk]; simpl.
  - destruct (String.eqb_spec k' k0); [congruence | reflexivity].
  - destruct (String.eqb_spec k' k0); [reflexivity | exact IH].
Qed.

Lemma In_delete k0 k v m : In (k, v) (JSMap.delete k0 m) -> In (k, v) m.
Proof.
  induction m as [|[k' v'] m IH]; simpl; [tauto|].
  destruct (String.eqb k0 k'); simpl; [tauto|].
  intros [E|Hin]; [now left | right; now apply IH].
Qed.

Lemma In_delete_nodup k0 k v m :
  NoDup (JSMap.keys m) -> In (k, v) (JSMap.delete k0 m) -> k <> k0.
Proof.
  induction m as [|[k' v'] m IH]; simpl; [tauto|].
  intros Hnd. inversion Hnd as [|? ? Hnotin Hnd']; subst.
  destruct (String.eqb_spec k0 k') as [->|Hne]; simpl.
  - intros Hin ->. apply Hnotin. now apply (in_map fst) in Hin.
  - intros [E|Hin]; [congruence | now apply IH].
Qed.

Lemma nodup_keys_delete k0 m :
  NoDup (JSMap.keys m) -> NoDup (JSMap.keys (JSMap.delete k0 m)).
Proof.
  induction m as [|[k' v'] m IH]; simpl; [constructor|].
  intros Hnd. inversion Hnd as [|? ? Hnotin Hnd']; subst.
  destruct (String.eqb k0 k'); simpl; [assumption|].
  constructor; [|now apply IH].
  intros Hin. apply Hnotin. unfold JSMap.keys in *.
  apply in_map_iff in Hin as ([k v] & <- & Hin). simpl.
  apply In_delete in Hin. now apply (in_map fst) in Hin.
Qed.
End MapFacts.

(* ------------------------------------------------------------------ *)
(** ** BaseAgent *)

Section AgentProperties.
Variables TaskResult TaskContext : Type.
Variable h : Agent.Hooks TaskResult TaskContext.
Implicit Types a : Agent.BaseAgent.

Lemma shutdown_leaves_uninitialized a a' :
  Agent.shutdown h a = (Ok tt, a') ->
  Agent.isInitialized a' = false /\ Agent.name a' = Agent.name a.
Proof.
  unfold Agent.shutdown.
  destruct (Agent.isInitialized a) eqn:Hinit; simpl.
  - destruct (Agent.onShutdown h _); [discriminate|].
    intros H. injection H as <-. split; reflexivity.
  - intros H. injection H as <-. split; [exact Hinit | reflexivity].
Qed.

(** C5 (as the code has it).  [execute] on a new agent throws
    "Agent <name> is not initialized" and invokes nothing; [execute] after
    a [shutdown] that returned throws the very same error: the agent keeps
    one flag, which [shutdown] clears, and has no separate shut-down
    state. *)
Theorem C5_execute_outside_lifecycle_not_initialized :
  forall (n : string) (task : Task) (context : TaskContext),
    Agent.execute h (Agent.new n) task context
    = (Throw (Agent.not_initialized_message n), Agent.new n)
    /\ forall a a',
         Agent.shutdown h a = (Ok tt, a') ->
         Agent.execute h a' task context
         = (Throw (Agent.not_initialized_message (Agent.name a)), a').
Proof.
  intros n task context. split; [reflexivity|].
  intros a a' Hsd. apply shutdown_leaves_uninitialized in Hsd as [Hinit Hname].
  unfold Agent.execute. rewrite Hinit. simpl. now rewrite Hname.
Qed.

(** C9.  [initialize] on an initialized agent returns and leaves the agent
    as it was, so [onInitialize] does not run again; in particular a second
    [initialize] after a first that returned.  [shutdown] on an agent that
    is not initialized returns and leaves it as it was, so [onShutdown] does
    not run. *)
Theorem C9_lifecycle_idempotent_at_boundaries :
  (forall a, Agent.isInitialized a = true ->
             Agent.initialize h a = (Ok tt, a))
  /\ (forall a a1, Agent.initialize h a = (Ok tt, a1) ->
                   Agent.initialize h a1 = (Ok tt, a1)
                   /\ Agent.invocations Agent.CallOnInitialize
                        (snd (Agent.initialize h a1))
                      = Agent.invocations Agent.CallOnInitialize a1)
  /\ (forall a, Agent.isInitialized a = false ->
                Agent.shutdown h a = (Ok tt, a)
                /\ Agent.invocations Agent.CallOnShutdown
                     (snd (Agent.shutdown h a))
                   = Agent.invocations Agent.CallOnShutdown a).
Proof.
  assert (Hinit : forall a, Agent.isInitialized a = true ->
                            Agent.initialize h a = (Ok tt, a)).
  { intros a Ha. unfold Agent.initialize. now rewrite Ha. }
  split; [exact Hinit|]. split.
  - intros a a1 H1.
    assert (Ha1 : Agent.isInitialized a1 = true).
    { unfold Agent.initialize in H1.
      destruct (Agent.isInitialized a) eqn:Ha.
      - injection H1 as <-. exact Ha.
      - destruct (Agent.onInitialize h _); [discriminate|].
        injection H1 as <-. reflexivity. }
    rewrite (Hinit a1 Ha1). split; reflexivity.
  - intros a Ha. unfold Agent.shutdown. rewrite Ha. split; reflexivity.
Qed.
End AgentProperties.

(** C5 as stated fails: for the agent "Coder Agent" the failure after
    [shutdown] is the failure before [initialize], not a different one. *)
Lemma C5_failures_not_distinguishable :
  Agent.execute_after_shutdown Agent.quiet_hooks "Coder Agent" Agent.sample_task tt
  = Throw "Agent Coder Agent is not initialized"
  /\ ~ Agent.distinguishable_failures Agent.quiet_hooks "Coder Agent"
         Agent.sample_task tt.
Proof.
  split; [reflexivity|].
  intros (e1 & e2 & Hne & H1 & H2).
  vm_compute in H1, H2. congruence.
Qed.

Lemma C5_witness :
  let a := snd (Agent.initialize Agent.quiet_hooks (Agent.new "Coder Agent")) in
  let a' := snd (Agent.shutdown Agent.quiet_hooks a) in
  Agent.execute Agent.quiet_hooks a' Agent.sample_task tt
  = (Throw "Agent Coder Agent is not initialized", a').
Proof.
  intros a a'.
  exact (proj2 (C5_execute_outside_lifecycle_not_initialized
                  Agent.quiet_hooks "Coder Agent" Agent.sample_task tt)
               a a' eq_refl).
Defined.

Lemma C9_witness :
  let a0 := Agent.new "Coder Agent" in
  let a1 := snd (Agent.initialize Agent.quiet_hooks a0) in
  Agent.initialize Agent.quiet_hooks a1 = (Ok tt, a1)
  /\ Agent.shutdown Agent.quiet_hooks a0 = (Ok tt, a0).
Proof.
  intros a0 a1. split.
  - exact (proj1 (proj1 (proj2 (C9_lifecycle_idempotent_at_boundaries
                                  Agent.quiet_hooks)) a0 a1 eq_refl)).
  - exact (proj1 (proj2 (proj2 (C9_lifecycle_idempotent_at_boundaries
                                  Agent.quiet_hooks)) a0 eq_refl)).
Defined.

(* ------------------------------------------------------------------ *)
(** ** ToolRegistry *)

Section ToolProperties.
Variable rt : Tools.Runtime.
Implicit Types (r : Tools.ToolRegistry) (config : Tools.ToolConfig)
         (args : Tools.Args) (clk : Tools.Clock).


Lemma metrics_cover_set r n m' executed' :
  Tools.metrics_cover r ->
  Tools.metrics_cover (Tools.mkRegistry (Tools.tools r)
                                  (JSMap.set n m' (Tools.metrics r)) executed').
Proof.
  intros Hr k config Hk. simpl in *.
  destruct (string_dec n k) as [->|Hne].
  - rewrite get_set_same. eauto.
  - rewrite get_set_other by assumption. eauto.
Qed.

Lemma metrics_cover_register r config now :
  Tools.metrics_cover r -> Tools.metrics_cover (Tools.registerTool r config now).
Proof.
  intros Hr k c Hk. unfold Tools.registerTool in *. simpl in *.
  destruct (string_dec (Tools.tool_name config) k) as [->|Hne].
  - rewrite get_set_same. eauto.
  - rewrite get_set_other in * by assumption. eauto.
Qed.

Lemma metrics_cover_execute r toolName args clk :
  Tools.metrics_cover r -> Tools.metrics_cover (snd (Tools.executeTool rt r toolName args clk)).
Proof.
  intros Hr. unfold Tools.executeTool.
  destruct (JSMap.get toolName (Tools.tools r)) as [config|]; [|exact Hr].
  destruct (JSMap.get toolName (Tools.metrics r)); [|exact Hr].
  destruct (Tools.attempt rt config args); now apply metrics_cover_set.
Qed.

Lemma metrics_cover_after cs : Tools.metrics_cover (Tools.after rt cs).
Proof.
  unfold Tools.after.
  assert (H : forall r, Tools.metrics_cover r ->
                        Tools.metrics_cover (fold_left (Tools.apply_call rt) cs r)).
  { induction cs as [|c cs IH]; intros r Hr; [exact Hr|].
    simpl. apply IH. destruct c; simpl.
    - now apply metrics_cover_register.
    - now apply metrics_cover_execute.
    - intros n config Hn. discriminate. }
  apply H. intros n config Hn. discriminate.
Qed.

Lemma missing_error_listed (params : list Tools.ToolParameter) args p :
  In p params -> Tools.required p = true ->
  Tools.has_property (Tools.param_name p) args = false ->
  In ("Missing required parameter: " ++ Tools.param_name p)%string
     (Tools.missing_errors params args).
Proof.
  intros Hin Hreq Hkey. unfold Tools.missing_errors.
  apply in_flat_map. exists p. split; [assumption|].
  rewrite Hreq, Hkey. now left.
Qed.

Lemma message_mentions_error errs e :
  In e errs -> Tools.mentions (Tools.invalid_arguments_message errs) e.
Proof.
  intros Hin. destruct (mentions_concat ", " e errs Hin) as (pre & post & Heq).
  exists ("Invalid arguments: " ++ pre)%string, post.
  unfold Tools.invalid_arguments_message. rewrite Heq.
  now rewrite append_assoc.
Qed.

(** A call that does not get past the validation goes to the [catch]
    block with an exception. *)
Lemma not_accepted_throws config args :
  Tools.accepted rt config args = false ->
  exists e, Tools.attempt rt config args = Throw e.
Proof.
  unfold Tools.accepted, Tools.attempt.
  destruct (Tools.validateArguments rt config args) as [v|e]; [|eauto].
  intros ->. simpl. eauto.
Qed.

Lemma rejected_call r toolName config args clk m e :
  JSMap.get toolName (Tools.tools r) = Some config ->
  JSMap.get toolName (Tools.metrics r) = Some m ->
  Tools.accepted rt config args = false ->
  Tools.attempt rt config args = Throw e ->
  Tools.executeTool rt r toolName args clk
  = (Ok (Tools.mkToolResult false (Some e)
           (Tools.endTime clk - Tools.startTime clk)),
     Tools.mkRegistry (Tools.tools r)
       (JSMap.set toolName
          (Tools.record_failure m (Tools.endTime clk - Tools.startTime clk)
                                (Tools.usedAt clk))
          (Tools.metrics r))
       (Tools.executed r)).
Proof.
  intros Ht Hm Hacc Hatt. unfold Tools.executeTool. now rewrite Ht, Hm, Hacc, Hatt.
Qed.

(** Where the code gets the check of C4 right: a required parameter whose
    name the [in] operator does not find in [args] is reported, provided the
    validation of the supplied arguments raises no exception; the call is
    rejected with a message that names it, and the tool is not invoked. *)
Lemma missing_parameter_rejected (cs : list Tools.Call) toolName config args clk
      validation p :
  JSMap.get toolName (Tools.tools (Tools.after rt cs)) = Some config ->
  Tools.validateArguments rt config args = Ok validation ->
  In p (Tools.parameters config) ->
  Tools.required p = true ->
  Tools.has_property (Tools.param_name p) args = false ->
  exists msg r',
    Tools.executeTool rt (Tools.after rt cs) toolName args clk
    = (Ok (Tools.mkToolResult false (Some msg)
             (Tools.endTime clk - Tools.startTime clk)), r')
    /\ Tools.mentions msg ("Missing required parameter: " ++ Tools.param_name p)
    /\ Tools.executed r' = Tools.executed (Tools.after rt cs).
Proof.
  intros Ht Hv Hin Hreq Hkey.
  destruct (metrics_cover_after cs toolName Ht) as [m Hm].
  pose proof (missing_error_listed _ _ _ Hin Hreq Hkey) as Hlisted.
  unfold Tools.validateArguments in Hv.
  destruct (Tools.entries_errors rt (Tools.parameters config) (Tools.entries args))
    as [found|e] eqn:Hfound; [|discriminate].
  injection Hv as <-.
  assert (Hacc : Tools.accepted rt config args = false).
  { unfold Tools.accepted, Tools.validateArguments. rewrite Hfound. simpl.
    destruct (Tools.missing_errors _ _ ++ found) eqn:E; [|reflexivity].
    apply app_eq_nil in E as [E _]. rewrite E in Hlisted. destruct Hlisted. }
  assert (Hatt : Tools.attempt rt config args
                 = Throw (Tools.invalid_arguments_message
                            (Tools.missing_errors (Tools.parameters config) args
                             ++ found))).
  { unfold Tools.accepted in Hacc. unfold Tools.attempt.
    unfold Tools.validateArguments in *. rewrite Hfound in *.
    cbn [Tools.valid Tools.errors] in *. now rewrite Hacc. }
  eexists. eexists. split; [exact (@rejected_call _ _ _ _ clk _ _ Ht Hm Hacc Hatt)|].
  split; [|reflexivity].
  apply message_mentions_error. apply in_or_app. now left.
Qed.

(** C10.  A call to a registered tool that does not get past the
    validation (the validation reports errors, or raises an exception)
    never reaches the tool, and yet the tool's metrics record gets
    [calls + 1], [failures + 1], the duration added to [totalDuration], a new
    [averageLatency] and [lastUsed]; the record is the one a call whose
    tool implementation throws leaves behind. *)
Theorem C10_validation_rejection_counts_as_failure :
  forall (cs : list Tools.Call) toolName config args clk,
    JSMap.get toolName (Tools.tools (Tools.after rt cs)) = Some config ->
    Tools.accepted rt config args = false ->
    exists m m' r',
      JSMap.get toolName (Tools.metrics (Tools.after rt cs)) = Some m
      /\ snd (Tools.executeTool rt (Tools.after rt cs) toolName args clk) = r'
      /\ Tools.executed r' = Tools.executed (Tools.after rt cs)
      /\ JSMap.get toolName (Tools.metrics r') = Some m'
      /\ Tools.calls m' = (Tools.calls m + 1)%Z
      /\ Tools.failures m' = (Tools.failures m + 1)%Z
      /\ Tools.successes m' = Tools.successes m
      /\ Tools.totalDuration m'
         = (Tools.totalDuration m + (Tools.endTime clk - Tools.startTime clk))%Z
      /\ Tools.averageLatency m'
         = Tools.average (Tools.totalDuration m') (Tools.calls m')
      /\ Tools.lastUsed m' = Tools.usedAt clk
      /\ forall args2 e,
           Tools.accepted rt config args2 = true ->
           Tools.tool_execute rt config args2 = Throw e ->
           Tools.metrics (snd (Tools.executeTool rt (Tools.after rt cs)
                                                 toolName args2 clk))
           = Tools.metrics r'.
Proof.
  intros cs toolName config args clk Ht Hv.
  destruct (metrics_cover_after cs toolName Ht) as [m Hm].
  destruct (not_accepted_throws _ _ Hv) as [e0 Hatt].
  exists m. eexists. eexists. split; [exact Hm|].
  rewrite (@rejected_call _ _ _ _ clk _ _ Ht Hm Hv Hatt).
  cbn [snd Tools.executed Tools.metrics].
  split; [reflexivity|]. split; [reflexivity|].
  split; [apply get_set_same|].
  repeat (split; [reflexivity|]).
  intros args2 e Hv2 He. unfold Tools.executeTool. rewrite Ht, Hm.
  assert (Hatt2 : Tools.attempt rt config args2 = Throw e).
  { unfold Tools.accepted in Hv2. unfold Tools.attempt.
    destruct (Tools.validateArguments rt config args2) as [v|]; [|discriminate].
    now rewrite Hv2. }
  now rewrite Hatt2.
Qed.
End ToolProperties.

(** C4 (where the code departs from it).  The tool "class-writer" requires
    the parameter "constructor".  Called with the empty object, which has
    no such property of its own, the validation reports nothing, because
    [in] finds the name on [Object.prototype]; [executeTool] returns the
    tool's result and the tool's [execute] has been invoked. *)
Theorem C4_required_parameter_with_inherited_name_not_detected :
  let r := Tools.after Tools.sample_runtime
                       [Tools.CallRegister Tools.class_writer 0] in
  let args := Tools.plain [] in
  Tools.own_property "constructor" args = false
  /\ Tools.validateArguments Tools.sample_runtime Tools.class_writer args
     = Ok (Tools.mkValidation true [])
  /\ exists r',
       Tools.executeTool Tools.sample_runtime r "class-writer" args
                         (Tools.mkClock 10 12 12)
       = (Ok (Tools.mkToolResult true None 0), r')
       /\ Tools.executed r' = [("class-writer", args)].
Proof.
  intros r args. split; [reflexivity|]. split; [reflexivity|].
  eexists. split; reflexivity.
Qed.

Lemma C10_witness :
  exists m',
    JSMap.get "file-write"
      (Tools.metrics
         (snd (Tools.executeTool Tools.sample_runtime
                 (Tools.after Tools.sample_runtime
                              [Tools.CallRegister Tools.file_write 0])
                 "file-write" (Tools.plain [("path", Tools.JStr "a.txt")])
                 (Tools.mkClock 10 12 13))))
    = Some m'
    /\ Tools.calls m' = 1%Z /\ Tools.failures m' = 1%Z
    /\ Tools.totalDuration m' = 2%Z /\ Tools.lastUsed m' = 13%Z.
Proof.
  destruct (@C10_validation_rejection_counts_as_failure Tools.sample_runtime
              [Tools.CallRegister Tools.file_write 0]
              "file-write" Tools.file_write
              (Tools.plain [("path", Tools.JStr "a.txt")])
              (Tools.mkClock 10 12 13) eq_refl eq_refl)
    as (m & m' & r' & Hm & Hr' & _ & Hm' & Hc & Hf & _ & Ht & _ & Hl & _).
  exists m'. rewrite Hr'. split; [exact Hm'|].
  injection Hm as <-.
  split; [exact Hc | split; [exact Hf | split; [exact Ht | exact Hl]]].
Defined.

(* ------------------------------------------------------------------ *)
(** ** ModelRouter *)

Section RouterProperties.
Implicit Types (r : Router.ModelRouter) (request : Router.ModelRequest).

Lemma find_first (A : Type) (f : A -> bool) (before after : list A) (x : A) :
  (forall y, In y before -> f y = false) -> f x = true ->
  find f (before ++ x :: after) = Some x.
Proof.
  intros Hbefore Hx. induction before as [|y before IH]; simpl.
  - now rewrite Hx.
  - rewrite (Hbefore y) by now left. apply IH. intros z Hz. apply Hbefore. now right.
Qed.

(** C7 (as the code has it).  When the estimated token count exceeds the
    default model's limit and [n] is the first registered model, in
    registration order, whose limit is at least the estimate, [selectModel]
    returns [n] when no cost budget is configured or the running cost plus
    the estimated cost on [n] does not exceed it.  When it does exceed the
    budget, [selectModel] returns the first registered model that keeps the
    cost within the budget, whatever its limit, and [n] again when there is
    no such model. *)
Theorem C7_selects_first_sufficient_model_unless_budget_forces_another :
  forall r request d before n cfg after,
    JSMap.get (Router.defaultModel (Router.config r)) (Router.models r) = Some d ->
    (Router.estimateTokenCount request > Router.maxTokens d)%Z ->
    Router.models r = before ++ (n, cfg) :: after ->
    (Router.maxTokens cfg >= Router.estimateTokenCount request)%Z ->
    (forall kv, In kv before ->
                (Router.maxTokens (snd kv) < Router.estimateTokenCount request)%Z) ->
    (Router.over_budget r request n = false ->
     Router.selectModel r request = Some n)
    /\ (Router.over_budget r request n = true ->
        match find (Router.affordable r request) (Router.models r) with
        | Some (cheaper, _) => Router.selectModel r request = Some cheaper
        | None => Router.selectModel r request = Some n
        end).
Proof.
  intros r request d before n cfg after Hd Hgt Hmodels Hcfg Hbefore.
  unfold Router.selectModel. rewrite Hd.
  assert (Hgtb : (Router.estimateTokenCount request >? Router.maxTokens d)%Z = true)
    by (apply Z.gtb_lt; lia).
  rewrite Hgtb.
  assert (Hfind : find (fun kv : string * Router.ModelConfig =>
                          (Router.maxTokens (snd kv)
                           >=? Router.estimateTokenCount request)%Z)
                       (Router.models r) = Some (n, cfg)).
  { rewrite Hmodels. apply find_first.
    - intros y Hy. specialize (Hbefore y Hy). rewrite Z.geb_leb. apply Z.leb_gt. lia.
    - simpl. apply Z.geb_le. lia. }
  rewrite Hfind. unfold Router.over_budget, Router.affordable, Router.price_of.
  destruct (Router.costBudget (Router.config r)) as [budget|].
  - destruct (Router.truthy budget); simpl.
    + split; intros Hover; rewrite Hover; [reflexivity|].
      match goal with
      | |- match ?f with _ => _ end => destruct f as [[cheaper c]|]
      end; reflexivity.
    + split; [reflexivity | discriminate].
  - split; [reflexivity | discriminate].
Qed.

Variable backend : string -> nat -> Result Router.BackendResponse.


Lemma checkRateLimit_refuses r now m times :
  In (m, times) (Router.requestTimes r) -> Router.at_limit r now times ->
  exists m' times',
    In (m', times') (Router.requestTimes r) /\ Router.at_limit r now times'
    /\ Router.checkRateLimit r now
       = (Throw (Router.rate_limit_message m'),
          Router.set_requestTimes r (Router.cleaned r now)).
Proof.
  intros Hin Hlimit. unfold Router.checkRateLimit. fold (Router.cleaned r now).
  destruct (find _ (Router.cleaned r now)) as [[m' w]|] eqn:Hfind.
  - apply find_some in Hfind as [Hin' Hw]. unfold Router.cleaned in Hin'.
    apply in_map_iff in Hin' as ([m0 times0] & Heq & Hin0).
    simpl in Heq. injection Heq as -> <-.
    exists m', times0. split; [assumption|]. split; [|reflexivity].
    unfold Router.at_limit. simpl in Hw. apply Z.geb_le in Hw. lia.
  - exfalso.
    assert (Hc : In (m, Router.in_window r now times) (Router.cleaned r now)).
    { unfold Router.cleaned. apply in_map_iff. exists (m, times). now split. }
    apply (find_none _ _ Hfind) in Hc. simpl in Hc.
    unfold Router.at_limit in Hlimit. rewrite Z.geb_leb in Hc. apply Z.leb_gt in Hc. lia.
Qed.

Lemma checkRateLimit_admits r now r1 :
  Router.checkRateLimit r now = (Ok tt, r1) ->
  Router.admitted r now
  /\ Router.config r1 = Router.config r
  /\ exists earlier,
       JSMap.get (Router.defaultModel (Router.config r)) (Router.requestTimes r1)
       = Some (earlier ++ [now]).
Proof.
  intros Hok. split.
  - intros m times Hin Hlimit.
    destruct (@checkRateLimit_refuses r now m times Hin Hlimit)
      as (m' & times' & _ & _ & Hthrow).
    congruence.
  - unfold Router.checkRateLimit in Hok.
    destruct (find _ _) as [[m' w]|]; [discriminate|].
    injection Hok as <-. split; [reflexivity|]. simpl.
    eexists. apply get_set_same.
Qed.

(** With every model under the limit, [checkRateLimit] returns. *)
Lemma checkRateLimit_admitted r now :
  Router.admitted r now -> fst (Router.checkRateLimit r now) = Ok tt.
Proof.
  intros Hadm. unfold Router.checkRateLimit. fold (Router.cleaned r now).
  destruct (find _ (Router.cleaned r now)) as [[m' w]|] eqn:Hfind; [|reflexivity].
  exfalso. apply find_some in Hfind as [Hin' Hw]. unfold Router.cleaned in Hin'.
  apply in_map_iff in Hin' as ([m0 times0] & Heq & Hin0).
  simpl in Heq. injection Heq as -> <-.
  apply (Hadm m' times0 Hin0). unfold Router.at_limit.
  simpl in Hw. apply Z.geb_le in Hw. lia.
Qed.

Lemma executeWithRetry_keeps r modelName :
  Router.requestTimes (snd (Router.executeWithRetry backend r modelName))
  = Router.requestTimes r
  /\ Router.config (snd (Router.executeWithRetry backend r modelName))
     = Router.config r.
Proof.
  unfold Router.executeWithRetry.
  destruct (Router.attempts _ _ _ _ _). split; reflexivity.
Qed.

Lemma updateMetrics_keeps r (z : Router.BackendResponse) (lat : Z) :
  Router.requestTimes (snd (Router.updateMetrics r z lat)) = Router.requestTimes r
  /\ Router.config (snd (Router.updateMetrics r z lat)) = Router.config r
  /\ Router.models (snd (Router.updateMetrics r z lat)) = Router.models r
  /\ Router.backendCalls (snd (Router.updateMetrics r z lat)) = Router.backendCalls r.
Proof.
  unfold Router.updateMetrics. destruct (Router.usage z); repeat split.
Qed.

(** Past the rate limiter, nothing in [generateResponse] touches the
    request times. *)
Lemma generateResponse_requestTimes r request (startTime endTime : Z) :
  Router.zai r = true ->
  Router.requestTimes
    (snd (Router.generateResponse backend r request startTime endTime))
  = Router.requestTimes (snd (Router.checkRateLimit r startTime)).
Proof.
  intros Hzai. unfold Router.generateResponse. rewrite Hzai. simpl.
  destruct (Router.checkRateLimit r startTime) as [[[]|e] r1]; [|reflexivity].
  destruct (Router.selectModel r1 request) as [modelName|]; [|reflexivity].
  destruct (JSMap.get modelName (Router.models r1)); [|reflexivity].
  pose proof (@executeWithRetry_keeps r1 modelName) as [Htimes _].
  destruct (Router.executeWithRetry backend r1 modelName) as [[z|e] r2];
    [|exact Htimes].
  pose proof (updateMetrics_keeps r2 z (endTime - startTime)) as [Htimes2 _].
  destruct (Router.updateMetrics r2 z (endTime - startTime)) as [[[]|e] r3];
    simpl in *; congruence.
Qed.

(** C6 (as the code has it).  On an initialized router: if some model's
    request times inside the window have reached the configured count, the
    call is rejected with "Rate limit exceeded for model <m>" for a model
    [m] at the limit, and no backend call is made; a call that returns found
    every model under the limit; and every call that finds every model
    under the limit is recorded, its time last, under the configured
    default model, whichever model is then selected and whether the call
    then returns or fails. *)
Theorem C6_rate_limit_recorded_under_default_model :
  forall r request (startTime endTime : Z),
    Router.zai r = true ->
    (forall m times,
        In (m, times) (Router.requestTimes r) -> Router.at_limit r startTime times ->
        exists m' times' r',
          In (m', times') (Router.requestTimes r)
          /\ Router.at_limit r startTime times'
          /\ Router.generateResponse backend r request startTime endTime
             = (Throw (Router.rate_limit_message m'), r')
          /\ Router.backendCalls r' = Router.backendCalls r)
    /\ (forall resp r',
           Router.generateResponse backend r request startTime endTime = (Ok resp, r') ->
           Router.admitted r startTime)
    /\ (Router.admitted r startTime ->
        exists earlier,
          JSMap.get (Router.defaultModel (Router.config r))
                    (Router.requestTimes
                       (snd (Router.generateResponse backend r request
                                                     startTime endTime)))
          = Some (earlier ++ [startTime])).
Proof.
  intros r request startTime endTime Hzai. split; [|split].
  - intros m times Hin Hlimit.
    destruct (@checkRateLimit_refuses r startTime m times Hin Hlimit)
      as (m' & times' & Hin' & Hlimit' & Hthrow).
    exists m', times'. eexists. split; [assumption|]. split; [assumption|].
    unfold Router.generateResponse. rewrite Hzai, Hthrow. simpl.
    split; reflexivity.
  - intros resp r' Hgen. unfold Router.generateResponse in Hgen.
    rewrite Hzai in Hgen. simpl in Hgen.
    destruct (Router.checkRateLimit r startTime) as [[[]|e] r1] eqn:Hcheck;
      [|discriminate].
    now apply checkRateLimit_admits in Hcheck as (Hunder & _).
  - intros Hadm. rewrite (generateResponse_requestTimes r request startTime endTime Hzai).
    pose proof (checkRateLimit_admitted Hadm) as Hok.
    destruct (Router.checkRateLimit r startTime) as [[[]|e] r1] eqn:Hcheck;
      [|discriminate].
    now apply checkRateLimit_admits in Hcheck as (_ & _ & Hrec).
Qed.
End RouterProperties.

(** C7 as stated fails: with a cost budget of 1, the request estimated at 3
    tokens exceeds the default model's limit of 1 and the model "big"
    (limit 100) is the first sufficient one, yet [selectModel] returns
    "small", the model that keeps the cost within the budget. *)
Lemma C7_budget_overrides_first_sufficient_model :
  Router.estimateTokenCount Router.long_request = 3%Z
  /\ JSMap.get "small" (Router.models (Router.sample_router (Some PrimFloat.one)))
     = Some Router.small
  /\ Router.maxTokens Router.small = 1%Z
  /\ find (fun kv => (Router.maxTokens (snd kv) >=? 3)%Z)
          (Router.models (Router.sample_router (Some PrimFloat.one)))
     = Some ("big", Router.big)
  /\ Router.selectModel (Router.sample_router (Some PrimFloat.one)) Router.long_request
     = Some "small"
  /\ Router.selectModel (Router.sample_router (Some PrimFloat.one)) Router.long_request
     <> Some "big".
Proof. repeat split; try reflexivity. vm_compute. discriminate. Qed.

Lemma C7_witness :
  Router.selectModel (Router.sample_router None) Router.long_request = Some "big"
  /\ Router.selectModel (Router.sample_router (Some (Router.of_Z 5)))
                        Router.long_request = Some "big".
Proof.
  split.
  - refine (proj1 (@C7_selects_first_sufficient_model_unless_budget_forces_another
                     (Router.sample_router None) Router.long_request Router.small
                     [("small", Router.small)] "big" Router.big [] _ _ _ _ _) _).
    + reflexivity.
    + vm_compute. reflexivity.
    + reflexivity.
    + vm_compute. discriminate.
    + intros kv [<-|[]]. vm_compute. reflexivity.
    + reflexivity.
  - refine (proj1 (@C7_selects_first_sufficient_model_unless_budget_forces_another
                     (Router.sample_router (Some (Router.of_Z 5)))
                     Router.long_request Router.small
                     [("small", Router.small)] "big" Router.big [] _ _ _ _ _) _).
    + reflexivity.
    + vm_compute. reflexivity.
    + reflexivity.
    + vm_compute. discriminate.
    + intros kv [<-|[]]. vm_compute. reflexivity.
    + vm_compute. reflexivity.
Defined.

(** C6 as stated fails: the request below is served by "big", and its time
    is recorded under "small", the default model; "big" has no request
    times at all. *)
Lemma C6_request_not_counted_against_selected_model :
  (exists r',
      Router.generateResponse Router.echo_backend (Router.sample_router None)
                              Router.long_request 1000 1005
      = (Ok (Router.mkResponse "ok" PrimFloat.zero "big"), r')
      /\ JSMap.get "big" (Router.requestTimes r') = None
      /\ JSMap.get "small" (Router.requestTimes r') = Some [1000%Z])
  /\ ~ Router.counted_against_selected Router.echo_backend
         (Router.sample_router None) Router.long_request 1000 1005.
Proof.
  split.
  - eexists. split; [vm_compute; reflexivity|]. split; reflexivity.
  - intros H.
    destruct (H _ _ eq_refl) as (times & Hget & _).
    vm_compute in Hget. discriminate.
Qed.

(** A request that is admitted and then fails on the backend is recorded
    all the same. *)
Lemma C6_witness :
  (exists e r',
      Router.generateResponse Router.failing_backend (Router.sample_router None)
                              Router.long_request 1000 1005
      = (Throw e, r'))
  /\ exists earlier,
       JSMap.get "small"
         (Router.requestTimes
            (snd (Router.generateResponse Router.failing_backend
                    (Router.sample_router None) Router.long_request 1000 1005)))
       = Some (earlier ++ [1000%Z]).
Proof.
  split; [eexists; eexists; vm_compute; reflexivity|].
  apply (proj2 (proj2 (@C6_rate_limit_recorded_under_default_model
                         Router.failing_backend (Router.sample_router None)
                         Router.long_request 1000%Z 1005%Z eq_refl))).
  intros m times [].
Defined.

(* ------------------------------------------------------------------ *)
(** ** MemoryManager *)

Section SweepProperties.
Variable V : Type.
Variable time : V -> Z.
Implicit Types (l : list (string * V)) (x : string * V).

Lemma length_insert_by_time x l :
  List.length (Memory.insert_by_time time x l) = S (List.length l).
Proof.
  induction l as [|y l IH]; simpl; [reflexivity|].
  destruct (time (snd x) <=? time (snd y))%Z; simpl; [reflexivity | now rewrite IH].
Qed.

Lemma length_sort_by_time l :
  List.length (Memory.sort_by_time time l) = List.length l.
Proof.
  induction l as [|y l IH]; simpl; [reflexivity|].
  now rewrite length_insert_by_time, IH.
Qed.

(** The sorted array starts with an entry of least time. *)
Lemma sort_by_time_head l x rest :
  Memory.sort_by_time time l = x :: rest ->
  In x l /\ forall y, In y l -> (time (snd x) <= time (snd y))%Z.
Proof.
  revert x rest. induction l as [|a l IH]; intros x rest Hsort; [discriminate|].
  simpl in Hsort.
  destruct (Memory.sort_by_time time l) as [|b sorted] eqn:Hl.
  - assert (l = []) as ->.
    { pose proof (length_sort_by_time l) as Hlen. rewrite Hl in Hlen.
      destruct l; [reflexivity | discriminate]. }
    simpl in Hsort. injection Hsort as <- <-.
    split; [now left|]. intros y [<-|[]]. lia.
  - destruct (IH b sorted eq_refl) as [Hb Hmin].
    simpl in Hsort.
    destruct (time (snd a) <=? time (snd b))%Z eqn:Hab.
    + injection Hsort as <- <-. apply Z.leb_le in Hab.
      split; [now left|].
      intros y [<-|Hy]; [lia|]. specialize (Hmin y Hy). lia.
    + injection Hsort as <- <-. apply Z.leb_gt in Hab.
      split; [now right|].
      intros y [<-|Hy]; [lia | now apply Hmin].
Qed.

Lemma nodup_map_injective (A B : Type) (f : A -> B) (l : list A) (a b : A) :
  NoDup (map f l) -> In a l -> In b l -> f a = f b -> a = b.
Proof.
  induction l as [|c l IH]; simpl; [tauto|].
  intros Hnd Ha Hb Hf. inversion Hnd as [|? ? Hnotin Hnd']; subst.
  destruct Ha as [->|Ha], Hb as [->|Hb].
  - reflexivity.
  - exfalso. apply Hnotin. rewrite Hf. now apply in_map.
  - exfalso. apply Hnotin. rewrite <- Hf. now apply in_map.
  - now apply IH.
Qed.

(** One entry over the ceiling: the sweep deletes exactly the entry of
    least time. *)
Lemma evict_one (max : nat) (m : JSMap.t V) :
  NoDup (map (fun kv => time (snd kv)) m) ->
  JSMap.size m = S max ->
  exists k v,
    In (k, v) m
    /\ (forall k' v', In (k', v') m -> k' <> k -> (time v < time v')%Z)
    /\ Memory.evict_oldest time max m = JSMap.delete k m.
Proof.
  intros Htimes Hsize. unfold Memory.evict_oldest.
  assert (Hlt : Nat.ltb max (JSMap.size m) = true)
    by (apply Nat.ltb_lt; rewrite Hsize; lia).
  rewrite Hlt, length_sort_by_time.
  unfold JSMap.size in Hsize. rewrite Hsize.
  replace (S max - max) with 1 by lia.
  destruct (Memory.sort_by_time time m) as [|[k v] rest] eqn:Hsort.
  - pose proof (length_sort_by_time m) as Hlen. rewrite Hsort, Hsize in Hlen.
    discriminate.
  - destruct (sort_by_time_head m Hsort) as [Hin Hmin].
    exists k, v. split; [exact Hin|]. split; [|reflexivity].
    intros k' v' Hin' Hne. specialize (Hmin (k', v') Hin'). simpl in Hmin.
    assert (time v <> time v').
    { intros Heq. apply Hne.
      assert (E : (k, v) = (k', v')).
      { apply (nodup_map_injective (fun kv : string * V => time (snd kv)) m);
          assumption. }
      congruence. }
    lia.
Qed.
End SweepProperties.

(** C8.  When the task-memory map holds [maxTaskMemory + 1] memories with
    pairwise distinct [updatedAt] times, one sweep deletes exactly one of
    them, the one updated least recently: it is absent afterwards, every
    other memory is still there, and [maxTaskMemory] memories remain. *)
Theorem C8_sweep_evicts_least_recently_updated :
  forall (m : Memory.MemoryManager) (now : Z),
    Memory.distinct_keys (Memory.taskMemories m) ->
    Memory.distinct_update_times (Memory.taskMemories m) ->
    JSMap.size (Memory.taskMemories m) = S (Memory.maxTaskMemory (Memory.config m)) ->
    exists k v,
      In (k, v) (Memory.taskMemories m)
      /\ (forall k' v', In (k', v') (Memory.taskMemories m) -> k' <> k ->
                        (Memory.updatedAt v < Memory.updatedAt v')%Z)
      /\ JSMap.get k (Memory.taskMemories (Memory.cleanupExpiredEntries m now)) = None
      /\ (forall k', k' <> k ->
                     JSMap.get k' (Memory.taskMemories (Memory.cleanupExpiredEntries m now))
                     = JSMap.get k' (Memory.taskMemories m))
      /\ JSMap.size (Memory.taskMemories (Memory.cleanupExpiredEntries m now))
         = Memory.maxTaskMemory (Memory.config m).
Proof.
  intros m now Hkeys Htimes Hsize.
  destruct (@evict_one _ Memory.updatedAt (Memory.maxTaskMemory (Memory.config m))
                       (Memory.taskMemories m) Htimes Hsize)
    as (k & v & Hin & Hmin & Hevict).
  exists k, v. simpl. rewrite Hevict.
  split; [exact Hin|]. split; [exact Hmin|].
  split; [now apply get_delete_same|].
  split; [intros k' Hne; now apply get_delete_other|].
  unfold JSMap.size in *.
  assert (Hlen : forall (l : JSMap.t Memory.TaskMemory),
             In k (JSMap.keys l) ->
             S (List.length (JSMap.delete k l)) = List.length l).
  { induction l as [|[k0 v0] l IH]; simpl; [tauto|].
    destruct (String.eqb_spec k k0) as [->|Hne]; [reflexivity|].
    intros [E|Hl]; [congruence|]. simpl. now rewrite IH. }
  specialize (Hlen (Memory.taskMemories m)).
  rewrite Hsize in Hlen. injection Hlen; [tauto|].
  now apply (in_map fst) in Hin.
Qed.

Lemma C8_witness :
  exists k v,
    In (k, v) (Memory.taskMemories Memory.sample_memory)
    /\ JSMap.get k (Memory.taskMemories
                      (Memory.cleanupExpiredEntries Memory.sample_memory 100))
       = None
    /\ JSMap.size (Memory.taskMemories
                     (Memory.cleanupExpiredEntries Memory.sample_memory 100))
       = 2.
Proof.
  destruct (@C8_sweep_evicts_least_recently_updated Memory.sample_memory 100%Z)
    as (k & v & Hin & _ & Hnone & _ & Hsize).
  - repeat constructor; simpl; intuition discriminate.
  - repeat constructor; simpl; intuition discriminate.
  - reflexivity.
  - exists k, v. split; [exact Hin | split; [exact Hnone | exact Hsize]].
Defined.

(* ------------------------------------------------------------------ *)
(** ** Orchestrator *)

Section OrchestratorProperties.
Variable listener : list Orch.Emitted -> Orch.Emitted -> option string.
Implicit Types (o : Orch.Orchestrator) (e : Orch.Event) (t : Task).

Lemma status_is_true s t : Orch.status_is s t = true <-> status t = s.
Proof. unfold Orch.status_is. destruct (status t), s; simpl; split; congruence. Qed.

Lemma mem_In x l : Orch.mem x l = true <-> In x l.
Proof.
  unfold Orch.mem. rewrite existsb_exists. split.
  - intros (y & Hy & E). apply String.eqb_eq in E. now subst.
  - intros H. exists x. split; [assumption | apply String.eqb_refl].
Qed.

Lemma mem_not_In x l : Orch.mem x l = false <-> ~ In x l.
Proof.
  rewrite <- mem_In. destruct (Orch.mem x l); split; congruence.
Qed.

Lemma In_set_delete x y l : In y (Orch.set_delete x l) <-> In y l /\ y <> x.
Proof.
  unfold Orch.set_delete. rewrite filter_In. split; intros [H1 H2]; split; trivial.
  - intros ->. now rewrite String.eqb_refl in H2.
  - destruct (String.eqb_spec x y); [congruence | reflexivity].
Qed.

Lemma length_set_delete x l : List.length (Orch.set_delete x l) <= List.length l.
Proof. apply filter_length_le. Qed.

Lemma set_add_absent x l : Orch.mem x l = false -> Orch.set_add x l = l ++ [x].
Proof. intros H. unfold Orch.set_add. now rewrite H. Qed.

Lemma filter_all (A : Type) (f : A -> bool) (l : list A) :
  (forall x, In x l -> f x = true) -> filter f l = l.
Proof.
  induction l as [|x l IH]; simpl; intros H; [reflexivity|].
  rewrite (H x) by now left. f_equal. apply IH. intros y Hy. apply H. now right.
Qed.

Lemma set_delete_absent x l : ~ In x l -> Orch.set_delete x l = l.
Proof.
  intros Hnot. apply filter_all. intros y Hy.
  destruct (String.eqb_spec x y); [congruence | reflexivity].
Qed.

(** A slot taken and given back leaves the running set as it was. *)
Lemma set_delete_added x l : ~ In x l -> Orch.set_delete x (l ++ [x]) = l.
Proof.
  intros Hnot. unfold Orch.set_delete. rewrite filter_app. simpl.
  rewrite String.eqb_refl. simpl. rewrite app_nil_r. now apply set_delete_absent.
Qed.

(** A second [set] under the same key replaces the first. *)
Lemma set_set (k : string) (v1 v2 : Task) (m : JSMap.t Task) :
  JSMap.set k v2 (JSMap.set k v1 m) = JSMap.set k v2 m.
Proof.
  induction m as [|[k' v'] m IH]; simpl.
  - now rewrite String.eqb_refl.
  - destruct (String.eqb_spec k k') as [->|Hne]; simpl.
    + now rewrite String.eqb_refl.
    + destruct (String.eqb_spec k k'); [congruence|]. now rewrite IH.
Qed.

Lemma eligible_true o taskId task :
  Orch.eligible o (taskId, task) = true ->
  status task = pending
  /\ ~ In taskId (Orch.runningTasks o)
  /\ Orch.dependenciesMet o task = true.
Proof.
  unfold Orch.eligible. simpl. intros H.
  apply andb_prop in H as [H Hdeps]. apply andb_prop in H as [Hpending Hrun].
  split; [now apply status_is_true|]. split; [|exact Hdeps].
  apply mem_not_In. now destruct (Orch.mem taskId _).
Qed.

(** The outcomes of [executeTask]: nothing to start; the task started and
    its call suspended; or, when a task:started listener throws, the task
    failed, its slot given back and [next] called. *)
Lemma executeTask_cases next o taskId :
  ((JSMap.get taskId (Orch.tasks o) = None \/ In taskId (Orch.runningTasks o))
   /\ Orch.executeTask listener next o taskId = o)
  \/ exists task,
      JSMap.get taskId (Orch.tasks o) = Some task
      /\ ~ In taskId (Orch.runningTasks o)
      /\ ((listener (Orch.emitted o)
                    (Orch.mkEmitted Orch.task_started (with_status task in_progress))
           = None
           /\ Orch.executeTask listener next o taskId = OrchOps.started o taskId task)
          \/ (listener (Orch.emitted o)
                       (Orch.mkEmitted Orch.task_started (with_status task in_progress))
              <> None
              /\ Orch.executeTask listener next o taskId
                 = next (OrchOps.abandoned o taskId task))).
Proof.
  unfold Orch.executeTask.
  destruct (JSMap.get taskId (Orch.tasks o)) as [task|]; [|left; split; auto].
  destruct (Orch.mem taskId (Orch.runningTasks o)) eqn:Hmem.
  { left. split; [right; now apply mem_In | reflexivity]. }
  right. exists task. split; [reflexivity|].
  pose proof (proj1 (mem_not_In _ _) Hmem) as Hnot. split; [exact Hnot|].
  unfold Orch.emit. simpl. rewrite (@set_add_absent _ _ Hmem).
  destruct (listener _ _) as [msg|] eqn:Hl.
  - right. split; [discriminate|]. f_equal.
    unfold OrchOps.abandoned, Orch.release, Orch.executeTask_catch, Orch.emit,
      Orch.store. simpl.
    rewrite set_set, (@set_delete_added _ _ Hnot), <- app_assoc. reflexivity.
  - left. split; reflexivity.
Qed.

(** What [processNextTask] keeps, given that [executeTask] keeps it when
    called on an eligible task with a free slot. *)
Lemma processNextTask_from_preserves (P : Orch.Orchestrator -> Prop) :
  (forall next o taskId task,
      P o ->
      List.length (Orch.runningTasks o) < Orch.maxConcurrentTasks o ->
      In (taskId, task) (Orch.tasks o) ->
      Orch.eligible o (taskId, task) = true ->
      (forall o', P o' -> P (next o')) ->
      P (Orch.executeTask listener next o taskId)) ->
  forall depth o, P o -> P (Orch.processNextTask_from listener depth o).
Proof.
  intros Hexec. induction depth as [|depth IH]; intros o Ho; simpl; [exact Ho|].
  destruct (Nat.leb _ _) eqn:Hfull; [exact Ho|]. apply Nat.leb_gt in Hfull.
  destruct (find _ _) as [[taskId task]|] eqn:Hfind; [|exact Ho].
  apply find_some in Hfind as [Hin Hel].
  now apply (Hexec _ o taskId task).
Qed.

Lemma processNextTask_preserves (P : Orch.Orchestrator -> Prop) :
  (forall next o taskId task,
      P o ->
      List.length (Orch.runningTasks o) < Orch.maxConcurrentTasks o ->
      In (taskId, task) (Orch.tasks o) ->
      Orch.eligible o (taskId, task) = true ->
      (forall o', P o' -> P (next o')) ->
      P (Orch.executeTask listener next o taskId)) ->
  forall o, P o -> P (Orch.processNextTask listener o).
Proof.
  intros Hexec o. unfold Orch.processNextTask.
  now apply processNextTask_from_preserves.
Qed.

(** What [executeTask_resume] leaves: the final record of the task, its slot
    given back, its call gone. *)
Lemma executeTask_resume_spec o taskId task succeeded :
  exists final history,
    status final = OrchOps.final_status listener o task succeeded
    /\ Orch.executeTask_resume listener o taskId task succeeded
       = Orch.mkOrch (JSMap.set taskId final (Orch.tasks o))
                     (Orch.set_delete taskId (Orch.runningTasks o))
                     (JSMap.delete taskId (Orch.suspended o))
                     (Orch.maxConcurrentTasks o)
                     (Orch.emitted o ++ history).
Proof.
  unfold Orch.executeTask_resume, Orch.executeTask_end, OrchOps.final_status,
    Orch.executeTask_catch, Orch.emit, Orch.store, Orch.release.
  destruct succeeded; simpl.
  - destruct (listener _ _) as [msg|]; simpl.
    + exists (with_status_result task failed). eexists. split; [reflexivity|].
      rewrite set_set, <- app_assoc. reflexivity.
    + eexists. eexists. split; [|reflexivity]. reflexivity.
  - eexists. eexists. split; [|reflexivity]. reflexivity.
Qed.

Lemma final_status_ended o task succeeded :
  OrchOps.final_status listener o task succeeded = completed
  \/ OrchOps.final_status listener o task succeeded = failed.
Proof.
  unfold OrchOps.final_status. destruct succeeded; [|now right].
  destruct (listener _ _); [now right | now left].
Qed.

Lemma status_of_set_same o' o taskId t :
  Orch.tasks o' = JSMap.set taskId t (Orch.tasks o) ->
  Orch.status_of o' taskId = Some (status t).
Proof. intros E. unfold Orch.status_of. now rewrite E, get_set_same. Qed.

Lemma status_of_set_other o' o taskId t k :
  Orch.tasks o' = JSMap.set taskId t (Orch.tasks o) ->
  taskId <> k ->
  Orch.status_of o' k = Orch.status_of o k.
Proof. intros E Hne. unfold Orch.status_of. now rewrite E, get_set_other. Qed.

Lemma status_of_get o taskId t :
  JSMap.get taskId (Orch.tasks o) = Some t -> Orch.status_of o taskId = Some (status t).
Proof. intros E. unfold Orch.status_of. now rewrite E. Qed.

(** The sibling path: [processNextTask] starts a task only when all its
    declared dependencies are completed. *)
Lemma processNextTask_respects_dependencies o :
  NoDup (JSMap.keys (Orch.tasks o)) ->
  forall taskId task,
    JSMap.get taskId (Orch.tasks o) = Some task ->
    status task <> in_progress ->
    Orch.status_of (Orch.processNextTask listener o) taskId = Some in_progress ->
    forall deps depId,
      dependencies task = Some deps -> In depId deps ->
      Orch.status_of o depId = Some completed.
Proof.
  intros Hnd taskId task Hget Hnot Hstarted deps depId Hdeps Hdep.
  set (P := fun o' : Orch.Orchestrator =>
              NoDup (JSMap.keys (Orch.tasks o'))
              /\ (forall d, Orch.status_of o' d = Some completed ->
                            Orch.status_of o d = Some completed)
              /\ (Orch.status_of o' taskId = Some in_progress
                  -> Orch.status_of o depId = Some completed)
              /\ (Orch.status_of o' taskId = Some in_progress
                  \/ exists task', JSMap.get taskId (Orch.tasks o') = Some task'
                                   /\ dependencies task' = Some deps)).
  assert (HP : P (Orch.processNextTask listener o)).
  { apply (@processNextTask_preserves P).
    - intros next o1 id1 t1 (Hnd1 & Hdone1 & Hin1 & Hdeps1) _ Hin Hel Hnext.
      apply eligible_true in Hel as (Hpending & _ & Hmet).
      apply In_get_nodup in Hin; [|assumption].
      pose proof (@status_of_get _ _ _ Hin) as Hst1. rewrite Hpending in Hst1.
      assert (Hstep : forall o2 t2,
                 Orch.tasks o2 = JSMap.set id1 t2 (Orch.tasks o1) ->
                 status t2 <> completed ->
                 dependencies t2 = dependencies t1 ->
                 (status t2 = in_progress \/ status t2 = failed) ->
                 P o2).
      { intros o2 t2 E2 Hnc Hd2 Hs2. split; [rewrite E2; now apply nodup_keys_set|].
        split; [|split].
        - intros d Hd. destruct (string_dec id1 d) as [<-|Hne].
          + rewrite (@status_of_set_same _ _ _ _ E2) in Hd. congruence.
          + rewrite (@status_of_set_other _ _ _ _ _ E2 Hne) in Hd. auto.
        - intros Hip. destruct (string_dec id1 taskId) as [->|Hne].
          + destruct Hdeps1 as [Hbad | (task' & Hget' & Hdeps')]; [congruence|].
            assert (t1 = task') as -> by congruence.
            apply Hdone1. unfold Orch.dependenciesMet in Hmet.
            rewrite Hdeps' in Hmet. rewrite forallb_forall in Hmet.
            specialize (Hmet depId Hdep). unfold Orch.status_of.
            destruct (JSMap.get depId (Orch.tasks o1)) as [d|]; [|discriminate].
            simpl. f_equal. now apply status_is_true.
          + rewrite (@status_of_set_other _ _ _ _ _ E2 Hne) in Hip. auto.
        - destruct (string_dec id1 taskId) as [->|Hne].
          + right. exists t2. split; [now rewrite E2, get_set_same|].
            destruct Hdeps1 as [Hbad | (task' & Hget' & Hdeps')]; [congruence|].
            assert (t1 = task') as -> by congruence. congruence.
          + destruct Hdeps1 as [Hip | (task' & Hget' & Hdeps')].
            * left. now rewrite (@status_of_set_other _ _ _ _ _ E2 Hne).
            * right. exists task'. split; [|assumption].
              now rewrite E2, get_set_other. }
      destruct (executeTask_cases next o1 id1)
        as [[_ E] | (tk & Hg & _ & [[_ E] | [_ E]])]; rewrite E.
      + repeat split; assumption.
      + assert (tk = t1) as -> by congruence.
        apply (Hstep _ (with_status t1 in_progress)); simpl; auto; discriminate.
      + assert (tk = t1) as -> by congruence. apply Hnext.
        apply (Hstep _ (with_status_result t1 failed)); simpl; auto; discriminate.
    - split; [assumption|]. split; [auto|]. split.
      + intros Hip. rewrite (@status_of_get _ _ _ Hget) in Hip. congruence.
      + right. now exists task. }
  destruct HP as (_ & _ & Hin & _). auto.
Qed.

(** The immediate path: with a free slot, [submitTask] puts a task that is
    not already running in_progress, whatever its dependencies, as long as
    the listeners of task:submitted and task:started return. *)
Lemma submitTask_starts_whatever_the_dependencies o task :
  description task <> "" -> type_ task <> "" ->
  List.length (Orch.runningTasks o) < Orch.maxConcurrentTasks o ->
  ~ In (id task) (Orch.runningTasks o) ->
  Orch.returns listener Orch.task_submitted ->
  Orch.returns listener Orch.task_started ->
  Orch.status_of (snd (Orch.submitTask listener o task)) (id task) = Some in_progress.
Proof.
  intros Hd Ht Hfree Hnot Hsub Hstart. unfold Orch.submitTask.
  apply String.eqb_neq in Hd, Ht. rewrite Hd, Ht. simpl.
  rewrite Hsub. simpl.
  apply Nat.ltb_lt in Hfree. rewrite Hfree. simpl.
  unfold Orch.executeTask. simpl. rewrite get_set_same.
  apply mem_not_In in Hnot. rewrite Hnot.
  unfold Orch.emit. rewrite Hstart.
  unfold Orch.status_of. simpl. now rewrite get_set_same.
Qed.

(** *** The concurrency ceiling *)

Lemma slots_ok_store o taskId t suspended' emitted' :
  Orch.slots_ok o ->
  (status t = in_progress -> In taskId (Orch.runningTasks o)) ->
  Orch.slots_ok (Orch.mkOrch (JSMap.set taskId t (Orch.tasks o)) (Orch.runningTasks o)
                             suspended' (Orch.maxConcurrentTasks o) emitted').
Proof.
  intros [Hk Hr Hb Hp] Ht. constructor; simpl; trivial.
  - now apply nodup_keys_set.
  - intros k t' Hget Hst.
    destruct (string_dec taskId k) as [->|Hne].
    + rewrite get_set_same in Hget. injection Hget as <-. now apply Ht.
    + rewrite get_set_other in Hget by assumption. eapply Hp; eassumption.
Qed.

Lemma slots_ok_executeTask next o taskId :
  Orch.slots_ok o ->
  List.length (Orch.runningTasks o) < Orch.maxConcurrentTasks o ->
  (forall o', Orch.slots_ok o' -> Orch.slots_ok (next o')) ->
  Orch.slots_ok (Orch.executeTask listener next o taskId).
Proof.
  intros Hok Hfree Hnext.
  destruct (executeTask_cases next o taskId)
    as [[_ E] | (task & Hget & Hnot & [[_ E] | [_ E]])]; rewrite E; [exact Hok | |].
  - destruct Hok as [Hk Hr Hb Hp]. constructor; simpl.
    + now apply nodup_keys_set.
    + apply NoDup_app; [assumption | repeat constructor; simpl; tauto |].
      intros x Hx [<-|[]]. contradiction.
    + rewrite length_app. simpl. lia.
    + intros k t' Hget' Hst. apply in_or_app.
      destruct (string_dec taskId k) as [->|Hne]; [right; now left|].
      rewrite get_set_other in Hget' by assumption. left. eapply Hp; eassumption.
  - apply Hnext. apply slots_ok_store; [exact Hok | discriminate].
Qed.

Lemma slots_ok_processNextTask o :
  Orch.slots_ok o -> Orch.slots_ok (Orch.processNextTask listener o).
Proof.
  apply (@processNextTask_preserves Orch.slots_ok).
  intros next o1 taskId task Hok Hfree _ _ Hnext. now apply slots_ok_executeTask.
Qed.

Lemma slots_ok_settle o taskId succeeded :
  Orch.slots_ok o -> Orch.slots_ok (Orch.executeTask_settle listener o taskId succeeded).
Proof.
  intros Hok. unfold Orch.executeTask_settle.
  destruct (JSMap.get taskId (Orch.suspended o)) as [task|]; [|exact Hok].
  apply slots_ok_processNextTask.
  destruct (executeTask_resume_spec o taskId task succeeded)
    as (final & history & Hfinal & ->).
  destruct Hok as [Hk Hr Hb Hp]. constructor; simpl.
  - now apply nodup_keys_set.
  - now apply NoDup_filter.
  - pose proof (length_set_delete taskId (Orch.runningTasks o)). lia.
  - intros k t' Hget' Hst. apply In_set_delete.
    destruct (string_dec taskId k) as [->|Hne].
    + rewrite get_set_same in Hget'. injection Hget' as <-.
      destruct (final_status_ended o task succeeded); congruence.
    + rewrite get_set_other in Hget' by assumption.
      split; [eapply Hp; eassumption | congruence].
Qed.

Lemma slots_ok_step o e :
  Orch.submits_pending e = true -> Orch.slots_ok o ->
  Orch.slots_ok (Orch.step listener o e).
Proof.
  intros Hpending Hok. destruct e as [task | taskId succeeded | taskId]; simpl.
  - unfold Orch.submitTask.
    destruct (_ || _); [exact Hok|].
    simpl in Hpending. apply status_is_true in Hpending.
    unfold Orch.emit, Orch.store. simpl.
    assert (Hstored : forall emitted',
               Orch.slots_ok (Orch.mkOrch (JSMap.set (id task) task (Orch.tasks o))
                                          (Orch.runningTasks o) (Orch.suspended o)
                                          (Orch.maxConcurrentTasks o) emitted')).
    { intros emitted'. apply slots_ok_store; [exact Hok | congruence]. }
    destruct (listener _ _); simpl; [apply Hstored|].
    destruct (Nat.ltb _ _) eqn:Hfree; simpl; [|apply Hstored].
    apply slots_ok_executeTask; [apply Hstored | | apply slots_ok_processNextTask].
    now apply Nat.ltb_lt in Hfree.
  - now apply slots_ok_settle.
  - unfold Orch.cancelTask.
    destruct (JSMap.get taskId (Orch.tasks o)) as [task|]; [|exact Hok].
    destruct (Orch.status_is in_progress task); [exact Hok|].
    unfold Orch.emit, Orch.store. simpl.
    destruct (listener _ _); simpl; (apply slots_ok_store; [exact Hok | discriminate]).
Qed.

Lemma executeTask_ceiling next o taskId :
  (forall o', Orch.maxConcurrentTasks (next o') = Orch.maxConcurrentTasks o') ->
  Orch.maxConcurrentTasks (Orch.executeTask listener next o taskId)
  = Orch.maxConcurrentTasks o.
Proof.
  intros Hnext.
  destruct (executeTask_cases next o taskId)
    as [[_ E] | (task & _ & _ & [[_ E] | [_ E]])]; rewrite E; [reflexivity.. |].
  now rewrite Hnext.
Qed.

Lemma processNextTask_ceiling o :
  Orch.maxConcurrentTasks (Orch.processNextTask listener o) = Orch.maxConcurrentTasks o.
Proof.
  unfold Orch.processNextTask. generalize (S (Orch.pending_count o)) as depth.
  intros depth. revert o. induction depth as [|depth IH]; intros o; simpl; [reflexivity|].
  destruct (Nat.leb _ _); [reflexivity|].
  destruct (find _ _) as [[taskId task]|]; [|reflexivity].
  now apply executeTask_ceiling.
Qed.

Lemma ceiling_kept o e :
  Orch.maxConcurrentTasks (Orch.step listener o e) = Orch.maxConcurrentTasks o.
Proof.
  destruct e as [task | taskId succeeded | taskId]; simpl.
  - unfold Orch.submitTask. destruct (_ || _); [reflexivity|].
    unfold Orch.emit, Orch.store. simpl. destruct (listener _ _); [reflexivity|].
    destruct (Nat.ltb _ _); simpl; [|reflexivity].
    rewrite executeTask_ceiling; [reflexivity | apply processNextTask_ceiling].
  - unfold Orch.executeTask_settle.
    destruct (JSMap.get _ _) as [task|]; [|reflexivity].
    rewrite processNextTask_ceiling.
    now destruct (executeTask_resume_spec o taskId task succeeded)
      as (final & history & _ & ->).
  - unfold Orch.cancelTask. destruct (JSMap.get _ _) as [task|]; [|reflexivity].
    destruct (Orch.status_is _ _); [reflexivity|].
    unfold Orch.emit, Orch.store. simpl. now destruct (listener _ _).
Qed.

Lemma run_snoc k events e :
  Orch.run listener k (events ++ [e]) = Orch.step listener (Orch.run listener k events) e.
Proof. unfold Orch.run. now rewrite fold_left_app. Qed.

Lemma run_ceiling k events : Orch.maxConcurrentTasks (Orch.run listener k events) = k.
Proof.
  induction events as [|e events IH] using rev_ind; [reflexivity|].
  now rewrite run_snoc, ceiling_kept.
Qed.

Lemma slots_ok_run k events :
  forallb Orch.submits_pending events = true ->
  Orch.slots_ok (Orch.run listener k events).
Proof.
  induction events as [|e events IH] using rev_ind; intros Hall.
  - constructor; simpl;
      [constructor | constructor | lia | intros ? ? H; discriminate].
  - rewrite forallb_app in Hall. apply andb_prop in Hall as [Hall He].
    simpl in He. rewrite andb_true_r in He.
    rewrite run_snoc. apply slots_ok_step; auto.
Qed.

Lemma nodup_keys_filter (f : string * Task -> bool) (m : JSMap.t Task) :
  NoDup (JSMap.keys m) -> NoDup (JSMap.keys (filter f m)).
Proof.
  induction m as [|kv m IH]; simpl; intros Hnd; [constructor|].
  inversion Hnd as [|? ? Hnotin Hnd']; subst.
  destruct (f kv); simpl; [|now apply IH].
  constructor; [|now apply IH].
  intros Hin. apply Hnotin. unfold JSMap.keys in *.
  apply in_map_iff in Hin as (x & Hx & Hin). apply filter_In in Hin as [Hin _].
  apply in_map_iff. now exists x.
Qed.

Lemma in_progress_count_le_running o :
  Orch.slots_ok o -> Orch.in_progress_count o <= List.length (Orch.runningTasks o).
Proof.
  intros [Hk Hr Hb Hp]. unfold Orch.in_progress_count.
  rewrite <- (length_map fst).
  apply NoDup_incl_length; [now apply nodup_keys_filter|].
  intros k Hin. apply in_map_iff in Hin as ([k' t] & <- & Hin).
  apply filter_In in Hin as [Hin Hst]. simpl in *.
  apply (Hp k' t); [now apply In_get_nodup | now apply status_is_true].
Qed.

End OrchestratorProperties.

(** C3 (as the code has it).  With [maxConcurrentTasks = k], after any
    sequence of submissions, settlements and cancellations in which every
    submitted task carries status pending, at most [k] tasks are recorded as
    in_progress, and at most [k] slots are taken, whether the event
    listeners return or throw. *)
Theorem C3_in_progress_bounded_when_submitted_pending :
  forall (listener : list Orch.Emitted -> Orch.Emitted -> option string)
         (k : nat) (events : list Orch.Event),
    forallb Orch.submits_pending events = true ->
    Orch.in_progress_count (Orch.run listener k events) <= k
    /\ List.length (Orch.runningTasks (Orch.run listener k events)) <= k.
Proof.
  intros listener k events Hall.
  pose proof (slots_ok_run listener k events Hall) as Hok.
  pose proof (in_progress_count_le_running Hok) as Hcount.
  pose proof (Orch.running_bounded Hok) as Hbound.
  rewrite run_ceiling in Hbound. lia.
Qed.

(** *** Status changes *)

Section StatusProperties.
Variable listener : list Orch.Emitted -> Orch.Emitted -> option string.
Implicit Types (o : Orch.Orchestrator) (e : Orch.Event) (t : Task).








(** The listeners of task:started and task:completed return. *)
Hypothesis started_returns : Orch.returns listener Orch.task_started.
Hypothesis completed_returns : Orch.returns listener Orch.task_completed.







End StatusProperties.


(** C1 fails on the immediate path: with three free slots, a task
    submitted with a dependency on a task that is still in_progress is put
    in_progress at once, although [dependenciesMet] is false for it. *)
Lemma C1_submitTask_starts_task_with_unmet_dependency :
  let t1 := Orch.task "t1" pending None in
  let t2 := Orch.task "t2" pending (Some ["t1"]) in
  let o := Orch.run Orch.quiet 3 [Orch.Submit t1; Orch.Submit t2] in
  Orch.status_of o "t1" = Some in_progress
  /\ Orch.status_of o "t2" = Some in_progress
  /\ Orch.dependenciesMet (Orch.run Orch.quiet 3 [Orch.Submit t1]) t2 = false.
Proof. repeat split. Qed.


(** With a throwing task:started listener a task goes from pending to
    failed within one call: it is recorded in_progress, announced, and
    recorded failed before [executeTask] returns, and its slot is free
    again. *)
Lemma throwing_started_listener_fails_the_task :
  let t1 := Orch.task "t1" pending None in
  let o := Orch.run (Orch.rejects Orch.task_started) 3 [Orch.Submit t1] in
  Orch.status_of o "t1" = Some failed
  /\ Orch.runningTasks o = []
  /\ map Orch.event (Orch.emitted o)
     = [Orch.task_submitted; Orch.task_started; Orch.task_failed].
Proof. repeat split. Qed.


(** C3 as stated fails: with a ceiling of one, two tasks submitted with
    status in_progress are both recorded as in_progress, though only one
    slot is taken. *)
Lemma C3_tasks_submitted_in_progress_exceed_ceiling :
  let o := Orch.run Orch.quiet 1 [Orch.Submit (Orch.task "t1" in_progress None);
                                  Orch.Submit (Orch.task "t2" in_progress None)] in
  Orch.in_progress_count o = 2
  /\ Orch.runningTasks o = ["t1"]
  /\ ~ Orch.in_progress_count o <= 1.
Proof. repeat split. vm_compute. lia. Qed.

Lemma C3_witness :
  Orch.in_progress_count
    (Orch.run Orch.quiet 1 [Orch.Submit (Orch.task "t1" pending None);
                            Orch.Submit (Orch.task "t2" pending None)]) <= 1
  /\ List.length
       (Orch.runningTasks
          (Orch.run Orch.quiet 1 [Orch.Submit (Orch.task "t1" pending None);
                                  Orch.Submit (Orch.task "t2" pending None)])) <= 1.
Proof.
  exact (@C3_in_progress_bounded_when_submitted_pending Orch.quiet 1
           [Orch.Submit (Orch.task "t1" pending None);
            Orch.Submit (Orch.task "t2" pending None)] eq_refl).
Defined.

(* ------------------------------------------------------------------ *)
(** ** ModelRouter: batches and retries *)

Section ChunkProperties.
Variable A : Type.
Implicit Types (rest array : list A).

Lemma chunk_loop_concat fuel size rest :
  1 <= size -> List.length rest <= fuel ->
  List.concat (RouterOps.chunk_loop fuel size rest) = rest.
Proof.
  intros Hsize. revert rest.
  induction fuel as [|fuel IH]; intros rest Hlen; simpl.
  - destruct rest; [reflexivity | simpl in Hlen; lia].
  - destruct rest as [|x rest']; [reflexivity|].
    change (firstn size (x :: rest')
            ++ List.concat (RouterOps.chunk_loop fuel size (skipn size (x :: rest')))
            = x :: rest').
    rewrite IH; [apply firstn_skipn|].
    rewrite length_skipn. cbn [List.length] in *. lia.
Qed.

Lemma chunk_loop_sizes fuel size rest :
  1 <= size ->
  Forall (fun chunk => 1 <= List.length chunk <= size)
         (RouterOps.chunk_loop fuel size rest).
Proof.
  intros Hsize. revert rest.
  induction fuel as [|fuel IH]; intros rest; simpl; [constructor|].
  destruct rest as [|x rest']; [constructor|].
  constructor; [|apply IH].
  rewrite length_firstn. simpl List.length. lia.
Qed.

Lemma chunk_loop_full fuel size rest :
  forall chunks last,
    RouterOps.chunk_loop fuel size rest = chunks ++ [last] ->
    Forall (fun chunk => List.length chunk = size) chunks.
Proof.
  revert rest. induction fuel as [|fuel IH]; intros rest chunks last; simpl.
  - intros H. now destruct chunks.
  - destruct rest as [|x rest']; [intros H; now destruct chunks|].
    set (l := x :: rest') in *.
    destruct chunks as [|c chunks]; intros H; [constructor|].
    simpl in H. injection H as <- Hrest.
    constructor; [|now apply (IH _ _ _ Hrest)].
    rewrite length_firstn.
    assert (Hne : skipn size l <> []).
    { intros E. rewrite E in Hrest.
      destruct fuel; simpl in Hrest; now destruct chunks. }
    assert (size < List.length l).
    { destruct (Nat.lt_ge_cases size (List.length l)) as [|Hge]; [assumption|].
      exfalso. apply Hne. now apply skipn_all2. }
    lia.
Qed.
End ChunkProperties.

(** X1.  For a chunk size of at least one, [chunkArray] splits the array
    without losing, adding or reordering an element: the chunks
    concatenated give the array back; no chunk is empty or longer than
    [size]; every chunk but the last has exactly [size] elements. *)
Theorem X1_chunkArray_partitions_the_array :
  forall (A : Type) (array : list A) (size : nat),
    1 <= size ->
    List.concat (RouterOps.chunkArray array size) = array
    /\ Forall (fun chunk => 1 <= List.length chunk <= size)
              (RouterOps.chunkArray array size)
    /\ forall chunks last,
         RouterOps.chunkArray array size = chunks ++ [last] ->
         Forall (fun chunk => List.length chunk = size) chunks.
Proof.
  intros A array size Hsize. unfold RouterOps.chunkArray. split; [|split].
  - now apply chunk_loop_concat.
  - now apply chunk_loop_sizes.
  - apply chunk_loop_full.
Qed.

Lemma X1_witness :
  RouterOps.chunkArray [1; 2; 3; 4; 5; 6; 7] 5 = [[1; 2; 3; 4; 5]; [6; 7]]
  /\ List.concat (RouterOps.chunkArray [1; 2; 3; 4; 5; 6; 7] 5) = [1; 2; 3; 4; 5; 6; 7].
Proof.
  split; [reflexivity|].
  apply (proj1 (@X1_chunkArray_partitions_the_array nat [1; 2; 3; 4; 5; 6; 7] 5
                  ltac:(lia))).
Defined.

Section RetryProperties.
Variable backend : string -> nat -> Result Router.BackendResponse.

(** What a run of the retry loop from attempt [a] did. *)
Lemma attempts_spec modelName remaining :
  forall a lastError,
    let run := Router.attempts backend modelName remaining a lastError in
    let n := List.length (snd run) in
    snd run = map (fun i => (modelName, i)) (seq a n)
    /\ n <= remaining
    /\ (forall i, a <= i < a + n - 1 -> exists e, backend modelName i = Throw e)
    /\ match fst run with
       | Ok z => 1 <= n /\ backend modelName (a + n - 1) = Ok z
       | Throw e =>
           n = remaining
           /\ (remaining = 0 -> e = lastError)
           /\ (1 <= remaining -> backend modelName (a + n - 1) = Throw e)
       end.
Proof.
  induction remaining as [|remaining IH]; intros a lastError; simpl.
  - repeat split; intros; lia.
  - destruct (backend modelName a) as [z|e] eqn:Hcall; simpl.
    + repeat split; try (intros; lia).
      now replace (a + 1 - 1) with a by lia.
    + specialize (IH (S a) e). simpl in IH.
      destruct (Router.attempts backend modelName remaining (S a) e)
        as [res made] eqn:Hrest.
      simpl in *. destruct IH as (Hmade & Hlen & Hfailed & Hres).
      split; [now rewrite Hmade at 1|]. split; [lia|]. split.
      * intros i Hi. destruct (Nat.eq_dec i a) as [->|Hne]; [eauto|].
        apply Hfailed. lia.
      * destruct res as [z|e'].
        -- destruct Hres as [H1 H2]. split; [lia|].
           now replace (a + S (List.length made) - 1)
             with (S a + List.length made - 1) by lia.
        -- destruct Hres as (H1 & H2 & H3). split; [lia|].
           split; [lia|]. intros _.
           destruct remaining as [|remaining'].
           ++ assert (List.length made = 0) by lia.
              rewrite H. replace (a + 1 - 1) with a by lia.
              now rewrite (H2 eq_refl).
           ++ replace (a + S (List.length made) - 1)
                with (S a + List.length made - 1) by lia.
              apply H3. lia.
Qed.

(** X2.  [executeWithRetry] calls the backend for attempts 1, 2, ..., R
    with R <= maxRetries and nothing else; every attempt before the last
    failed; it returns the answer of attempt R when that one succeeded, and
    otherwise R = maxRetries and it throws the error of that last attempt. *)
Theorem X2_executeWithRetry_stops_at_first_success :
  forall (r : Router.ModelRouter) (modelName : string),
    let run := Router.executeWithRetry backend r modelName in
    exists R,
      R <= Router.maxRetries (Router.config r)
      /\ Router.backendCalls (snd run)
         = Router.backendCalls r ++ map (fun i => (modelName, i)) (seq 1 R)
      /\ (forall i, 1 <= i < R -> exists e, backend modelName i = Throw e)
      /\ match fst run with
         | Ok z => 1 <= R /\ backend modelName R = Ok z
         | Throw e =>
             R = Router.maxRetries (Router.config r)
             /\ (1 <= R -> backend modelName R = Throw e)
         end.
Proof.
  intros r modelName. unfold Router.executeWithRetry.
  pose proof (attempts_spec modelName (Router.maxRetries (Router.config r))
                            1 "undefined") as H.
  destruct (Router.attempts backend modelName _ 1 "undefined") as [res made].
  cbn [fst snd Router.backendCalls] in *.
  destruct H as (Hmade & Hlen & Hfailed & Hres).
  exists (List.length made). split; [exact Hlen|].
  split; [now rewrite Hmade at 1|]. split.
  - intros i Hi. apply Hfailed. lia.
  - destruct res as [z|e].
    + destruct Hres as [H1 H2]. split; [exact H1|].
      now replace (1 + List.length made - 1) with (List.length made) in H2 by lia.
    + destruct Hres as (H1 & _ & H3). split; [exact H1|]. intros HR.
      replace (1 + List.length made - 1) with (List.length made) in H3 by lia.
      apply H3. lia.
Qed.

Lemma backoff_delay_bounds attempt :
  1 <= attempt ->
  (1000 <= RouterOps.backoff_delay attempt <= 10000)%Z
  /\ (RouterOps.backoff_delay attempt <= RouterOps.backoff_delay (S attempt))%Z.
Proof.
  intros Ha. unfold RouterOps.backoff_delay.
  assert (H1 : (0 < 2 ^ (Z.of_nat attempt - 1))%Z)
    by (apply Z.pow_pos_nonneg; lia).
  assert (H2 : (2 ^ (Z.of_nat attempt - 1) <= 2 ^ (Z.of_nat (S attempt) - 1))%Z)
    by (apply Z.pow_le_mono_r; lia).
  lia.
Qed.

Lemma attempts_first_call modelName remaining a lastError :
  1 <= List.length (snd (Router.attempts backend modelName (S remaining) a lastError)).
Proof.
  simpl. destruct (backend modelName a); simpl; [lia|].
  destruct (Router.attempts backend modelName remaining (S a) _). simpl. lia.
Qed.

Lemma waits_spec modelName maxRetries remaining :
  forall a lastError,
    a + remaining = S maxRetries ->
    RouterOps.waits backend modelName maxRetries remaining a
    = map RouterOps.backoff_delay
          (seq a (List.length
                    (snd (Router.attempts backend modelName remaining a lastError))
                  - 1)).
Proof.
  induction remaining as [|remaining IH]; intros a lastError Hsum; simpl;
    [reflexivity|].
  destruct (backend modelName a) as [z|e] eqn:Hcall; simpl; [reflexivity|].
  rewrite (IH (S a) e) by lia.
  pose proof (attempts_first_call modelName (remaining - 1) (S a) e) as Hfirst.
  destruct (Router.attempts backend modelName remaining (S a) e)
    as [res made] eqn:Hrest.
  simpl. rewrite Nat.sub_0_r.
  destruct (Nat.ltb_spec a maxRetries) as [Hlt|Hge].
  - replace (S (remaining - 1)) with remaining in Hfirst by lia.
    rewrite Hrest in Hfirst. simpl in Hfirst.
    destruct made as [|c made]; [simpl in Hfirst; lia|].
    simpl. now rewrite Nat.sub_0_r.
  - assert (remaining = 0) as -> by lia.
    simpl in Hrest. injection Hrest as _ <-. reflexivity.
Qed.

(** X3.  Between the attempts of [executeWithRetry] the router sleeps
    [min(1000 * 2^(i-1), 10000)] ms after failed attempt [i], for every
    attempt made but the last: R - 1 delays for R attempts, each between
    1000 and 10000 ms, so at most 10000 * (maxRetries - 1) ms in all. *)
Theorem X3_executeWithRetry_backoff_is_doubling_and_capped :
  forall (r : Router.ModelRouter) (modelName : string),
    let R := List.length
               (snd (Router.attempts backend modelName
                       (Router.maxRetries (Router.config r)) 1 "undefined")) in
    let delays := RouterOps.executeWithRetry_waits backend r modelName in
    delays = map RouterOps.backoff_delay (seq 1 (R - 1))
    /\ Forall (fun d => (1000 <= d <= 10000)%Z) delays
    /\ (fold_right Z.add 0 delays
        <= 10000 * Z.of_nat (Router.maxRetries (Router.config r) - 1))%Z
    /\ RouterOps.backoff_delay 1 = 1000%Z
    /\ RouterOps.backoff_delay 2 = 2000%Z
    /\ RouterOps.backoff_delay 4 = 8000%Z
    /\ RouterOps.backoff_delay 5 = 10000%Z.
Proof.
  intros r modelName R delays.
  assert (Hdelays : delays = map RouterOps.backoff_delay (seq 1 (R - 1))).
  { unfold delays, RouterOps.executeWithRetry_waits, R.
    apply waits_spec. lia. }
  assert (HR : R <= Router.maxRetries (Router.config r)).
  { pose proof (attempts_spec modelName (Router.maxRetries (Router.config r))
                              1 "undefined") as H.
    simpl in H. unfold R. tauto. }
  assert (Hbounds : forall a n, 1 <= a ->
             Forall (fun d => (1000 <= d <= 10000)%Z)
                    (map RouterOps.backoff_delay (seq a n))
             /\ (fold_right Z.add 0 (map RouterOps.backoff_delay (seq a n))
                 <= 10000 * Z.of_nat n)%Z).
  { intros a n. revert a. induction n as [|n IH]; intros a Ha; simpl.
    - split; [constructor | lia].
    - destruct (IH (S a) ltac:(lia)) as [IH1 IH2].
      pose proof (backoff_delay_bounds Ha) as [Hb _].
      split; [now constructor | lia]. }
  destruct (Hbounds 1 (R - 1) ltac:(lia)) as [Hall Hsum].
  rewrite Hdelays. split; [reflexivity|]. split; [exact Hall|]. split.
  - eapply Z.le_trans; [exact Hsum|]. lia.
  - repeat split; reflexivity.
Qed.
End RetryProperties.
(* ------------------------------------------------------------------ *)
(** ** ModelRouter: metrics, rate limit, streaming, health *)

Lemma In_set_inv (V : Type) (k k' : string) (v v' : V) (m : JSMap.t V) :
  In (k', v') (JSMap.set k v m) -> (k' = k /\ v' = v) \/ In (k', v') m.
Proof.
  induction m as [|[k0 v0] m IH]; simpl.
  - intros [E|[]]. injection E as <- <-. now left.
  - destruct (String.eqb_spec k k0) as [->|Hne]; simpl.
    + intros [E|Hin]; [injection E as <- <-; now left | right; now right].
    + intros [E|Hin]; [right; now left|].
      destruct (IH Hin) as [H|H]; [now left | right; now right].
Qed.

Section RouterMetricsProperties.
Variable backend : string -> nat -> Result Router.BackendResponse.
Implicit Types (r : Router.ModelRouter) (request : Router.ModelRequest).

(** [checkRateLimit] touches nothing but the request times. *)
Lemma checkRateLimit_frame r now :
  let r1 := snd (Router.checkRateLimit r now) in
  Router.config r1 = Router.config r /\ Router.models r1 = Router.models r
  /\ Router.zai r1 = Router.zai r /\ Router.metrics r1 = Router.metrics r
  /\ Router.backendCalls r1 = Router.backendCalls r.
Proof.
  unfold Router.checkRateLimit.
  destruct (find _ _) as [[m w]|]; simpl; repeat split; reflexivity.
Qed.

Lemma executeWithRetry_frame r modelName :
  let r2 := snd (Router.executeWithRetry backend r modelName) in
  Router.config r2 = Router.config r /\ Router.models r2 = Router.models r
  /\ Router.zai r2 = Router.zai r /\ Router.metrics r2 = Router.metrics r
  /\ Router.requestTimes r2 = Router.requestTimes r.
Proof.
  unfold Router.executeWithRetry.
  destruct (Router.attempts _ _ _ _ _); simpl; repeat split; reflexivity.
Qed.

(** The shape of a [generateResponse] call on an initialized router: it
    throws before any backend answer, or the backend has answered and the
    outcome is that of [updateMetrics]. *)
Lemma generateResponse_cases r request t0 t1 :
  Router.zai r = true ->
  let run := Router.generateResponse backend r request t0 t1 in
  let r1 := snd (Router.checkRateLimit r t0) in
  (exists e r', run = (Throw e, Router.count_error r')
                /\ Router.metrics r' = Router.metrics r
                /\ Router.requestTimes r' = Router.requestTimes r1)
  \/ (exists modelName z r2,
         fst (Router.checkRateLimit r t0) = Ok tt
         /\ Router.selectModel r1 request = Some modelName
         /\ Router.executeWithRetry backend r1 modelName = (Ok z, r2)
         /\ Router.metrics r2 = Router.metrics r
         /\ run = match Router.updateMetrics r2 z (t1 - t0) with
                  | (Throw e, r3) => (Throw e, Router.count_error r3)
                  | (Ok _, r3) => (Ok (Router.transformResponse z modelName), r3)
                  end).
Proof.
  intros Hzai run r1. subst run. unfold Router.generateResponse.
  rewrite Hzai. simpl.
  pose proof (checkRateLimit_frame r t0) as (_ & _ & _ & Hm1 & _).
  fold r1 in Hm1.
  destruct (Router.checkRateLimit r t0) as [[[]|e] r1'] eqn:Hcheck; simpl in *.
  2:{ left. exists e, r1'. repeat split; assumption. }
  subst r1.
  destruct (Router.selectModel r1' request) as [modelName|] eqn:Hsel;
    [|left; eexists; exists r1'; repeat split; assumption].
  destruct (JSMap.get modelName (Router.models r1'));
    [|left; eexists; exists r1'; repeat split; assumption].
  pose proof (executeWithRetry_frame r1' modelName) as (_ & _ & _ & Hm2 & Ht2).
  destruct (Router.executeWithRetry backend r1' modelName) as [[z|e] r2] eqn:Hexec;
    simpl in *.
  - right. exists modelName, z, r2.
    split; [reflexivity|]. split; [first [reflexivity | exact Hsel]|].
    split; [first [exact Hexec | reflexivity]|].
    split; [congruence | reflexivity].
  - left. exists e, r2. repeat split; congruence.
Qed.

(** A backend answer is the answer of one of the calls. *)
Lemma executeWithRetry_answer r modelName z r2 :
  Router.executeWithRetry backend r modelName = (Ok z, r2) ->
  exists attempt, 1 <= attempt /\ backend modelName attempt = Ok z.
Proof.
  unfold Router.executeWithRetry. intros Hexec.
  pose proof (attempts_spec backend modelName (Router.maxRetries (Router.config r))
                            1 "undefined") as Hspec.
  destruct (Router.attempts backend modelName _ 1 "undefined") as [res made].
  injection Hexec as -> _. cbn [fst snd] in Hspec.
  destruct Hspec as (_ & _ & _ & Hlen & Hlast).
  eexists. split; [|exact Hlast]. lia.
Qed.

(** X4.  How [generateResponse] counts on an initialized router: a call
    that returns adds one to [metrics.requests] and leaves [metrics.errors];
    a call that throws (rate limit, unknown model, backend failure) adds one
    to [metrics.errors], and leaves [metrics.requests], with one exception:
    when the backend has answered without a [usage] object, the call has
    been counted as a request before [updateMetrics] throws, so it counts as
    a request and as an error.  On a router that is not initialized the call
    throws "ModelRouter not initialized" and changes nothing. *)
Theorem X4_generateResponse_counts_requests_and_errors :
  forall r request (t0 t1 : Z),
    let run := Router.generateResponse backend r request t0 t1 in
    let m := Router.metrics r in
    let m' := Router.metrics (snd run) in
    if Router.zai r then
      match fst run with
      | Ok _ => Router.requests m' = (Router.requests m + 1)%Z
                /\ Router.errors m' = Router.errors m
      | Throw e =>
          Router.errors m' = (Router.errors m + 1)%Z
          /\ (Router.requests m' = Router.requests m
              \/ (Router.requests m' = (Router.requests m + 1)%Z
                  /\ e = Router.no_usage_message
                  /\ exists modelName attempt z,
                       backend modelName attempt = Ok z
                       /\ Router.usage z = None))
      end
    else run = (Throw "ModelRouter not initialized", r).
Proof.
  intros r request t0 t1 run m m'.
  destruct (Router.zai r) eqn:Hzai.
  2:{ subst run. unfold Router.generateResponse. now rewrite Hzai. }
  destruct (generateResponse_cases r request t0 t1 Hzai)
    as [(e & r' & Hrun & Hm & _)
       | (modelName & z & r2 & _ & _ & Hexec & Hm2 & Hrun)];
    subst m'; fold run in Hrun; rewrite Hrun.
  - simpl. rewrite Hm. split; [reflexivity | now left].
  - apply executeWithRetry_answer in Hexec as (attempt & _ & Hcall).
    unfold Router.updateMetrics.
    destruct (Router.usage z) as [u|] eqn:Husage; simpl; rewrite Hm2.
    + split; reflexivity.
    + split; [reflexivity|]. right. split; [reflexivity|].
      split; [reflexivity|]. now exists modelName, attempt, z.
Qed.

Lemma length_last_n (A : Type) (n : nat) (l : list A) :
  List.length (Router.last_n n l) <= n.
Proof. unfold Router.last_n. rewrite length_skipn. lia. Qed.

Lemma last_n_snoc (A : Type) (n : nat) (l : list A) (x : A) :
  1 <= n -> exists older, Router.last_n n (l ++ [x]) = older ++ [x].
Proof.
  intros Hn. unfold Router.last_n. rewrite length_app. simpl.
  exists (skipn (List.length l + 1 - n) l).
  rewrite skipn_app.
  replace (List.length l + 1 - n - List.length l) with 0 by lia.
  reflexivity.
Qed.

(** X5.  The latency sample stays bounded: after a call that returns,
    [metrics.latency] holds at most 100 measurements and the newest one,
    [endTime - startTime], is last; a call that throws leaves the sample as
    it was. *)
Theorem X5_latency_sample_keeps_last_hundred :
  forall r request (t0 t1 : Z),
    Router.zai r = true ->
    let run := Router.generateResponse backend r request t0 t1 in
    let sample := Router.latency (Router.metrics (snd run)) in
    match fst run with
    | Ok _ => List.length sample <= 100
              /\ exists older, sample = older ++ [(t1 - t0)%Z]
    | Throw _ => sample = Router.latency (Router.metrics r)
    end.
Proof.
  intros r request t0 t1 Hzai run sample.
  destruct (generateResponse_cases r request t0 t1 Hzai)
    as [(e & r' & Hrun & Hm & _)
       | (modelName & z & r2 & _ & _ & Hexec & Hm2 & Hrun)];
    subst sample; fold run in Hrun; rewrite Hrun.
  - simpl. now rewrite Hm.
  - unfold Router.updateMetrics.
    destruct (Router.usage z) as [u|]; simpl; rewrite Hm2; [|reflexivity].
    destruct (Nat.ltb_spec 100
                (List.length (Router.latency (Router.metrics r) ++ [(t1 - t0)%Z])))
      as [Hlong|Hshort].
    + split; [apply length_last_n | apply last_n_snoc; lia].
    + split; [lia | eauto].
Qed.

(** X6.  The rate-limit window after a call on an initialized router, for a
    positive window and a positive request count: every request time still
    stored lies inside the window that ends at the call, and after a call
    that was admitted no model holds more request times than the configured
    count. *)
Theorem X6_request_times_stay_within_window_and_count :
  forall r request (t0 t1 : Z),
    Router.zai r = true ->
    (0 < Router.rateLimit_window (Router.config r))%Z ->
    (1 <= Router.rateLimit_requests (Router.config r))%Z ->
    let run := Router.generateResponse backend r request t0 t1 in
    forall m times,
      In (m, times) (Router.requestTimes (snd run)) ->
      Forall (fun t => (t0 - Router.rateLimit_window (Router.config r) < t)%Z) times
      /\ (fst (Router.checkRateLimit r t0) = Ok tt ->
          (Z.of_nat (List.length times)
           <= Router.rateLimit_requests (Router.config r))%Z).
Proof.
  intros r request t0 t1 Hzai Hwindow Hcount run m times Hin.
  assert (Htimes : Router.requestTimes (snd run)
                   = Router.requestTimes (snd (Router.checkRateLimit r t0))).
  { exact (@generateResponse_requestTimes backend r request t0 t1 Hzai). }
  rewrite Htimes in Hin. clear Htimes run.
  assert (Hcleaned : forall m' w, In (m', w) (Router.cleaned r t0) ->
             Forall (fun t => (t0 - Router.rateLimit_window (Router.config r) < t)%Z) w).
  { intros m' w Hw. unfold Router.cleaned in Hw.
    apply in_map_iff in Hw as ([m0 w0] & E & _). injection E as _ <-.
    apply Forall_forall. intros t Ht. unfold Router.in_window in Ht.
    apply filter_In in Ht as [_ Ht]. now apply Z.ltb_lt in Ht. }
  unfold Router.checkRateLimit in *. fold (Router.cleaned r t0) in *.
  destruct (find _ (Router.cleaned r t0)) as [[m' w]|] eqn:Hfind; simpl in *.
  - split; [now apply (Hcleaned m times) | discriminate].
  - assert (Hunder : forall m' w, In (m', w) (Router.cleaned r t0) ->
               (Z.of_nat (List.length w)
                < Router.rateLimit_requests (Router.config r))%Z).
    { intros m' w Hw. apply (find_none _ _ Hfind) in Hw. simpl in Hw.
      rewrite Z.geb_leb in Hw. now apply Z.leb_gt in Hw. }
    apply In_set_inv in Hin as [[-> ->] | Hin].
    + destruct (JSMap.get (Router.defaultModel (Router.config r))
                          (Router.cleaned r t0)) as [w|] eqn:Hget.
      * apply get_In in Hget. split.
        -- apply Forall_app. split; [now apply (Hcleaned _ _ Hget)|].
           constructor; [lia | constructor].
        -- intros _. specialize (Hunder _ _ Hget).
           rewrite length_app. simpl. lia.
      * split; [constructor; [lia | constructor] | intros _; simpl; lia].
    + split; [now apply (Hcleaned m times)|].
      intros _. specialize (Hunder _ _ Hin). lia.
Qed.

(** [selectModel] reads the configuration, the models and the running
    cost, not the request times or the call log. *)
Lemma selectModel_frame r r' request :
  Router.config r' = Router.config r -> Router.models r' = Router.models r ->
  Router.metrics r' = Router.metrics r ->
  Router.selectModel r' request = Router.selectModel r request.
Proof.
  intros Hc Hm Hme. unfold Router.selectModel, Router.projected_cost.
  now rewrite Hc, Hm, Hme.
Qed.

Lemma selectModel_default r request d :
  JSMap.get (Router.defaultModel (Router.config r)) (Router.models r) = Some d ->
  (Router.estimateTokenCount request <= Router.maxTokens d)%Z ->
  Router.costBudget (Router.config r) = None ->
  Router.selectModel r request = Some (Router.defaultModel (Router.config r)).
Proof.
  intros Hd Hfit Hbudget. unfold Router.selectModel. rewrite Hd, Hbudget.
  assert (E : (Router.estimateTokenCount request >? Router.maxTokens d)%Z = false).
  { rewrite Z.gtb_ltb. apply Z.ltb_ge. lia. }
  now rewrite E.
Qed.

(** X8.  [checkModelHealth] probes through [generateResponse]: for a name
    that is not registered it answers "Model not registered" with latency 0
    and touches nothing; for a registered name it reports healthy exactly
    when the probe returned, and, with the default model registered, large
    enough for the probe and no cost budget, every backend call of the probe
    goes to the default model, whichever registered model was named. *)
Theorem X8_checkModelHealth_probes_the_selected_model :
  forall r modelName (startTime t0 t1 endTime : Z),
    let run := RouterOps.checkModelHealth backend r modelName startTime t0 t1 endTime in
    (JSMap.has modelName (Router.models r) = false ->
     run = (RouterOps.mkHealth false 0 (Some "Model not registered"), r))
    /\ (JSMap.has modelName (Router.models r) = true ->
        (RouterOps.healthy (fst run) = true <->
         exists resp,
           fst (Router.generateResponse backend r RouterOps.testRequest t0 t1) = Ok resp)
        /\ forall d,
             Router.zai r = true ->
             JSMap.get (Router.defaultModel (Router.config r)) (Router.models r) = Some d ->
             (2 <= Router.maxTokens d)%Z ->
             Router.costBudget (Router.config r) = None ->
             exists calls,
               Router.backendCalls (snd run) = Router.backendCalls r ++ calls
               /\ Forall (fun call => fst call = Router.defaultModel (Router.config r))
                         calls).
Proof.
  intros r modelName startTime t0 t1 endTime run. subst run.
  unfold RouterOps.checkModelHealth. split.
  - intros Hhas. now rewrite Hhas.
  - intros Hhas. rewrite Hhas. simpl. split.
    + destruct (Router.generateResponse backend r RouterOps.testRequest t0 t1)
        as [[resp|e] r']; simpl; split; eauto; try discriminate.
      intros [resp H]. discriminate.
    + intros d Hzai Hd Hfit Hbudget.
      pose proof (checkRateLimit_frame r t0) as (Hc1 & Hm1 & _ & Hme1 & Hb1).
      unfold Router.generateResponse. rewrite Hzai.
      destruct (Router.checkRateLimit r t0) as [[[]|e1] r1] eqn:Hcheck;
        cbn [fst snd negb] in *.
      2:{ exists []. simpl. rewrite Hb1, app_nil_r. split; [reflexivity | constructor]. }
      rewrite (@selectModel_frame r r1 RouterOps.testRequest Hc1 Hm1 Hme1).
      rewrite (@selectModel_default r RouterOps.testRequest d Hd)
        by (try assumption; simpl; lia).
      rewrite Hm1, Hd.
      pose proof (attempts_spec backend (Router.defaultModel (Router.config r))
                    (Router.maxRetries (Router.config r1)) 1 "undefined") as Hspec.
      unfold Router.executeWithRetry.
      destruct (Router.attempts backend _ _ 1 "undefined") as [[z|e2] made];
        cbn [fst snd] in Hspec; destruct Hspec as (Hmade & _);
        exists made;
        [pose proof (updateMetrics_keeps
                       (Router.mkRouter (Router.config r1) (Router.models r1)
                                        (Router.zai r1) (Router.metrics r1)
                                        (Router.requestTimes r1)
                                        (Router.backendCalls r1 ++ made))
                       z (t1 - t0)) as (_ & _ & _ & Hb3);
         destruct (Router.updateMetrics _ z (t1 - t0)) as [[[]|e3] r3];
         cbn [fst snd Router.backendCalls Router.count_error Router.set_metrics] in *;
         rewrite Hb3
        |simpl];
        rewrite Hb1; (split; [reflexivity|]);
        rewrite Hmade; apply Forall_forall; intros c Hc;
        apply in_map_iff in Hc as (i & <- & _); reflexivity.
Qed.
End RouterMetricsProperties.
Section StreamingProperties.
Variable stream_backend : string -> Result (list (option string)).
Implicit Types (r : Router.ModelRouter) (request : Router.ModelRequest).

(** X7.  [generateStreamingResponse] goes around the rate limiter and the
    metrics: it leaves the request times and the metrics (the error count
    included) as they were, its outcome does not depend on the request times
    stored, and it reaches the backend, once, only when the selected model
    is registered and supports streaming; otherwise it throws
    "Streaming not supported for model: <name>" and changes nothing. *)
Theorem X7_streaming_bypasses_rate_limit_and_metrics :
  forall r request,
    let run := RouterOps.generateStreamingResponse stream_backend r request in
    Router.requestTimes (snd run) = Router.requestTimes r
    /\ Router.metrics (snd run) = Router.metrics r
    /\ (forall times,
           fst (RouterOps.generateStreamingResponse stream_backend
                  (Router.set_requestTimes r times) request)
           = fst run)
    /\ (Router.backendCalls (snd run) <> Router.backendCalls r ->
        exists n m,
          Router.selectModel r request = Some n
          /\ JSMap.get n (Router.models r) = Some m
          /\ Router.supportsStreaming m = true
          /\ Router.backendCalls (snd run) = Router.backendCalls r ++ [(n, 1)])
    /\ (forall n m,
           Router.zai r = true ->
           Router.selectModel r request = Some n ->
           JSMap.get n (Router.models r) = Some m ->
           Router.supportsStreaming m = false ->
           run = (Throw ("Streaming not supported for model: " ++ n), r)).
Proof.
  intros r request run. subst run.
  assert (Hindep : forall times,
             fst (RouterOps.generateStreamingResponse stream_backend
                    (Router.set_requestTimes r times) request)
             = fst (RouterOps.generateStreamingResponse stream_backend r request)).
  { intros times. unfold RouterOps.generateStreamingResponse.
    change (Router.selectModel (Router.set_requestTimes r times) request)
      with (Router.selectModel r request).
    cbn [Router.zai Router.models Router.set_requestTimes].
    destruct (Router.zai r); [|reflexivity]. cbn [negb].
    destruct (Router.selectModel r request) as [n|]; [|reflexivity].
    destruct (JSMap.get n (Router.models r)) as [m|]; [|reflexivity].
    destruct (Router.supportsStreaming m); [|reflexivity]. cbn [negb].
    now destruct (stream_backend n). }
  split; [|split; [|split; [exact Hindep|]]]; clear Hindep.
  1, 2: unfold RouterOps.generateStreamingResponse;
    destruct (Router.zai r); [|reflexivity]; cbn [negb];
    destruct (Router.selectModel r request) as [n|]; [|reflexivity];
    destruct (JSMap.get n (Router.models r)) as [m|]; [|reflexivity];
    destruct (Router.supportsStreaming m); [|reflexivity]; cbn [negb];
    now destruct (stream_backend n).
  unfold RouterOps.generateStreamingResponse.
  destruct (Router.zai r) eqn:Hz; cbn [negb].
  2:{ split; [intros H; exfalso; now apply H | intros; congruence]. }
  destruct (Router.selectModel r request) as [n|] eqn:Hsel.
  2:{ split; [intros H; exfalso; now apply H | intros; congruence]. }
  destruct (JSMap.get n (Router.models r)) as [m|] eqn:Hget.
  2:{ split; [intros H; exfalso; now apply H | intros; congruence]. }
  destruct (Router.supportsStreaming m) eqn:Hs; cbn [negb].
  2:{ split; [intros H; exfalso; now apply H|].
      intros n' m' _ Hn _ _. injection Hn as <-. reflexivity. }
  destruct (stream_backend n) as [chunks|e];
    (split; [intros _; exists n, m; repeat split; assumption
            | intros n' m' _ Hn Hm Hs'; congruence]).
Qed.
End StreamingProperties.

(* ------------------------------------------------------------------ *)
(** ** ModelRouter: registration and recommendations *)

Lemma has_true_In (V : Type) (k : string) (m : JSMap.t V) :
  JSMap.has k m = true -> In k (JSMap.keys m).
Proof.
  unfold JSMap.has. destruct (JSMap.get k m) eqn:E; [|discriminate].
  intros _. eapply get_In_key; eassumption.
Qed.

Lemma has_false_not_In (V : Type) (k : string) (m : JSMap.t V) :
  JSMap.has k m = false -> ~ In k (JSMap.keys m).
Proof.
  unfold JSMap.has. destruct (JSMap.get k m) eqn:E; [discriminate|].
  intros _. now apply get_None_not_In.
Qed.

(** X9.  [registerModel] inserts or overwrites by name: the model is found
    under its name afterwards, no other name is affected, a name already
    registered keeps its place in the registration order (the order
    [selectModel] scans) and a new name goes last. *)
Theorem X9_registerModel_overwrites_in_place :
  forall (r : Router.ModelRouter) (modelConfig : Router.ModelConfig),
    let r' := Router.registerModel r modelConfig in
    let name := Router.model_name modelConfig in
    JSMap.get name (Router.models r') = Some modelConfig
    /\ (forall other, other <> name ->
                      JSMap.get other (Router.models r')
                      = JSMap.get other (Router.models r))
    /\ JSMap.keys (Router.models r')
       = (if JSMap.has name (Router.models r)
          then JSMap.keys (Router.models r)
          else JSMap.keys (Router.models r) ++ [name]).
Proof.
  intros r modelConfig r' name. subst r' name. simpl. split; [|split].
  - apply get_set_same.
  - intros other Hne. apply get_set_other. congruence.
  - destruct (JSMap.has _ _) eqn:Hhas.
    + apply keys_set_present. now apply has_true_In.
    + apply keys_set_absent. now apply has_false_not_In.
Qed.

Section ScoreProperties.
Local Open Scope Q_scope.
Implicit Types (m : Router.ModelConfig) (request : Router.ModelRequest).

Lemma estimated_cost_nonneg m (estimatedTokens : Z) :
  (0 <= estimatedTokens)%Z ->
  0 <= RouterOps.price m ->
  0 <= inject_Z estimatedTokens * RouterOps.price m.
Proof.
  intros Hest Hcost. apply Qmult_le_0_compat; [|assumption].
  change 0 with (inject_Z 0). now rewrite <- Zle_Qle.
Qed.

Lemma score_range m request (estimatedTokens : Z) :
  (0 <= estimatedTokens)%Z ->
  0 <= RouterOps.price m ->
  let s := RouterOps.calculateModelScore m request estimatedTokens in
  if (estimatedTokens >? Router.maxTokens m)%Z
  then 30 <= s /\ s <= 65
  else 80 <= s /\ s <= 115.
Proof.
  intros Hest Hcost s. subst s. unfold RouterOps.calculateModelScore.
  pose proof (@estimated_cost_nonneg m estimatedTokens Hest Hcost) as Hc.
  set (c := inject_Z estimatedTokens * RouterOps.price m) in *.
  destruct (Q.min_spec (c * 1000) 20) as [[Hlt Hmin] | [Hle Hmin]];
    destruct (estimatedTokens >? Router.maxTokens m)%Z;
    destruct (Router.stream request && Router.supportsStreaming m);
    destruct (Router.oss m);
    match goal with
    | |- context [Qmax 0 ?s] =>
        destruct (Q.max_spec 0 s) as [[Hlt' Hmax] | [Hle' Hmax]];
        rewrite Hmax; rewrite ?Hmin in *; lra
    end.
Qed.

(** X10.  The recommendation score, for a request with a non-negative
    token estimate and models with a finite, non-negative cost: a model whose context
    limit covers the estimate scores between 80 and 115, a model whose limit
    does not scores between 30 and 65, so every model with a sufficient
    limit scores strictly higher than every model without. *)
Theorem X10_sufficient_model_outscores_insufficient :
  forall m1 m2 request (estimatedTokens : Z),
    (0 <= estimatedTokens)%Z ->
    RouterOps.finite_price m1 = true ->
    RouterOps.finite_price m2 = true ->
    0 <= RouterOps.price m1 ->
    0 <= RouterOps.price m2 ->
    (estimatedTokens <= Router.maxTokens m1)%Z ->
    (Router.maxTokens m2 < estimatedTokens)%Z ->
    RouterOps.calculateModelScore m2 request estimatedTokens
    < RouterOps.calculateModelScore m1 request estimatedTokens
    /\ 80 <= RouterOps.calculateModelScore m1 request estimatedTokens <= 115
    /\ 30 <= RouterOps.calculateModelScore m2 request estimatedTokens <= 65.
Proof.
  intros m1 m2 request estimatedTokens Hest _ _ Hc1 Hc2 Hfit Hshort.
  pose proof (@score_range m1 request estimatedTokens Hest Hc1) as H1.
  pose proof (@score_range m2 request estimatedTokens Hest Hc2) as H2.
  cbv zeta in H1, H2.
  assert (E1 : (estimatedTokens >? Router.maxTokens m1)%Z = false).
  { rewrite Z.gtb_ltb. apply Z.ltb_ge. lia. }
  assert (E2 : (estimatedTokens >? Router.maxTokens m2)%Z = true).
  { rewrite Z.gtb_ltb. apply Z.ltb_lt. lia. }
  rewrite E1 in H1. rewrite E2 in H2.
  destruct H1 as [H1a H1b], H2 as [H2a H2b].
  repeat split; try assumption. lra.
Qed.

Lemma insert_by_score_perm x l :
  Permutation (RouterOps.insert_by_score x l) (x :: l).
Proof.
  induction l as [|y l IH]; simpl; [reflexivity|].
  destruct (Qle_bool _ _); [reflexivity|].
  rewrite IH. apply perm_swap.
Qed.

Lemma sort_by_score_perm l : Permutation (RouterOps.sort_by_score l) l.
Proof.
  induction l as [|x l IH]; simpl; [reflexivity|].
  rewrite insert_by_score_perm. now constructor.
Qed.

Lemma insert_by_score_hd x y l :
  RouterOps.score_ge y x -> HdRel RouterOps.score_ge y l ->
  HdRel RouterOps.score_ge y (RouterOps.insert_by_score x l).
Proof.
  intros Hyx Hhd. destruct l as [|z l]; simpl; [now constructor|].
  destruct (Qle_bool _ _); constructor; [assumption|].
  now inversion Hhd.
Qed.

Lemma insert_by_score_sorted x l :
  Sorted RouterOps.score_ge l -> Sorted RouterOps.score_ge (RouterOps.insert_by_score x l).
Proof.
  induction l as [|y l IH]; simpl; intros Hs; [repeat constructor|].
  destruct (Qle_bool (RouterOps.score y) (RouterOps.score x)) eqn:E.
  - constructor; [assumption|]. constructor. now apply Qle_bool_iff.
  - inversion Hs as [|? ? Hs' Hhd]; subst.
    constructor; [now apply IH|].
    apply insert_by_score_hd; [|assumption].
    unfold RouterOps.score_ge. apply Qlt_le_weak. apply Qnot_le_lt.
    intros H. apply Qle_bool_iff in H. congruence.
Qed.

Lemma sort_by_score_sorted l : Sorted RouterOps.score_ge (RouterOps.sort_by_score l).
Proof.
  induction l as [|x l IH]; simpl; [constructor | now apply insert_by_score_sorted].
Qed.
End ScoreProperties.

(** X11.  When the registered models have finite costs,
    [getModelRecommendations] returns one recommendation per registered
    model, nothing else, ordered by score: no recommendation scores higher
    than one placed before it. *)
Theorem X11_recommendations_cover_models_by_descending_score :
  forall (r : Router.ModelRouter) (request : Router.ModelRequest),
    (forall name m, In (name, m) (Router.models r) -> RouterOps.finite_price m = true) ->
    let recs := RouterOps.getModelRecommendations r request in
    Permutation (map RouterOps.rec_model recs) (JSMap.keys (Router.models r))
    /\ StronglySorted (fun a b => (RouterOps.score b <= RouterOps.score a)%Q) recs.
Proof.
  intros r request _ recs. subst recs. unfold RouterOps.getModelRecommendations.
  split.
  - rewrite sort_by_score_perm. rewrite map_map. reflexivity.
  - apply Sorted_StronglySorted; [|apply sort_by_score_sorted].
    intros a b c Hab Hbc. unfold RouterOps.score_ge in *. eapply Qle_trans; eassumption.
Qed.
(* ------------------------------------------------------------------ *)
(** ** Orchestrator: retries, slots, agent selection *)

Section TaskRetryProperties.
Variable R : Type.
Variable logic : nat -> Result R.
Variable c : OrchOps.RetryConfig.

Lemma retry_from_spec remaining :
  forall a lastError,
    a + remaining = S (OrchOps.attempt_limit c) ->
    let run := OrchOps.retry_from logic c remaining a lastError in
    let n := OrchOps.attempts_made run in
    n <= remaining
    /\ OrchOps.waited run
       = map (fun i => (OrchOps.retryDelay c * Z.of_nat i)%Z) (seq a (n - 1))
    /\ (forall i, a <= i < a + n - 1 -> exists e, logic i = Throw e)
    /\ match OrchOps.outcome run with
       | Ok result => 1 <= n /\ logic (a + n - 1) = Ok result
       | Throw e =>
           n = remaining
           /\ (remaining = 0 -> e = lastError)
           /\ (1 <= remaining -> logic (a + n - 1) = Throw e)
       end.
Proof.
  induction remaining as [|remaining IH]; intros a lastError Hsum;
    cbn [OrchOps.retry_from].
  - cbn. repeat split; intros; lia.
  - destruct (logic a) as [result|e] eqn:Hcall; cbn [OrchOps.outcome
      OrchOps.attempts_made OrchOps.waited].
    + repeat split; try (intros; lia).
      now replace (a + 1 - 1) with a by lia.
    + specialize (IH (S a) e ltac:(lia)). cbv zeta in IH.
      set (rest := OrchOps.retry_from logic c remaining (S a) e) in *.
      destruct IH as (Hlen & Hwait & Hfailed & Hres).
      split; [lia|]. split; [|split].
      * rewrite Hwait. destruct (Nat.ltb_spec a (OrchOps.attempt_limit c)) as [Hlt|Hge].
        -- assert (1 <= OrchOps.attempts_made rest).
           { destruct remaining as [|remaining']; [lia|]. subst rest.
             cbn [OrchOps.retry_from]. destruct (logic (S a)); cbn; lia. }
           replace (S (OrchOps.attempts_made rest) - 1)
             with (S (OrchOps.attempts_made rest - 1)) by lia.
           reflexivity.
        -- assert (OrchOps.attempts_made rest = 0) as -> by lia. reflexivity.
      * intros i Hi. destruct (Nat.eq_dec i a) as [->|Hne]; [eauto|].
        apply Hfailed. lia.
      * destruct (OrchOps.outcome rest) as [result|e'].
        -- destruct Hres as [H1 H2]. split; [lia|].
           now replace (a + S (OrchOps.attempts_made rest) - 1)
             with (S a + OrchOps.attempts_made rest - 1) by lia.
        -- destruct Hres as (H1 & H0 & H2). split; [lia|].
           split; [lia|]. intros _.
           destruct remaining as [|remaining'].
           ++ assert (OrchOps.attempts_made rest = 0) as -> by lia.
              replace (a + 1 - 1) with a by lia. now rewrite (H0 eq_refl).
           ++ replace (a + S (OrchOps.attempts_made rest) - 1)
                with (S a + OrchOps.attempts_made rest - 1) by lia.
              apply H2. lia.
Qed.

Lemma sum_linear_delays (d : Z) (n : nat) :
  forall a,
    (2 * fold_right Z.add 0 (map (fun i => d * Z.of_nat i) (seq a n))
     = d * Z.of_nat n * (2 * Z.of_nat a + Z.of_nat n - 1))%Z.
Proof.
  induction n as [|n IH]; intros a; cbn [seq map fold_right]; [lia|].
  specialize (IH (S a)). nia.
Qed.

(** X12.  The orchestrator's [executeWithRetry] makes attempts 1, 2, ...,
    n with n at most [maxRetries] (exactly one attempt when [enableRetry] is
    off), stops at the first attempt that succeeds and returns its result,
    and otherwise throws the error of the last attempt; after failed attempt
    [i] that is not the last it sleeps [retryDelay * i], so it sleeps
    [retryDelay * n * (n - 1) / 2] in all. *)
Theorem X12_task_retry_attempts_and_linear_backoff :
  let run := OrchOps.executeWithRetry logic c in
  let n := OrchOps.attempts_made run in
  n <= OrchOps.attempt_limit c
  /\ (OrchOps.enableRetry c = false -> n <= 1 /\ OrchOps.waited run = [])
  /\ OrchOps.waited run
     = map (fun i => (OrchOps.retryDelay c * Z.of_nat i)%Z) (seq 1 (n - 1))
  /\ (2 * fold_right Z.add 0 (OrchOps.waited run)
      = OrchOps.retryDelay c * Z.of_nat n * (Z.of_nat n - 1))%Z
  /\ (forall i, 1 <= i < n -> exists e, logic i = Throw e)
  /\ match OrchOps.outcome run with
     | Ok result => 1 <= n /\ logic n = Ok result
     | Throw e => n = OrchOps.attempt_limit c /\ (1 <= n -> logic n = Throw e)
     end.
Proof.
  intros run n.
  pose proof (retry_from_spec (OrchOps.attempt_limit c) 1 "undefined" ltac:(lia)) as H.
  cbv zeta in H. fold (OrchOps.executeWithRetry logic c) in H. fold run in H. fold n in H.
  destruct H as (Hlen & Hwait & Hfailed & Hres).
  split; [exact Hlen|]. split; [|split; [exact Hwait|split; [|split]]].
  - intros Hoff. unfold OrchOps.attempt_limit in Hlen. rewrite Hoff in Hlen.
    split; [exact Hlen|]. rewrite Hwait.
    now replace (n - 1) with 0 by lia.
  - rewrite Hwait, sum_linear_delays.
    destruct n as [|n']; [cbn; lia|].
    replace (S n' - 1) with n' by lia. lia.
  - intros i Hi. apply Hfailed. lia.
  - destruct (OrchOps.outcome run) as [result|e].
    + destruct Hres as [H1 H2]. split; [exact H1|].
      now replace (1 + n - 1) with n in H2 by lia.
    + destruct Hres as (H1 & _ & H2). split; [exact H1|]. intros Hn.
      replace (1 + n - 1) with n in H2 by lia. apply H2. lia.
Qed.
End TaskRetryProperties.

(** X17.  [selectAgent] dispatches on the task type alone: it finds an
    agent only for the six task types, always under one of the ids coder,
    tester, packager, security and dx-writer; the agents registered as
    planner, researcher and reviewer are never selected, and for any other
    task type it returns null. *)
Theorem X17_selectAgent_reaches_five_agent_ids :
  forall (A : Type) (agents : JSMap.t A) (task : Task),
    (forall a, OrchOps.selectAgent agents task = Some a ->
               exists agentId,
                 In agentId ["coder"; "tester"; "packager"; "security"; "dx-writer"]
                 /\ In agentId OrchOps.defaultAgentIds
                 /\ JSMap.get agentId agents = Some a)
    /\ (~ In (type_ task) ["code-generation"; "testing"; "packaging"; "security";
                           "rtl"; "documentation"] ->
        OrchOps.selectAgent agents task = None).
Proof.
  intros A agents task. unfold OrchOps.selectAgent, OrchOps.agentTypeMap. split.
  - intros a.
    repeat (match goal with
            | |- context [String.eqb ?x ?y] => destruct (String.eqb x y)
            end);
      intros H; try discriminate;
      eexists; (split; [|split; [|exact H]]); simpl; tauto.
  - intros Hnot.
    repeat (match goal with
            | |- context [String.eqb ?x ?y] =>
                let E := fresh "E" in
                destruct (String.eqb_spec x y) as [E|E];
                [exfalso; apply Hnot; rewrite E; simpl; tauto|]
            end).
    reflexivity.
Qed.

Section SlotProperties.
Variable listener : list Orch.Emitted -> Orch.Emitted -> option string.
Implicit Types (o : Orch.Orchestrator) (e : Orch.Event).

Lemma keys_delete (V : Type) (k : string) (m : JSMap.t V) :
  NoDup (JSMap.keys m) ->
  JSMap.keys (JSMap.delete k m) = Orch.set_delete k (JSMap.keys m).
Proof.
  unfold Orch.set_delete.
  induction m as [|[k' v'] m IH]; simpl; intros Hnd; [reflexivity|].
  inversion Hnd as [|? ? Hnotin Hnd']; subst.
  destruct (String.eqb_spec k k') as [->|Hne]; simpl.
  - symmetry. apply filter_all. intros x Hx.
    destruct (String.eqb_spec k' x); [congruence | reflexivity].
  - f_equal. now apply IH.
Qed.

Lemma slots_exact_store o taskId t emitted' :
  OrchOps.slots_exact o ->
  OrchOps.slots_exact (Orch.mkOrch (JSMap.set taskId t (Orch.tasks o))
                                   (Orch.runningTasks o) (Orch.suspended o)
                                   (Orch.maxConcurrentTasks o) emitted').
Proof.
  intros [H0 H1 H2 H3]. constructor; simpl; trivial. now apply nodup_keys_set.
Qed.

Lemma slots_exact_executeTask next o taskId :
  OrchOps.slots_exact o ->
  List.length (Orch.runningTasks o) < Orch.maxConcurrentTasks o ->
  (forall o', OrchOps.slots_exact o' -> OrchOps.slots_exact (next o')) ->
  OrchOps.slots_exact (Orch.executeTask listener next o taskId).
Proof.
  intros Hok Hfree Hnext.
  destruct (executeTask_cases listener next o taskId)
    as [[_ E] | (task & Hget & Hnot & [[_ E] | [_ E]])]; rewrite E; [exact Hok | |].
  - destruct Hok as [H0 H1 H2 H3]. constructor; simpl.
    + now apply nodup_keys_set.
    + unfold JSMap.keys. rewrite map_app. simpl. now f_equal.
    + apply NoDup_app; [assumption | repeat constructor; simpl; tauto |].
      intros x Hx [<-|[]]. contradiction.
    + rewrite length_app. simpl. lia.
  - apply Hnext. now apply slots_exact_store.
Qed.

Lemma slots_exact_processNextTask o :
  OrchOps.slots_exact o -> OrchOps.slots_exact (Orch.processNextTask listener o).
Proof.
  apply (@processNextTask_preserves listener OrchOps.slots_exact).
  intros next o1 taskId task Hok Hfree _ _ Hnext. now apply slots_exact_executeTask.
Qed.

Lemma slots_exact_resume o taskId task succeeded :
  OrchOps.slots_exact o ->
  OrchOps.slots_exact (Orch.executeTask_resume listener o taskId task succeeded).
Proof.
  intros [H0 H1 H2 H3].
  destruct (executeTask_resume_spec listener o taskId task succeeded)
    as (final & history & _ & ->).
  constructor; simpl.
  - now apply nodup_keys_set.
  - rewrite keys_delete by (rewrite <- H1; assumption). now rewrite H1.
  - now apply NoDup_filter.
  - pose proof (length_set_delete taskId (Orch.runningTasks o)). lia.
Qed.

Lemma slots_exact_step o e :
  OrchOps.slots_exact o -> OrchOps.slots_exact (Orch.step listener o e).
Proof.
  intros Hok. destruct e as [task | taskId succeeded | taskId]; simpl.
  - unfold Orch.submitTask. destruct (_ || _); [exact Hok|].
    unfold Orch.emit, Orch.store. simpl.
    destruct (listener _ _); simpl; [now apply slots_exact_store|].
    destruct (Nat.ltb _ _) eqn:Hfree; simpl; [|now apply slots_exact_store].
    apply slots_exact_executeTask;
      [now apply slots_exact_store | | apply slots_exact_processNextTask].
    now apply Nat.ltb_lt in Hfree.
  - unfold Orch.executeTask_settle.
    destruct (JSMap.get taskId (Orch.suspended o)) as [task|]; [|exact Hok].
    now apply slots_exact_processNextTask, slots_exact_resume.
  - unfold Orch.cancelTask.
    destruct (JSMap.get taskId (Orch.tasks o)) as [task|]; [|exact Hok].
    destruct (Orch.status_is in_progress task); [exact Hok|].
    unfold Orch.emit, Orch.store. simpl.
    destruct (listener _ _); simpl; now apply slots_exact_store.
Qed.

Lemma slots_exact_run k events : OrchOps.slots_exact (Orch.run listener k events).
Proof.
  induction events as [|e events IH] using rev_ind.
  - constructor; simpl; [constructor | reflexivity | constructor | lia].
  - rewrite run_snoc. now apply slots_exact_step.
Qed.

End SlotProperties.

(** X13.  After any sequence of submissions, settlements and
    cancellations, whether the event listeners return or throw,
    [runningTasks] holds exactly the ids of the [executeTask] calls still
    waiting for their work, each once, and never more than
    [maxConcurrentTasks]: a slot is taken when a call starts and given back
    when, and only when, that call ends. *)
Theorem X13_running_slots_are_the_calls_in_flight :
  forall (listener : list Orch.Emitted -> Orch.Emitted -> option string)
         (k : nat) (events : list Orch.Event),
    let o := Orch.run listener k events in
    Orch.runningTasks o = JSMap.keys (Orch.suspended o)
    /\ NoDup (Orch.runningTasks o)
    /\ List.length (Orch.runningTasks o) <= k.
Proof.
  intros listener k events o.
  destruct (slots_exact_run listener k events) as [H0 H1 H2 H3].
  fold o in H1, H2, H3. subst o. rewrite run_ceiling in H3. auto.
Qed.


Section QueueProperties.
Variable listener : list Orch.Emitted -> Orch.Emitted -> option string.
Implicit Types (o : Orch.Orchestrator) (e : Orch.Event).

(** A start that fails leaves one pending task fewer. *)
Lemma pending_count_set (m : JSMap.t Task) (k : string) (t t' : Task) :
  JSMap.get k m = Some t ->
  status t = pending ->
  status t' <> pending ->
  List.length (filter (fun kv => Orch.status_is pending (snd kv)) m)
  = S (List.length (filter (fun kv => Orch.status_is pending (snd kv))
                           (JSMap.set k t' m))).
Proof.
  intros Hget Hp Hnp. induction m as [|[k' v'] m IH]; simpl in *; [discriminate|].
  destruct (String.eqb_spec k k') as [->|Hne]; simpl.
  - injection Hget as ->. apply status_is_true in Hp. rewrite Hp. simpl.
    destruct (Orch.status_is pending t') eqn:E; [|reflexivity].
    apply status_is_true in E. contradiction.
  - destruct (Orch.status_is pending v'); simpl; now rewrite IH.
Qed.

(** [processNextTask] with a free slot calls [executeTask] for the first
    eligible entry of the task table; when that start fails, the
    [processNextTask] call of [finally] scans the table again. *)
Lemma processNextTask_first_eligible o before taskId task after :
  NoDup (JSMap.keys (Orch.tasks o)) ->
  Orch.tasks o = before ++ (taskId, task) :: after ->
  List.length (Orch.runningTasks o) < Orch.maxConcurrentTasks o ->
  Orch.eligible o (taskId, task) = true ->
  (forall kv, In kv before -> Orch.eligible o kv = false) ->
  Orch.processNextTask listener o
  = match listener (Orch.emitted o)
                   (Orch.mkEmitted Orch.task_started (with_status task in_progress)) with
    | None => OrchOps.started o taskId task
    | Some _ => Orch.processNextTask listener (OrchOps.abandoned o taskId task)
    end.
Proof.
  intros Hnd Hsplit Hfree Hel Hbefore. unfold Orch.processNextTask at 1. simpl.
  apply Nat.leb_gt in Hfree. rewrite Hfree.
  rewrite Hsplit, (find_first _ before after (taskId, task) Hbefore Hel).
  assert (Hget : JSMap.get taskId (Orch.tasks o) = Some task).
  { apply In_get_nodup; [assumption|]. rewrite Hsplit. apply in_elt. }
  apply eligible_true in Hel as (Hpending & Hnot & _).
  destruct (executeTask_cases listener
              (Orch.processNextTask_from listener (Orch.pending_count o)) o taskId)
    as [[[Hnone | Hrun] _] | (tk & Hg & _ & [[Hl E] | [Hl E]])].
  - congruence.
  - contradiction.
  - assert (tk = task) as -> by congruence. now rewrite E, Hl.
  - assert (tk = task) as -> by congruence. rewrite E.
    destruct (listener _ _); [|congruence].
    unfold Orch.processNextTask. f_equal.
    unfold Orch.pending_count. simpl.
    apply (@pending_count_set _ _ task); [assumption.. | discriminate].
Qed.

(** [processNextTask] leaves alone a task that is not pending: its record
    stays, and it takes no slot. *)
Lemma processNextTask_keeps_settled o taskId t :
  NoDup (JSMap.keys (Orch.tasks o)) ->
  JSMap.get taskId (Orch.tasks o) = Some t ->
  status t <> pending ->
  JSMap.get taskId (Orch.tasks (Orch.processNextTask listener o)) = Some t
  /\ (In taskId (Orch.runningTasks (Orch.processNextTask listener o)) ->
      In taskId (Orch.runningTasks o)).
Proof.
  intros Hnd Hget Hnp.
  set (P := fun o' : Orch.Orchestrator =>
              NoDup (JSMap.keys (Orch.tasks o'))
              /\ JSMap.get taskId (Orch.tasks o') = Some t
              /\ (In taskId (Orch.runningTasks o') -> In taskId (Orch.runningTasks o))).
  assert (HP : P (Orch.processNextTask listener o)).
  { apply (@processNextTask_preserves listener P); [|repeat split; auto].
    intros next o1 id1 t1 (Hnd1 & Hget1 & Hrun1) _ Hin Hel Hnext.
    apply eligible_true in Hel as (Hpending & _ & _).
    apply In_get_nodup in Hin; [|assumption].
    assert (Hne : id1 <> taskId) by (intros ->; congruence).
    destruct (executeTask_cases listener next o1 id1)
      as [[_ E] | (tk & Hg & _ & [[_ E] | [_ E]])]; rewrite E.
    - repeat split; assumption.
    - split; [now apply nodup_keys_set|]. simpl.
      split; [now rewrite get_set_other|].
      intros H. apply in_app_or in H as [H | [H | []]]; [auto | congruence].
    - apply Hnext. split; [now apply nodup_keys_set|]. simpl.
      split; [now rewrite get_set_other | assumption]. }
  destruct HP as (_ & H1 & H2). auto.
Qed.

End QueueProperties.

(** X15.  With a free slot, [processNextTask] calls [executeTask] for the
    first task of the table, in submission order, that is pending, not
    running and has all its dependencies completed.  When the task:started
    listeners return, it starts that task only: one slot is taken and no
    other task changes status.  When one of them throws, the task is
    recorded failed and takes no slot, and the table is scanned again from
    that state. *)
Theorem X15_processNextTask_starts_first_eligible_task :
  forall (listener : list Orch.Emitted -> Orch.Emitted -> option string)
         o before taskId task after,
    NoDup (JSMap.keys (Orch.tasks o)) ->
    Orch.tasks o = before ++ (taskId, task) :: after ->
    List.length (Orch.runningTasks o) < Orch.maxConcurrentTasks o ->
    Orch.eligible o (taskId, task) = true ->
    (forall kv, In kv before -> Orch.eligible o kv = false) ->
    let o' := Orch.processNextTask listener o in
    match listener (Orch.emitted o)
                   (Orch.mkEmitted Orch.task_started (with_status task in_progress)) with
    | None =>
        Orch.status_of o' taskId = Some in_progress
        /\ Orch.runningTasks o' = Orch.runningTasks o ++ [taskId]
        /\ forall other, other <> taskId ->
                         Orch.status_of o' other = Orch.status_of o other
    | Some _ =>
        o' = Orch.processNextTask listener (OrchOps.abandoned o taskId task)
        /\ Orch.status_of o' taskId = Some failed
        /\ ~ In taskId (Orch.runningTasks o')
    end.
Proof.
  intros listener o before taskId task after Hnd Hsplit Hfree Hel Hbefore o'.
  subst o'.
  rewrite (@processNextTask_first_eligible listener o before taskId task after)
    by assumption.
  destruct (listener _ _) as [msg|].
  - split; [reflexivity|].
    apply eligible_true in Hel as (_ & Hnot & _).
    destruct (@processNextTask_keeps_settled listener
                (OrchOps.abandoned o taskId task) taskId
                (with_status_result task failed)) as [H1 H2].
    + simpl. now apply nodup_keys_set.
    + simpl. apply get_set_same.
    + discriminate.
    + split; [now rewrite (@status_of_get _ _ _ H1)|].
      intros H. apply H2 in H. simpl in H. contradiction.
  - unfold Orch.status_of. simpl. split; [now rewrite get_set_same|].
    split; [reflexivity|]. intros other Hne.
    rewrite get_set_other; [reflexivity | congruence].
Qed.

Section WaitingProperties.
Variable listener : list Orch.Emitted -> Orch.Emitted -> option string.
Implicit Types (o : Orch.Orchestrator) (e : Orch.Event).

Lemma length_set_delete_In x l :
  NoDup l -> In x l -> S (List.length (Orch.set_delete x l)) = List.length l.
Proof.
  unfold Orch.set_delete. induction l as [|y l IH]; simpl; [tauto|].
  intros Hnd Hin. inversion Hnd as [|? ? Hnotin Hnd']; subst.
  destruct (String.eqb_spec x y) as [->|Hne]; simpl.
  - f_equal. rewrite filter_all; [reflexivity|].
    intros z Hz. destruct (String.eqb_spec y z); [congruence | reflexivity].
  - f_equal. destruct Hin as [E|Hin]; [congruence | now apply IH].
Qed.

(** *** Tasks that wait on a failed dependency *)








End WaitingProperties.

(** X18.  A queued task is picked up without a second [submitTask]: when
    the work of a running task ends, the task gets its final status
    (completed when the work succeeded and the task:completed listeners
    return, failed otherwise) and gives its slot back; the first task of the
    table that is then pending, not running and has all its dependencies
    completed, the task that just ended counted, is recorded in_progress in
    the same step and takes the slot, provided the task:started listeners
    return for it. *)
Theorem X18_settled_slot_goes_to_first_eligible_task :
  forall (listener : list Orch.Emitted -> Orch.Emitted -> option string)
         (k : nat) (events : list Orch.Event) (running : string) (succeeded : bool)
         (entered : Task) before taskId task after,
    let o := Orch.run listener k events in
    JSMap.get running (Orch.suspended o) = Some entered ->
    let ended := Orch.executeTask_resume listener o running entered succeeded in
    Orch.tasks ended = before ++ (taskId, task) :: after ->
    Orch.eligible ended (taskId, task) = true ->
    (forall kv, In kv before -> Orch.eligible ended kv = false) ->
    listener (Orch.emitted ended)
             (Orch.mkEmitted Orch.task_started (with_status task in_progress)) = None ->
    let o' := Orch.step listener o (Orch.Settle running succeeded) in
    Orch.status_of o' running
    = Some (OrchOps.final_status listener o entered succeeded)
    /\ Orch.status_of o' taskId = Some in_progress
    /\ Orch.runningTasks o'
       = Orch.set_delete running (Orch.runningTasks o) ++ [taskId]
    /\ List.length (Orch.runningTasks o') = List.length (Orch.runningTasks o).
Proof.
  intros listener k events running succeeded entered before taskId task after o
         Hframe ended Hsplit Hel Hbefore Hreturns o'.
  pose proof (slots_exact_run listener k events) as Hslots. fold o in Hslots.
  clearbody o.
  pose proof (slots_exact_resume listener running entered succeeded Hslots) as Hended.
  fold ended in Hended.
  assert (Hrun : In running (Orch.runningTasks o)).
  { rewrite (OrchOps.slots_are_frames Hslots). eapply get_In_key. eassumption. }
  pose proof (@length_set_delete_In running (Orch.runningTasks o)
                (OrchOps.slots_distinct Hslots) Hrun) as Hlen.
  pose proof (OrchOps.slots_bounded Hslots) as Hbound.
  destruct (executeTask_resume_spec listener o running entered succeeded)
    as (final & history & Hfinal & E).
  fold ended in E.
  assert (Hget : JSMap.get taskId (Orch.tasks ended) = Some task).
  { apply In_get_nodup; [apply (OrchOps.slots_table Hended)|].
    rewrite Hsplit. apply in_elt. }
  assert (Hne : running <> taskId).
  { intros ->. rewrite E in Hget. simpl in Hget. rewrite get_set_same in Hget.
    injection Hget as <-. apply eligible_true in Hel as (Hp & _).
    destruct (final_status_ended listener o entered succeeded); congruence. }
  subst o'. simpl. unfold Orch.executeTask_settle. rewrite Hframe. fold ended.
  clearbody ended.
  rewrite (@processNextTask_first_eligible listener ended before taskId task after);
    trivial.
  - rewrite Hreturns. unfold Orch.status_of, OrchOps.started. simpl.
    rewrite get_set_other by congruence. rewrite get_set_same.
    rewrite E. simpl. rewrite get_set_same. simpl. rewrite Hfinal.
    split; [reflexivity|]. split; [reflexivity|]. split; [reflexivity|].
    rewrite length_app. simpl. lia.
  - apply (OrchOps.slots_table Hended).
  - rewrite E. simpl. lia.
Qed.

(* ------------------------------------------------------------------ *)
(** ** MemoryManager: the sweep in general, and the generic entries *)

Section SweepOrder.
Variable V : Type.
Variable time : V -> Z.
Implicit Types (l : list (string * V)) (m : JSMap.t V) (x : string * V).

Lemma insert_by_time_perm x l :
  Permutation (Memory.insert_by_time time x l) (x :: l).
Proof.
  induction l as [|y l IH]; simpl; [reflexivity|].
  destruct (_ <=? _)%Z; [reflexivity|].
  rewrite IH. apply perm_swap.
Qed.

Lemma sort_by_time_perm l : Permutation (Memory.sort_by_time time l) l.
Proof.
  induction l as [|x l IH]; simpl; [reflexivity|].
  rewrite insert_by_time_perm. now constructor.
Qed.

Lemma insert_by_time_hd x y l :
  MemoryOps.older_first time y x ->
  HdRel (MemoryOps.older_first time) y l ->
  HdRel (MemoryOps.older_first time) y (Memory.insert_by_time time x l).
Proof.
  intros Hyx Hhd. destruct l as [|z l]; simpl; [now constructor|].
  destruct (_ <=? _)%Z; constructor; [assumption|].
  now inversion Hhd.
Qed.

Lemma insert_by_time_sorted x l :
  Sorted (MemoryOps.older_first time) l ->
  Sorted (MemoryOps.older_first time) (Memory.insert_by_time time x l).
Proof.
  induction l as [|y l IH]; simpl; intros Hs; [repeat constructor|].
  destruct (time (snd x) <=? time (snd y))%Z eqn:E.
  - constructor; [assumption|]. constructor. now apply Z.leb_le.
  - inversion Hs as [|? ? Hs' Hhd]; subst.
    constructor; [now apply IH|].
    apply insert_by_time_hd; [|assumption].
    unfold MemoryOps.older_first. apply Z.leb_gt in E. lia.
Qed.

Lemma sort_by_time_sorted l :
  StronglySorted (MemoryOps.older_first time) (Memory.sort_by_time time l).
Proof.
  apply Sorted_StronglySorted.
  - intros a b c Hab Hbc. unfold MemoryOps.older_first in *. lia.
  - induction l as [|x l IH]; simpl; [constructor | now apply insert_by_time_sorted].
Qed.

Lemma In_skipn (A : Type) (j : nat) (l : list A) (y : A) :
  In y (skipn j l) -> In y l.
Proof. intros H. rewrite <- (firstn_skipn j l). apply in_or_app. now right. Qed.

Lemma In_firstn (A : Type) (j : nat) (l : list A) (y : A) :
  In y (firstn j l) -> In y l.
Proof. intros H. rewrite <- (firstn_skipn j l). apply in_or_app. now left. Qed.

Lemma sorted_split (A : Type) (R : A -> A -> Prop) (l : list A) :
  StronglySorted R l ->
  forall j a b, In a (firstn j l) -> In b (skipn j l) -> R a b.
Proof.
  induction 1 as [|c l Hs IH Hall]; intros j a b Ha Hb.
  - destruct j; destruct Ha.
  - destruct j as [|j]; [destruct Ha|]. simpl in Ha, Hb.
    destruct Ha as [<-|Ha].
    + rewrite Forall_forall in Hall. apply Hall. now apply In_skipn in Hb.
    + now apply (IH j).
Qed.

Lemma length_delete_In k m :
  In k (JSMap.keys m) -> S (List.length (JSMap.delete k m)) = List.length m.
Proof.
  induction m as [|[k0 v0] m IH]; simpl; [tauto|].
  destruct (String.eqb_spec k k0) as [->|Hne]; [reflexivity|].
  intros [E|Hl]; [congruence|]. simpl. now rewrite IH.
Qed.

Lemma In_delete_other k0 k v m :
  In (k, v) m -> k <> k0 -> In (k, v) (JSMap.delete k0 m).
Proof.
  induction m as [|[k' v'] m IH]; simpl; [tauto|].
  intros [E|Hin] Hne.
  - injection E as -> ->.
    destruct (String.eqb_spec k0 k); [congruence | now left].
  - destruct (String.eqb_spec k0 k'); [assumption | right; now apply IH].
Qed.

Lemma In_keys_delete_other k0 k m :
  In k (JSMap.keys m) -> k <> k0 -> In k (JSMap.keys (JSMap.delete k0 m)).
Proof.
  unfold JSMap.keys. intros Hin Hne.
  apply in_map_iff in Hin as ([k1 v] & E & Hin). simpl in E. subst k1.
  apply in_map_iff. exists (k, v). split; [reflexivity|].
  now apply In_delete_other.
Qed.

Lemma delete_all_cons x l m :
  Memory.delete_all (x :: l) m = Memory.delete_all l (JSMap.delete (fst x) m).
Proof. reflexivity. Qed.

Lemma length_delete_all l :
  forall m,
    NoDup (map fst l) ->
    (forall k, In k (map fst l) -> In k (JSMap.keys m)) ->
    List.length (Memory.delete_all l m) + List.length l = List.length m.
Proof.
  induction l as [|x l IH]; intros m Hnd Hsub; [simpl; lia|].
  rewrite delete_all_cons. simpl in Hnd.
  inversion Hnd as [|? ? Hnotin Hnd']; subst. cbn [List.length].
  rewrite Nat.add_succ_r, IH.
  - apply length_delete_In. apply Hsub. now left.
  - assumption.
  - intros k Hk. apply In_keys_delete_other.
    + apply Hsub. now right.
    + intros ->. contradiction.
Qed.

Lemma nodup_delete_all l :
  forall m, NoDup (JSMap.keys m) -> NoDup (JSMap.keys (Memory.delete_all l m)).
Proof.
  induction l as [|x l IH]; intros m Hnd; [exact Hnd|].
  rewrite delete_all_cons. apply IH. now apply nodup_keys_delete.
Qed.

Lemma In_delete_all l :
  forall m k v,
    NoDup (JSMap.keys m) ->
    (In (k, v) (Memory.delete_all l m) <-> In (k, v) m /\ ~ In k (map fst l)).
Proof.
  induction l as [|x l IH]; intros m k v Hnd; [simpl; tauto|].
  rewrite delete_all_cons, IH by now apply nodup_keys_delete. simpl. split.
  - intros [Hin Hnot]. split; [now apply In_delete in Hin|].
    intros [E|H]; [|contradiction].
    apply (@In_delete_nodup _ (fst x) k v m Hnd) in Hin. congruence.
  - intros [Hin Hnot]. split; [|tauto].
    apply In_delete_other; [assumption|]. intros ->. tauto.
Qed.

(** What one capacity branch of the sweep does to a map. *)
Lemma evict_oldest_spec (max : nat) m :
  NoDup (JSMap.keys m) ->
  let m' := Memory.evict_oldest time max m in
  List.length m' = Nat.min (List.length m) max
  /\ NoDup (JSMap.keys m')
  /\ (forall k v, In (k, v) m' -> In (k, v) m)
  /\ (forall k v k' v',
         In (k, v) m -> ~ In (k, v) m' -> In (k', v') m' ->
         (time v <= time v')%Z).
Proof.
  intros Hnd m'. subst m'. unfold Memory.evict_oldest, JSMap.size.
  destruct (Nat.ltb_spec max (List.length m)) as [Hlt|Hge].
  - rewrite length_sort_by_time.
    set (sorted := Memory.sort_by_time time m).
    set (j := List.length m - max).
    pose proof (sort_by_time_perm m) as Hperm. fold sorted in Hperm.
    assert (Hkeys : NoDup (map fst (firstn j sorted))).
    { assert (H : NoDup (map fst sorted)).
      { eapply Permutation_NoDup; [|exact Hnd].
        apply Permutation_map. now symmetry. }
      rewrite <- (firstn_skipn j sorted), map_app in H.
      now apply NoDup_app_remove_r in H. }
    assert (Hsub : forall k, In k (map fst (firstn j sorted)) -> In k (JSMap.keys m)).
    { intros k Hk. apply in_map_iff in Hk as (x & <- & Hx).
      apply In_firstn in Hx. apply (Permutation_in _ Hperm) in Hx.
      now apply (in_map fst) in Hx. }
    pose proof (@length_delete_all (firstn j sorted) m Hkeys Hsub) as Hlen.
    rewrite length_firstn in Hlen.
    assert (Hsl : List.length sorted = List.length m)
      by apply length_sort_by_time.
    split; [subst j; lia|].
    split; [now apply nodup_delete_all|].
    split.
    + intros k v Hin. now apply In_delete_all in Hin.
    + intros k v k' v' Hin Hgone Hkept.
      apply In_delete_all in Hkept as [Hin' Hnot']; [|assumption].
      assert (Hk : In k (map fst (firstn j sorted))).
      { destruct (in_dec string_dec k (map fst (firstn j sorted))) as [H|H];
          [exact H|].
        exfalso. apply Hgone. apply In_delete_all; auto. }
      apply in_map_iff in Hk as ([k1 v1] & E & Hfirst). simpl in E. subst k1.
      assert (v1 = v) as ->.
      { pose proof (In_firstn _ _ _ Hfirst) as H1.
        apply (Permutation_in _ Hperm) in H1.
        apply (@In_get_nodup _ k v1 m Hnd) in H1.
        apply (@In_get_nodup _ k v m Hnd) in Hin. congruence. }
      assert (Hlast : In (k', v') (skipn j sorted)).
      { apply (Permutation_in _ (Permutation_sym Hperm)) in Hin'.
        rewrite <- (firstn_skipn j sorted) in Hin'.
        apply in_app_or in Hin' as [H|H]; [|exact H].
        exfalso. apply Hnot'. now apply (in_map fst) in H. }
      apply (sorted_split (sort_by_time_sorted m) j _ _ Hfirst Hlast).
  - split; [lia|]. split; [assumption|]. split; [auto|].
    intros k v k' v' Hin Hgone. contradiction.
Qed.

(** The entry of greatest time is never evicted while the ceiling is at
    least one. *)
Lemma newest_survives (max : nat) m k v :
  NoDup (JSMap.keys m) ->
  1 <= max ->
  JSMap.get k m = Some v ->
  (forall k' v', In (k', v') m -> k' <> k -> (time v' < time v)%Z) ->
  JSMap.get k (Memory.evict_oldest time max m) = Some v.
Proof.
  intros Hnd Hmax Hget Hnewest.
  destruct (@evict_oldest_spec max m Hnd) as (Hlen & Hnd' & Hsub & Holder).
  pose proof (get_In _ _ Hget) as Hin.
  destruct (JSMap.get k (Memory.evict_oldest time max m)) as [v2|] eqn:Hget'.
  - apply get_In, Hsub in Hget'.
    apply (@In_get_nodup _ k v2 m Hnd) in Hget'. congruence.
  - exfalso. apply get_None_not_In in Hget'.
    assert (Hgone : ~ In (k, v) (Memory.evict_oldest time max m)).
    { intros H. apply Hget'. now apply (in_map fst) in H. }
    destruct (Memory.evict_oldest time max m) as [|[k' v'] rest] eqn:E.
    + destruct m; [destruct Hin|]. cbn [List.length] in Hlen. lia.
    + assert (Hkept : In (k', v') ((k', v') :: rest)) by now left.
      pose proof (Holder k v k' v' Hin Hgone Hkept) as Hle.
      assert (Hne : k' <> k).
      { intros ->. apply Hget'. now left. }
      pose proof (Hnewest k' v' (Hsub _ _ Hkept) Hne). lia.
Qed.

Lemma evict_oldest_idempotent (max : nat) m :
  NoDup (JSMap.keys m) ->
  Memory.evict_oldest time max (Memory.evict_oldest time max m)
  = Memory.evict_oldest time max m.
Proof.
  intros Hnd. destruct (@evict_oldest_spec max m Hnd) as (Hlen & _).
  set (m' := Memory.evict_oldest time max m) in *.
  unfold Memory.evict_oldest at 1, JSMap.size.
  destruct (Nat.ltb_spec max (List.length m')); [lia | reflexivity].
Qed.
End SweepOrder.

Lemma filter_idempotent (A : Type) (f : A -> bool) (l : list A) :
  filter f (filter f l) = filter f l.
Proof.
  apply filter_all. intros x Hx. now apply filter_In in Hx.
Qed.

(** X19.  Whatever the number of stored memories, one sweep brings the task
    memories and the repository memories back under their ceilings and
    evicts by age: it keeps min(size, ceiling) of them, unchanged, and every
    evicted memory was updated no later than every memory that is kept. *)
Theorem X19_sweep_restores_capacity_evicting_oldest :
  forall (m : Memory.MemoryManager) (now : Z),
    Memory.distinct_keys (Memory.taskMemories m) ->
    Memory.distinct_keys (Memory.repoMemories m) ->
    let m' := Memory.cleanupExpiredEntries m now in
    JSMap.size (Memory.taskMemories m')
    = Nat.min (JSMap.size (Memory.taskMemories m))
              (Memory.maxTaskMemory (Memory.config m))
    /\ JSMap.size (Memory.repoMemories m')
       = Nat.min (JSMap.size (Memory.repoMemories m))
                 (Memory.maxRepoMemory (Memory.config m))
    /\ (forall k v, In (k, v) (Memory.taskMemories m') ->
                    In (k, v) (Memory.taskMemories m))
    /\ (forall k v, In (k, v) (Memory.repoMemories m') ->
                    In (k, v) (Memory.repoMemories m))
    /\ (forall k v k' v',
           In (k, v) (Memory.taskMemories m) ->
           ~ In (k, v) (Memory.taskMemories m') ->
           In (k', v') (Memory.taskMemories m') ->
           (Memory.updatedAt v <= Memory.updatedAt v')%Z)
    /\ (forall k v k' v',
           In (k, v) (Memory.repoMemories m) ->
           ~ In (k, v) (Memory.repoMemories m') ->
           In (k', v') (Memory.repoMemories m') ->
           (Memory.lastUpdated v <= Memory.lastUpdated v')%Z).
Proof.
  intros m now Htask Hrepo m'. subst m'. simpl.
  destruct (@evict_oldest_spec _ Memory.updatedAt
              (Memory.maxTaskMemory (Memory.config m)) _ Htask)
    as (Hlen1 & _ & Hsub1 & Hold1).
  destruct (@evict_oldest_spec _ Memory.lastUpdated
              (Memory.maxRepoMemory (Memory.config m)) _ Hrepo)
    as (Hlen2 & _ & Hsub2 & Hold2).
  unfold JSMap.size. repeat split; assumption.
Qed.

(** X20.  A sweep leaves nothing for a second sweep at the same instant:
    running it twice gives the state one run gives. *)
Theorem X20_sweep_is_idempotent :
  forall (m : Memory.MemoryManager) (now : Z),
    Memory.distinct_keys (Memory.taskMemories m) ->
    Memory.distinct_keys (Memory.repoMemories m) ->
    Memory.cleanupExpiredEntries (Memory.cleanupExpiredEntries m now) now
    = Memory.cleanupExpiredEntries m now.
Proof.
  intros m now Htask Hrepo. unfold Memory.cleanupExpiredEntries. simpl.
  rewrite filter_idempotent.
  rewrite (@evict_oldest_idempotent _ Memory.updatedAt _ _ Htask).
  rewrite (@evict_oldest_idempotent _ Memory.lastUpdated _ _ Hrepo).
  destruct (Memory.enableVectorStore (Memory.config m));
    [now rewrite filter_idempotent | reflexivity].
Qed.

(** X21.  Eviction follows the last access, not the creation: a task memory
    that has just been created, read or written (so that its [updatedAt] is
    later than that of every other memory) is kept by the next sweep,
    however many memories are over the ceiling, provided the ceiling is at
    least one.  On an id with no stored memory the accessors throw
    "Task memory not found: <id>" and change nothing. *)
Theorem X21_task_memory_just_used_survives_the_sweep :
  forall (m : Memory.MemoryManager) (taskId : string) (now later : Z),
    Memory.distinct_keys (Memory.taskMemories m) ->
    1 <= Memory.maxTaskMemory (Memory.config m) ->
    (forall k v, In (k, v) (Memory.taskMemories m) -> k <> taskId ->
                 (Memory.updatedAt v < now)%Z) ->
    JSMap.get taskId
      (Memory.taskMemories
         (Memory.cleanupExpiredEntries (MemoryOps.createTaskMemory m taskId now) later))
    = Some (Memory.mkTaskMemory taskId now now)
    /\ match JSMap.get taskId (Memory.taskMemories m) with
       | Some tm =>
           fst (MemoryOps.touchTaskMemory m taskId now) = Ok tt
           /\ JSMap.get taskId
                (Memory.taskMemories
                   (Memory.cleanupExpiredEntries
                      (snd (MemoryOps.touchTaskMemory m taskId now)) later))
              = Some (Memory.mkTaskMemory (Memory.taskId tm) (Memory.createdAt tm) now)
       | None =>
           MemoryOps.touchTaskMemory m taskId now
           = (Throw ("Task memory not found: " ++ taskId), m)
       end.
Proof.
  intros m taskId now later Hnd Hmax Hnewest.
  assert (Hset : forall tm,
             Memory.updatedAt tm = now ->
             JSMap.get taskId
               (Memory.evict_oldest Memory.updatedAt
                  (Memory.maxTaskMemory (Memory.config m))
                  (JSMap.set taskId tm (Memory.taskMemories m)))
             = Some tm).
  { intros tm Htm. apply newest_survives.
    - now apply nodup_keys_set.
    - exact Hmax.
    - apply get_set_same.
    - intros k' v' Hin Hne. rewrite Htm.
      apply In_set_inv in Hin as [[E _]|Hin]; [congruence|].
      now apply (Hnewest k' v'). }
  split; [simpl; now apply Hset|].
  unfold MemoryOps.touchTaskMemory.
  destruct (JSMap.get taskId (Memory.taskMemories m)) as [tm|]; [|reflexivity].
  simpl. split; [reflexivity | now apply Hset].
Qed.

(** *** Generic entries: [store], [retrieve] and the sweep *)

Lemma entry_id_injective ty ty' key key' :
  Cache.entry_id ty key = Cache.entry_id ty' key' -> ty = ty' /\ key = key'.
Proof.
  unfold Cache.entry_id.
  destruct ty, ty'; simpl; intros H; try discriminate;
    injection H as ->; split; reflexivity.
Qed.

Section CacheProperties.
Variable V : Type.
Implicit Types (s : Cache.Store V) (e : Cache.Entry V).

Lemma get_filter (A : Type) (f : string * A -> bool) (k : string) (m : JSMap.t A) :
  NoDup (JSMap.keys m) ->
  JSMap.get k (filter f m)
  = match JSMap.get k m with
    | Some v => if f (k, v) then Some v else None
    | None => None
    end.
Proof.
  induction m as [|[k' v'] m IH]; simpl; intros Hnd; [reflexivity|].
  inversion Hnd as [|? ? Hnotin Hnd']; subst.
  destruct (String.eqb_spec k k') as [->|Hne].
  - destruct (f (k', v')) eqn:Hf; simpl.
    + now rewrite String.eqb_refl.
    + rewrite (IH Hnd').
      destruct (JSMap.get k' m) eqn:E; [|reflexivity].
      exfalso. apply Hnotin. eapply get_In_key; eassumption.
  - destruct (f (k', v')); simpl; [|now apply IH].
    destruct (String.eqb_spec k k'); [congruence | now apply IH].
Qed.

(** X22.  A stored value is read back until its time to live has run out:
    [retrieve] after [store] returns the value while
    [now - timestamp <= ttl], and for ever when the TTL is absent or 0;
    once the TTL has run out it returns null and removes the entry. *)
Theorem X22_stored_value_is_read_back_until_its_ttl_runs_out :
  forall s (key : string) (v : V) (ty : Cache.EntryType) (ttl : option Z)
         (now later : Z),
    Memory.distinct_keys s ->
    let s1 := Cache.store s key v ty ttl now in
    let alive := match ttl with
                 | Some t => (t =? 0)%Z || (later - now <=? t)%Z
                 | None => true
                 end in
    fst (Cache.retrieve s1 key ty later) = (if alive then Some v else None)
    /\ (alive = true ->
        exists e, JSMap.get (Cache.entry_id ty key) (snd (Cache.retrieve s1 key ty later))
                  = Some e
                  /\ Cache.value e = v /\ Cache.accessCount e = 1
                  /\ Cache.lastAccessed e = later /\ Cache.timestamp e = now)
    /\ (alive = false ->
        JSMap.get (Cache.entry_id ty key) (snd (Cache.retrieve s1 key ty later))
        = None).
Proof.
  intros s key v ty ttl now later Hnd s1 alive. subst s1.
  unfold Cache.retrieve, Cache.store. rewrite get_set_same.
  assert (Hexp : Memory.expired later
                   (Cache.reduce (Cache.mkEntry ty key v now ttl 0 now))
                 = negb alive).
  { subst alive. unfold Memory.expired. simpl. destruct ttl as [t|]; [|reflexivity].
    rewrite negb_orb. f_equal. rewrite Z.gtb_ltb, Z.leb_antisym.
    now rewrite negb_involutive. }
  rewrite Hexp. destruct alive; simpl.
  - split; [reflexivity|]. split; [|discriminate].
    intros _. rewrite get_set_same. eexists. split; [reflexivity|]. now simpl.
  - split; [reflexivity|]. split; [discriminate|].
    intros _. apply get_delete_same. now apply nodup_keys_set.
Qed.

(** X23.  Entries of different types, or under different keys, never
    collide: storing under one (type, key) does not change what [retrieve]
    returns for another. *)
Theorem X23_store_leaves_other_entries_alone :
  forall s (key key' : string) (v : V) (ty ty' : Cache.EntryType)
         (ttl : option Z) (now later : Z),
    (ty, key) <> (ty', key') ->
    fst (Cache.retrieve (Cache.store s key v ty ttl now) key' ty' later)
    = fst (Cache.retrieve s key' ty' later).
Proof.
  intros s key key' v ty ty' ttl now later Hne.
  unfold Cache.retrieve, Cache.store.
  rewrite get_set_other.
  - destruct (JSMap.get _ s) as [e|]; [|reflexivity].
    now destruct (Memory.expired later (Cache.reduce e)).
  - intros E. apply entry_id_injective in E as [-> ->]. now apply Hne.
Qed.

(** X24.  [retrieve] and the sweep agree on what has expired: at the same
    instant, an entry that [retrieve] still returns survives the sweep, and
    sweeping first does not change what [retrieve] returns. *)
Theorem X24_retrieve_agrees_with_the_sweep :
  forall s (key : string) (ty : Cache.EntryType) (now : Z),
    Memory.distinct_keys s ->
    fst (Cache.retrieve (Cache.sweep s now) key ty now)
    = fst (Cache.retrieve s key ty now)
    /\ forall v, fst (Cache.retrieve s key ty now) = Some v ->
                 exists e, JSMap.get (Cache.entry_id ty key) (Cache.sweep s now) = Some e
                           /\ Cache.value e = v.
Proof.
  intros s key ty now Hnd. unfold Cache.retrieve, Cache.sweep.
  rewrite (@get_filter _ _ _ s Hnd).
  destruct (JSMap.get (Cache.entry_id ty key) s) as [e|]; simpl.
  - destruct (Memory.expired now (Cache.reduce e)) eqn:E; simpl.
    + split; [reflexivity | discriminate].
    + rewrite E. simpl. split; [reflexivity|].
      intros v Hv. injection Hv as <-. eauto.
  - split; [reflexivity | discriminate].
Qed.
End CacheProperties.
(* ------------------------------------------------------------------ *)
(** ** ToolRegistry: validation, accounting *)

Lemma flat_map_nil (A B : Type) (f : A -> list B) (l : list A) :
  flat_map f l = [] <-> forall x, In x l -> f x = [].
Proof.
  induction l as [|a l IH]; simpl; [tauto|]. split.
  - intros H. apply app_eq_nil in H as [Ha Hl].
    intros x [<-|Hx]; [assumption | now apply IH].
  - intros H. rewrite (H a) by now left. simpl. apply IH.
    intros x Hx. apply H. now right.
Qed.

(** The type error is never the empty string, so it is always pushed. *)
Lemma pushed_type_error name value expectedType :
  Tools.pushed (Tools.validateType name value expectedType) = []
  <-> Tools.validateType name value expectedType = None.
Proof.
  unfold Tools.validateType.
  destruct (negb _); simpl; split; congruence.
Qed.

Section ToolAccounting.
Variable rt : Tools.Runtime.
Implicit Types (r : Tools.ToolRegistry) (m : Tools.ToolMetrics).

Lemma rule_errors_nil name value (rules : list Tools.ValidationRule) :
  Tools.rule_errors rt name value rules = Ok [] <->
  forall rule, In rule rules ->
               exists o, Tools.validateRule rt name value rule = Ok o
                         /\ Tools.pushed o = [].
Proof.
  induction rules as [|rule rules IH]; simpl.
  - split; [intros _ rule [] | reflexivity].
  - destruct (Tools.validateRule rt name value rule) as [o|e] eqn:Hrule.
    + destruct (Tools.rule_errors rt name value rules) as [errs|e] eqn:Hrest.
      * split.
        -- intros H. injection H as H. apply app_eq_nil in H as [Ho ->].
           intros rule' [<-|Hin]; [eauto | now apply (proj1 IH)].
        -- intros H. destruct (H rule (or_introl eq_refl)) as (o' & Ho' & Hp).
           rewrite Hrule in Ho'. injection Ho' as <-. rewrite Hp. simpl.
           apply IH. intros rule' Hin. apply H. now right.
      * split; [discriminate|]. intros H.
        assert (Hn : @Throw (list string) e = Ok [])
          by (apply IH; intros rule' Hin; apply H; now right).
        discriminate.
    + split; [discriminate|]. intros H.
      destruct (H rule (or_introl eq_refl)) as (o & Ho & _).
      rewrite Hrule in Ho. discriminate.
Qed.

Lemma entry_errors_nil (params : list Tools.ToolParameter) name value :
  Tools.entry_errors rt params (name, value) = Ok [] <->
  exists p,
    find (fun p => String.eqb (Tools.param_name p) name) params = Some p
    /\ (value = Tools.JNull \/ value = Tools.JUndefined
        \/ Tools.validateType name value (Tools.param_type p) = None)
    /\ (forall rules rule,
           Tools.validation p = Some rules -> In rule rules ->
           exists o, Tools.validateRule rt name value rule = Ok o
                     /\ Tools.pushed o = []).
Proof.
  unfold Tools.entry_errors.
  destruct (find _ params) as [p|];
    [|split; [discriminate | intros (p & H & _); discriminate]].
  set (typeErrors := match value with
                     | Tools.JNull | Tools.JUndefined => []
                     | _ => Tools.pushed
                              (Tools.validateType name value (Tools.param_type p))
                     end).
  assert (Htype : typeErrors = [] <->
                  (value = Tools.JNull \/ value = Tools.JUndefined
                   \/ Tools.validateType name value (Tools.param_type p) = None)).
  { subst typeErrors. split.
    - intros H. destruct value; auto; right; right; now apply pushed_type_error.
    - intros [-> | [-> | Hnone]]; [reflexivity | reflexivity |].
      destruct value; try reflexivity; now apply pushed_type_error. }
  destruct (Tools.validation p) as [rules|] eqn:Hval.
  - destruct (Tools.rule_errors rt name value rules) as [errs|e] eqn:Hrules.
    + split.
      * intros H. injection H as H. apply app_eq_nil in H as [Ht ->].
        exists p. split; [reflexivity|]. split; [now apply Htype|].
        intros rules' rule E Hin.
        assert (rules' = rules) as -> by congruence.
        now apply (proj1 (rule_errors_nil name value rules) Hrules).
      * intros (p' & E & Ht & Hr). injection E as <-.
        rewrite (proj2 Htype Ht). simpl.
        assert (Hn : Tools.rule_errors rt name value rules = Ok [])
          by (apply rule_errors_nil; intros rule Hin; now apply (Hr rules)).
        congruence.
    + split; [discriminate|].
      intros (p' & E & _ & Hr). injection E as <-.
      assert (Hn : Tools.rule_errors rt name value rules = Ok [])
        by (apply rule_errors_nil; intros rule Hin; now apply (Hr rules)).
      congruence.
  - split.
    + intros H. assert (Ht : typeErrors = []) by congruence.
      exists p. split; [reflexivity|].
      split; [now apply Htype | intros rules rule E; congruence].
    + intros (p' & E & Ht & _). injection E as <-. now rewrite (proj2 Htype Ht).
Qed.

Lemma entries_errors_nil (params : list Tools.ToolParameter)
      (l : list (string * Tools.JSValue)) :
  Tools.entries_errors rt params l = Ok [] <->
  forall entry, In entry l -> Tools.entry_errors rt params entry = Ok [].
Proof.
  induction l as [|entry l IH]; simpl.
  - split; [intros _ entry [] | reflexivity].
  - destruct (Tools.entry_errors rt params entry) as [errs|e] eqn:Hentry.
    + destruct (Tools.entries_errors rt params l) as [more|e] eqn:Hrest.
      * split.
        -- intros H. injection H as H. apply app_eq_nil in H as [-> ->].
           intros entry' [<-|Hin]; [assumption | now apply (proj1 IH)].
        -- intros H. pose proof (H entry (or_introl eq_refl)) as He.
           rewrite Hentry in He. injection He as ->. simpl.
           apply IH. intros entry' Hin. apply H. now right.
      * split; [discriminate|]. intros H.
        assert (Hn : @Throw (list string) e = Ok [])
          by (apply IH; intros entry' Hin; apply H; now right).
        discriminate.
    + split; [discriminate|]. intros H.
      pose proof (H entry (or_introl eq_refl)) as He. rewrite Hentry in He.
      discriminate.
Qed.

(** X25.  [validateArguments] lets exactly these argument objects
    through: every required parameter's name is found in the object by the
    [in] operator (as a property of its own or an inherited one), and every
    argument the object enumerates names a declared parameter, is null or
    undefined or has the declared type, and every validation rule of its
    parameter is evaluated without an exception and pushes no error (a rule
    with an empty message never does).  So an argument the tool does not
    declare is rejected, and a null argument passes the type check. *)
Theorem X25_validateArguments_accepts_exactly_wellformed_arguments :
  forall (config : Tools.ToolConfig) (args : Tools.Args),
    Tools.accepted rt config args = true <->
    (forall p, In p (Tools.parameters config) -> Tools.required p = true ->
               Tools.has_property (Tools.param_name p) args = true)
    /\ (forall name value,
           In (name, value) (Tools.entries args) ->
           exists p,
             find (fun p => String.eqb (Tools.param_name p) name)
                  (Tools.parameters config) = Some p
             /\ (value = Tools.JNull \/ value = Tools.JUndefined
                 \/ Tools.validateType name value (Tools.param_type p) = None)
             /\ (forall rules rule,
                    Tools.validation p = Some rules -> In rule rules ->
                    exists o, Tools.validateRule rt name value rule = Ok o
                              /\ Tools.pushed o = [])).
Proof.
  intros config args. unfold Tools.accepted, Tools.validateArguments.
  split.
  - destruct (Tools.entries_errors rt (Tools.parameters config) (Tools.entries args))
      as [found|e] eqn:Hfound; [|discriminate].
    cbn [Tools.valid]. rewrite Nat.eqb_eq, length_zero_iff_nil.
    intros H. apply app_eq_nil in H as [Hmissing ->]. split.
    + intros p Hin Hreq. unfold Tools.missing_errors in Hmissing.
      pose proof (proj1 (flat_map_nil _ _) Hmissing p Hin) as Hp.
      cbv beta in Hp. rewrite Hreq in Hp.
      destruct (Tools.has_property _ args); [reflexivity | discriminate].
    + intros name value Hin. apply entry_errors_nil.
      now apply (proj1 (entries_errors_nil _ _) Hfound).
  - intros [Hreq Hentries].
    assert (H1 : Tools.missing_errors (Tools.parameters config) args = []).
    { apply flat_map_nil. intros p Hin.
      destruct (Tools.required p) eqn:Hr; [|reflexivity].
      now rewrite (Hreq p Hin Hr). }
    assert (H2 : Tools.entries_errors rt (Tools.parameters config) (Tools.entries args)
                 = Ok []).
    { apply entries_errors_nil. intros [name value] Hin.
      apply entry_errors_nil. now apply Hentries. }
    now rewrite H2, H1.
Qed.

(** The counters of one metrics record agree. *)
Lemma consistent_zero now :
  let m := Tools.zero_metrics now in
  Tools.calls m = (Tools.successes m + Tools.failures m)%Z
  /\ (0 <= Tools.successes m)%Z /\ (0 <= Tools.failures m)%Z
  /\ Tools.averageLatency m
     = (if (Tools.calls m =? 0)%Z then 0%Q
        else Tools.average (Tools.totalDuration m) (Tools.calls m)).
Proof. simpl. repeat split; lia. Qed.

Lemma get_set_cases (V : Type) (k n : string) (v x : V) (mp : JSMap.t V) :
  JSMap.get n (JSMap.set k v mp) = Some x ->
  (n = k /\ x = v) \/ (n <> k /\ JSMap.get n mp = Some x).
Proof.
  destruct (string_dec k n) as [->|Hne].
  - rewrite get_set_same. intros H. injection H as <-. now left.
  - rewrite get_set_other by assumption. intros H. right. split; congruence.
Qed.

Lemma consistent_step r (c : Tools.Call) :
  (forall n m, JSMap.get n (Tools.metrics r) = Some m ->
               Tools.calls m = (Tools.successes m + Tools.failures m)%Z
               /\ (0 <= Tools.successes m)%Z /\ (0 <= Tools.failures m)%Z
               /\ Tools.averageLatency m
                  = (if (Tools.calls m =? 0)%Z then 0%Q
                     else Tools.average (Tools.totalDuration m) (Tools.calls m))) ->
  forall n m, JSMap.get n (Tools.metrics (Tools.apply_call rt r c)) = Some m ->
              Tools.calls m = (Tools.successes m + Tools.failures m)%Z
              /\ (0 <= Tools.successes m)%Z /\ (0 <= Tools.failures m)%Z
              /\ Tools.averageLatency m
                 = (if (Tools.calls m =? 0)%Z then 0%Q
                    else Tools.average (Tools.totalDuration m) (Tools.calls m)).
Proof.
  intros Hr n m.
  assert (Hrec : forall m0 d now mp,
             JSMap.get n mp = Some m ->
             (exists k, mp = JSMap.set k (Tools.record_success m0 d now) (Tools.metrics r)
                        /\ JSMap.get k (Tools.metrics r) = Some m0)
             \/ (exists k, mp = JSMap.set k (Tools.record_failure m0 d now) (Tools.metrics r)
                           /\ JSMap.get k (Tools.metrics r) = Some m0) ->
             Tools.calls m = (Tools.successes m + Tools.failures m)%Z
             /\ (0 <= Tools.successes m)%Z /\ (0 <= Tools.failures m)%Z
             /\ Tools.averageLatency m
                = (if (Tools.calls m =? 0)%Z then 0%Q
                   else Tools.average (Tools.totalDuration m) (Tools.calls m))).
  { intros m0 d now mp Hget [(k & -> & Hk) | (k & -> & Hk)];
      apply get_set_cases in Hget as [[_ ->] | [_ Hold]];
      try (now apply (Hr n));
      destruct (Hr k m0 Hk) as (Hc & Hs & Hf & _); simpl;
      (assert (Hnz : (Tools.calls m0 + 1 =? 0)%Z = false) by (apply Z.eqb_neq; lia));
      rewrite Hnz; repeat split; lia. }
  destruct c as [config now | toolName args clk |]; simpl.
  - intros Hget. apply get_set_cases in Hget as [[_ ->] | [_ Hold]].
    + apply consistent_zero.
    + now apply (Hr n).
  - unfold Tools.executeTool.
    destruct (JSMap.get toolName (Tools.tools r)) as [config|]; [|apply Hr].
    destruct (JSMap.get toolName (Tools.metrics r)) as [m0|] eqn:Hm0; [|apply Hr].
    destruct (Tools.attempt rt config args); simpl; intros Hget;
      (eapply (Hrec m0); [exact Hget|]); [left | right];
      (eexists; split; [reflexivity | exact Hm0]).
  - discriminate.
Qed.

(** X26.  In every registry the public interface can produce, the counters
    of every tool agree: calls = successes + failures, none is negative, and
    the average latency is the total duration divided by the number of
    calls (0 before the first call). *)
Theorem X26_tool_metrics_stay_consistent :
  forall (cs : list Tools.Call) (n : string) (m : Tools.ToolMetrics),
    JSMap.get n (Tools.metrics (Tools.after rt cs)) = Some m ->
    Tools.calls m = (Tools.successes m + Tools.failures m)%Z
    /\ (0 <= Tools.successes m)%Z /\ (0 <= Tools.failures m)%Z
    /\ Tools.averageLatency m
       = (if (Tools.calls m =? 0)%Z then 0%Q
          else Tools.average (Tools.totalDuration m) (Tools.calls m)).
Proof.
  intros cs. unfold Tools.after.
  assert (H : forall r,
             (forall n m, JSMap.get n (Tools.metrics r) = Some m ->
                          Tools.calls m = (Tools.successes m + Tools.failures m)%Z
                          /\ (0 <= Tools.successes m)%Z /\ (0 <= Tools.failures m)%Z
                          /\ Tools.averageLatency m
                             = (if (Tools.calls m =? 0)%Z then 0%Q
                                else Tools.average (Tools.totalDuration m)
                                                   (Tools.calls m))) ->
             forall n m,
               JSMap.get n (Tools.metrics (fold_left (Tools.apply_call rt) cs r)) = Some m ->
               Tools.calls m = (Tools.successes m + Tools.failures m)%Z
               /\ (0 <= Tools.successes m)%Z /\ (0 <= Tools.failures m)%Z
               /\ Tools.averageLatency m
                  = (if (Tools.calls m =? 0)%Z then 0%Q
                     else Tools.average (Tools.totalDuration m) (Tools.calls m))).
  { induction cs as [|c cs IH]; intros r Hr; [exact Hr|].
    simpl. apply IH. now apply consistent_step. }
  apply H. intros n m Hget. discriminate.
Qed.

(** X27.  On a registry the public interface can produce, [executeTool]
    throws for an unknown tool only ("Tool not found: <name>", nothing
    changed).  For a registered tool it always returns a result and counts
    one call, on that tool only.  The implementation is run, once, exactly
    when the validation lets the arguments through; a result it returns is
    passed on and counted as a success whatever its [success] flag says.
    Every other outcome is a result with [success = false], counted as a
    failure: an exception of the implementation, the validation errors
    ("Invalid arguments: ..."), and an exception raised inside the
    validation itself, whose message then stands in place of the
    validation errors. *)
Theorem X27_executeTool_returns_a_result_and_counts_one_call :
  forall (cs : list Tools.Call) (toolName : string) (args : Tools.Args)
         (clk : Tools.Clock),
    let r := Tools.after rt cs in
    let run := Tools.executeTool rt r toolName args clk in
    let d := (Tools.endTime clk - Tools.startTime clk)%Z in
    match JSMap.get toolName (Tools.tools r) with
    | None => run = (Throw ("Tool not found: " ++ toolName), r)
    | Some config =>
        exists result m m',
          fst run = Ok result
          /\ JSMap.get toolName (Tools.metrics r) = Some m
          /\ JSMap.get toolName (Tools.metrics (snd run)) = Some m'
          /\ (forall other, other <> toolName ->
                            JSMap.get other (Tools.metrics (snd run))
                            = JSMap.get other (Tools.metrics r))
          /\ Tools.tools (snd run) = Tools.tools r
          /\ Tools.calls m' = (Tools.calls m + 1)%Z
          /\ Tools.totalDuration m' = (Tools.totalDuration m + d)%Z
          /\ match Tools.validateArguments rt config args with
             | Throw e =>
                 Tools.executed (snd run) = Tools.executed r
                 /\ result = Tools.mkToolResult false (Some e) d
                 /\ Tools.successes m' = Tools.successes m
                 /\ Tools.failures m' = (Tools.failures m + 1)%Z
             | Ok validation =>
                 if Tools.valid validation then
                   Tools.executed (snd run) = Tools.executed r ++ [(toolName, args)]
                   /\ match Tools.tool_execute rt config args with
                      | Ok returned =>
                          result = returned
                          /\ Tools.successes m' = (Tools.successes m + 1)%Z
                          /\ Tools.failures m' = Tools.failures m
                      | Throw e =>
                          result = Tools.mkToolResult false (Some e) d
                          /\ Tools.successes m' = Tools.successes m
                          /\ Tools.failures m' = (Tools.failures m + 1)%Z
                      end
                 else
                   Tools.executed (snd run) = Tools.executed r
                   /\ result
                      = Tools.mkToolResult false
                          (Some (Tools.invalid_arguments_message
                                   (Tools.errors validation))) d
                   /\ Tools.successes m' = Tools.successes m
                   /\ Tools.failures m' = (Tools.failures m + 1)%Z
             end
    end.
Proof.
  intros cs toolName args clk r run d. subst run.
  pose proof (@metrics_cover_after rt cs) as Hcover. fold r in Hcover.
  unfold Tools.executeTool.
  destruct (JSMap.get toolName (Tools.tools r)) as [config|] eqn:Htool;
    [|reflexivity].
  destruct (Hcover toolName config Htool) as [m Hm]. rewrite Hm.
  assert (Hother : forall x other, other <> toolName ->
                     JSMap.get other (JSMap.set toolName x (Tools.metrics r))
                     = JSMap.get other (Tools.metrics r)).
  { intros x other Hne. apply get_set_other. congruence. }
  unfold Tools.accepted, Tools.attempt.
  destruct (Tools.validateArguments rt config args) as [validation|e]; simpl.
  - destruct (Tools.valid validation); simpl.
    + destruct (Tools.tool_execute rt config args) as [returned|e]; simpl;
        eexists _, m, _; rewrite get_set_same;
        (repeat split; try reflexivity; try apply Hother).
    + eexists _, m, _. rewrite get_set_same.
      repeat split; try reflexivity; apply Hother.
  - eexists _, m, _. rewrite get_set_same.
    repeat split; try reflexivity; apply Hother.
Qed.
End ToolAccounting.

(** ** BaseAgent: failing hooks, a second life; AgentFactory *)

Section AgentLifecycle.
Variables TaskResult TaskContext : Type.
Variable h : Agent.Hooks TaskResult TaskContext.
Implicit Types a : Agent.BaseAgent.

Lemma invocations_called (c : Agent.HookCall) a :
  Agent.invocations c (Agent.called c a) = S (Agent.invocations c a).
Proof.
  unfold Agent.invocations, Agent.called. simpl.
  rewrite filter_app, length_app. simpl.
  assert (E : Agent.HookCall_eqb c c = true) by now destruct c.
  rewrite E. simpl. lia.
Qed.

Lemma execute_initialized a (task : Task) (context : TaskContext) :
  Agent.isInitialized a = true ->
  fst (Agent.execute h a task context)
  = Agent.onExecute h (Agent.calls a) task context
  /\ Agent.invocations Agent.CallOnExecute (snd (Agent.execute h a task context))
     = S (Agent.invocations Agent.CallOnExecute a)
  /\ Agent.isInitialized (snd (Agent.execute h a task context)) = true.
Proof.
  intros Hinit. unfold Agent.execute. rewrite Hinit. simpl.
  pose proof (invocations_called Agent.CallOnExecute
                (Agent.log (Agent.LogInfo ("Executing task: " ++ description task)) a))
    as Hcount.
  destruct (Agent.onExecute h (Agent.calls a) task context); simpl;
    (split; [reflexivity|]); (split; [exact Hcount | exact Hinit]).
Qed.

(** X28.  A lifecycle hook that rejects leaves the agent where it was.
    When [onInitialize] rejects, [initialize] rejects with the same error,
    the agent stays uninitialized and [execute] keeps failing with
    "Agent <name> is not initialized"; when [onShutdown] rejects, [shutdown]
    rejects with the same error, the agent stays initialized and [execute]
    still runs [onExecute]. *)
Theorem X28_rejected_lifecycle_hook_leaves_the_agent_as_it_was :
  forall a (e : string) a',
    (Agent.initialize h a = (Throw e, a') ->
     Agent.isInitialized a' = false
     /\ Agent.invocations Agent.CallOnInitialize a'
        = S (Agent.invocations Agent.CallOnInitialize a)
     /\ forall (task : Task) (context : TaskContext),
          Agent.execute h a' task context
          = (Throw (Agent.not_initialized_message (Agent.name a)), a'))
    /\ (Agent.shutdown h a = (Throw e, a') ->
        Agent.isInitialized a' = true
        /\ Agent.invocations Agent.CallOnShutdown a'
           = S (Agent.invocations Agent.CallOnShutdown a)
        /\ forall (task : Task) (context : TaskContext),
             fst (Agent.execute h a' task context)
             = Agent.onExecute h (Agent.calls a') task context).
Proof.
  intros a e a'. split.
  - unfold Agent.initialize.
    destruct (Agent.isInitialized a) eqn:Hinit; [discriminate|].
    destruct (Agent.onInitialize h _); [|discriminate].
    intros H. injection H as _ <-.
    split; [exact Hinit|].
    split; [unfold Agent.invocations; simpl; rewrite filter_app, length_app; simpl; lia|].
    intros task context. unfold Agent.execute. simpl. now rewrite Hinit.
  - unfold Agent.shutdown.
    destruct (Agent.isInitialized a) eqn:Hinit; [|discriminate]. simpl.
    destruct (Agent.onShutdown h _); [|discriminate].
    intros H. injection H as _ <-.
    split; [exact Hinit|].
    split; [unfold Agent.invocations; simpl; rewrite filter_app, length_app; simpl; lia|].
    intros task context. now apply execute_initialized.
Qed.

(** X29.  Shutting an agent down is not final: [initialize] after a
    [shutdown] that returned runs [onInitialize] once more, and if that
    resolves the agent executes tasks again. *)
Theorem X29_agent_can_be_initialized_again_after_shutdown :
  forall a a1 a2,
    Agent.isInitialized a = true ->
    Agent.shutdown h a = (Ok tt, a1) ->
    Agent.initialize h a1 = (Ok tt, a2) ->
    Agent.isInitialized a2 = true
    /\ Agent.invocations Agent.CallOnInitialize a2
       = S (Agent.invocations Agent.CallOnInitialize a)
    /\ Agent.invocations Agent.CallOnShutdown a2
       = S (Agent.invocations Agent.CallOnShutdown a)
    /\ forall (task : Task) (context : TaskContext),
         fst (Agent.execute h a2 task context)
         = Agent.onExecute h (Agent.calls a2) task context.
Proof.
  intros a a1 a2 Hinit Hsd Hin.
  unfold Agent.shutdown in Hsd. rewrite Hinit in Hsd. simpl in Hsd.
  destruct (Agent.onShutdown h _); [discriminate|]. injection Hsd as <-.
  unfold Agent.initialize in Hin. simpl in Hin.
  destruct (Agent.onInitialize h _); [discriminate|]. injection Hin as <-.
  split; [reflexivity|].
  unfold Agent.invocations. simpl.
  rewrite !filter_app, !length_app. simpl.
  split; [lia|]. split; [lia|].
  intros task context. now apply execute_initialized.
Qed.
End AgentLifecycle.

Section FactoryProperties.
Variables TaskResult TaskContext : Type.
Variable class_of : string -> Agent.Hooks TaskResult TaskContext.

(** X30.  [createAgent] hands out initialized agents only.  When it
    returns, the factory had been initialized, the type is one of the eight
    it has a class for, and the agent carries the configured name, has run
    [onInitialize] exactly once and accepts tasks.  Before [initialize] it
    throws "AgentFactory not initialized" whatever the type; an unknown type
    gives "Unknown agent type: <type>"; a rejection of [onInitialize] is
    passed on. *)
Theorem X30_createAgent_returns_initialized_agents_only :
  forall (initialized : bool) (config : Factory.AgentConfig),
    match Factory.createAgent class_of initialized config with
    | Ok agent =>
        initialized = true
        /\ In (Factory.config_type config) Factory.known_types
        /\ Agent.name agent = Factory.config_name config
        /\ Agent.isInitialized agent = true
        /\ Agent.calls agent = [Agent.CallOnInitialize]
        /\ forall (task : Task) (context : TaskContext),
             fst (Agent.execute (class_of (Factory.config_type config))
                                agent task context)
             = Agent.onExecute (class_of (Factory.config_type config))
                               [Agent.CallOnInitialize] task context
    | Throw e =>
        (initialized = false /\ e = "AgentFactory not initialized")
        \/ (initialized = true
            /\ ~ In (Factory.config_type config) Factory.known_types
            /\ e = ("Unknown agent type: " ++ Factory.config_type config)%string)
        \/ (initialized = true
            /\ In (Factory.config_type config) Factory.known_types
            /\ Agent.onInitialize (class_of (Factory.config_type config)) []
               = Some e)
    end.
Proof.
  intros initialized config. unfold Factory.createAgent.
  remember (existsb (String.eqb (Factory.config_type config)) Factory.known_types)
    as known eqn:Hknown.
  symmetry in Hknown.
  destruct initialized; cbn [negb]; [|left; split; reflexivity].
  destruct known; cbn [negb].
  - assert (Hin : In (Factory.config_type config) Factory.known_types).
    { apply existsb_exists in Hknown as (x & Hx & E).
      apply String.eqb_eq in E. now subst x. }
    unfold Agent.initialize. simpl.
    destruct (Agent.onInitialize (class_of (Factory.config_type config)) [])
      as [e|] eqn:Hhook; simpl.
    + right. right. repeat split; assumption.
    + repeat split; try assumption; try reflexivity.
      intros task context.
      now destruct (@execute_initialized _ _ (class_of (Factory.config_type config))
                      (Agent.log (Agent.LogInfo ("Agent initialized: "
                                                 ++ Factory.config_name config))
                         (Agent.set_initialized true
                            (Agent.called Agent.CallOnInitialize
                               (Agent.log (Agent.LogInfo ("Initializing agent: "
                                                          ++ Factory.config_name config))
                                  (Agent.new (Factory.config_name config))))))
                      task context eq_refl) as [H _].
  - right. left. split; [reflexivity|]. split; [|reflexivity].
    intros Hin. assert (H : existsb (String.eqb (Factory.config_type config))
                                    Factory.known_types = true).
    { apply existsb_exists. exists (Factory.config_type config).
      split; [assumption | apply String.eqb_refl]. }
    congruence.
Qed.
End FactoryProperties.

(* ------------------------------------------------------------------ *)
(** ** Closed instances *)

Lemma X5_witness :
  let run := Router.generateResponse Router.echo_backend (Router.sample_router None)
                                     Router.long_request 1000 1005 in
  match fst run with
  | Ok _ =>
      List.length (Router.latency (Router.metrics (snd run))) <= 100
      /\ exists older,
           Router.latency (Router.metrics (snd run)) = older ++ [(1005 - 1000)%Z]
  | Throw _ =>
      Router.latency (Router.metrics (snd run))
      = Router.latency (Router.metrics (Router.sample_router None))
  end.
Proof.
  exact (@X5_latency_sample_keeps_last_hundred
           Router.echo_backend (Router.sample_router None) Router.long_request
           1000%Z 1005%Z eq_refl).
Defined.

Lemma X6_witness :
  Forall (fun t => (1000 - Router.rateLimit_window
                             (Router.config (Router.sample_router None)) < t)%Z)
         [1000%Z].
Proof.
  refine (proj1 (@X6_request_times_stay_within_window_and_count
                   Router.echo_backend (Router.sample_router None)
                   Router.long_request 1000%Z 1005%Z eq_refl _ _
                   "small" [1000%Z] _)).
  - reflexivity.
  - vm_compute. discriminate.
  - vm_compute. now left.
Defined.

Lemma X10_witness :
  (RouterOps.calculateModelScore Router.small Router.long_request 3
   < RouterOps.calculateModelScore Router.big Router.long_request 3)%Q.
Proof.
  refine (proj1 (@X10_sufficient_model_outscores_insufficient
                   Router.big Router.small Router.long_request 3%Z _ _ _ _ _ _ _));
    vm_compute; first [reflexivity | discriminate].
Defined.

Lemma X11_witness :
  Permutation
    (map RouterOps.rec_model
         (RouterOps.getModelRecommendations (Router.sample_router None)
                                            Router.long_request))
    (JSMap.keys (Router.models (Router.sample_router None))).
Proof.
  refine (proj1 (@X11_recommendations_cover_models_by_descending_score
                   (Router.sample_router None) Router.long_request _)).
  intros name m [E|[E|[]]]; injection E as <- <-; reflexivity.
Defined.


Lemma X15_witness :
  let o := Orch.mkOrch [("t1", Orch.task "t1" pending None);
                        ("t2", Orch.task "t2" pending None)] [] [] 1 [] in
  Orch.status_of (Orch.processNextTask Orch.quiet o) "t1" = Some in_progress
  /\ Orch.status_of (Orch.processNextTask (Orch.rejects Orch.task_started) o) "t1"
     = Some failed.
Proof.
  intros o. split.
  - refine (proj1 (@X15_processNextTask_starts_first_eligible_task
                     Orch.quiet o [] "t1" (Orch.task "t1" pending None)
                     [("t2", Orch.task "t2" pending None)] _ eq_refl _ eq_refl _)).
    + repeat constructor; simpl; intuition discriminate.
    + simpl. lia.
    + intros kv [].
  - refine (proj1 (proj2 (@X15_processNextTask_starts_first_eligible_task
                            (Orch.rejects Orch.task_started) o [] "t1"
                            (Orch.task "t1" pending None)
                            [("t2", Orch.task "t2" pending None)]
                            _ eq_refl _ eq_refl _))).
    + repeat constructor; simpl; intuition discriminate.
    + simpl. lia.
    + intros kv [].
Defined.


(** The task that ends is "t1"; "t2" is pending before "t3" in the table
    but waits on a task that is not stored, and "t3" waits on "t1"
    itself. *)
Lemma X18_witness :
  let o := Orch.run Orch.quiet 1
                    [Orch.Submit (Orch.task "t1" pending None);
                     Orch.Submit (Orch.task "t2" pending (Some ["t0"]));
                     Orch.Submit (Orch.task "t3" pending (Some ["t1"]))] in
  Orch.status_of (Orch.step Orch.quiet o (Orch.Settle "t1" true)) "t1"
  = Some completed
  /\ Orch.status_of (Orch.step Orch.quiet o (Orch.Settle "t1" true)) "t3"
     = Some in_progress.
Proof.
  intros o.
  destruct (@X18_settled_slot_goes_to_first_eligible_task
              Orch.quiet 1
              [Orch.Submit (Orch.task "t1" pending None);
               Orch.Submit (Orch.task "t2" pending (Some ["t0"]));
               Orch.Submit (Orch.task "t3" pending (Some ["t1"]))]
              "t1" true (Orch.task "t1" pending None)
              [("t1", with_status_result
                        (with_status (Orch.task "t1" pending None) in_progress)
                        completed);
               ("t2", Orch.task "t2" pending (Some ["t0"]))]
              "t3" (Orch.task "t3" pending (Some ["t1"])) [])
    as (H1 & H2 & _).
  - reflexivity.
  - reflexivity.
  - reflexivity.
  - intros kv [<-|[<-|[]]]; reflexivity.
  - reflexivity.
  - split; [exact H1 | exact H2].
Defined.

Lemma X19_witness :
  JSMap.size (Memory.taskMemories
                (Memory.cleanupExpiredEntries Memory.sample_memory 100))
  = Nat.min 3 2.
Proof.
  refine (proj1 (@X19_sweep_restores_capacity_evicting_oldest
                   Memory.sample_memory 100%Z _ _)).
  - repeat constructor; simpl; intuition discriminate.
  - constructor.
Defined.

Lemma X20_witness :
  Memory.cleanupExpiredEntries
    (Memory.cleanupExpiredEntries Memory.sample_memory 100) 100
  = Memory.cleanupExpiredEntries Memory.sample_memory 100.
Proof.
  apply (@X20_sweep_is_idempotent Memory.sample_memory 100%Z).
  - repeat constructor; simpl; intuition discriminate.
  - constructor.
Defined.

Lemma X21_witness :
  JSMap.get "b"
    (Memory.taskMemories
       (Memory.cleanupExpiredEntries
          (MemoryOps.createTaskMemory Memory.sample_memory "b" 60) 100))
  = Some (Memory.mkTaskMemory "b" 60 60).
Proof.
  refine (proj1 (@X21_task_memory_just_used_survives_the_sweep
                   Memory.sample_memory "b" 60%Z 100%Z _ _ _)).
  - repeat constructor; simpl; intuition discriminate.
  - simpl. lia.
  - intros k v [E|[E|[E|[]]]] Hne; injection E as <- <-; simpl;
      first [lia | now destruct Hne].
Defined.

Lemma X22_witness :
  fst (Cache.retrieve
         (Cache.store [] "plan" "draft" Cache.type_task (Some 100%Z) 0)
         "plan" Cache.type_task 50)
  = Some "draft".
Proof.
  refine (proj1 (@X22_stored_value_is_read_back_until_its_ttl_runs_out
                   string [] "plan" "draft" Cache.type_task (Some 100%Z)
                   0%Z 50%Z _)).
  constructor.
Defined.

Lemma X23_witness :
  fst (Cache.retrieve
         (Cache.store [] "plan" "draft" Cache.type_task None 0)
         "plan" Cache.type_repo 50)
  = fst (Cache.retrieve (V:=string) [] "plan" Cache.type_repo 50).
Proof.
  apply (@X23_store_leaves_other_entries_alone
           string [] "plan" "plan" "draft" Cache.type_task Cache.type_repo
           None 0%Z 50%Z).
  discriminate.
Defined.

Lemma X24_witness :
  let s := Cache.store [] "plan" "draft" Cache.type_task (Some 100%Z) 0 in
  fst (Cache.retrieve (Cache.sweep s 50) "plan" Cache.type_task 50)
  = fst (Cache.retrieve s "plan" Cache.type_task 50).
Proof.
  intros s.
  refine (proj1 (@X24_retrieve_agrees_with_the_sweep
                   string s "plan" Cache.type_task 50%Z _)).
  repeat constructor. simpl. tauto.
Defined.

Lemma X26_witness :
  exists m,
    JSMap.get "file-write"
      (Tools.metrics
         (Tools.after Tools.sample_runtime
            [Tools.CallRegister Tools.file_write 0;
             Tools.CallExecute "file-write" (Tools.plain []) (Tools.mkClock 0 5 5)]))
    = Some m
    /\ Tools.calls m = (Tools.successes m + Tools.failures m)%Z.
Proof.
  destruct (JSMap.get "file-write"
              (Tools.metrics
                 (Tools.after Tools.sample_runtime
                    [Tools.CallRegister Tools.file_write 0;
                     Tools.CallExecute "file-write" (Tools.plain []) (Tools.mkClock 0 5 5)])))
    as [m|] eqn:E.
  - exists m. split; [reflexivity|].
    exact (proj1 (@X26_tool_metrics_stay_consistent
                    Tools.sample_runtime _ _ _ E)).
  - vm_compute in E. discriminate.
Defined.

Lemma X28_witness :
  Agent.isInitialized
    (snd (Agent.initialize AgentOps.flaky_hooks (Agent.new "Coder Agent")))
  = false.
Proof.
  exact (proj1 (proj1 (@X28_rejected_lifecycle_hook_leaves_the_agent_as_it_was
                         unit unit AgentOps.flaky_hooks (Agent.new "Coder Agent")
                         "model router unavailable"
                         (snd (Agent.initialize AgentOps.flaky_hooks
                                                (Agent.new "Coder Agent"))))
                      eq_refl)).
Defined.

Lemma X29_witness :
  let a := snd (Agent.initialize Agent.quiet_hooks (Agent.new "Coder Agent")) in
  let a1 := snd (Agent.shutdown Agent.quiet_hooks a) in
  let a2 := snd (Agent.initialize Agent.quiet_hooks a1) in
  Agent.isInitialized a2 = true.
Proof.
  intros a a1 a2.
  exact (proj1 (@X29_agent_can_be_initialized_again_after_shutdown
                  unit unit Agent.quiet_hooks a a1 a2 eq_refl eq_refl eq_refl)).
Defined.

